(** * Validation and identifier assignment of smart-device bundles

    A shallow embedding of [scripts/validate_spec.py] and of the identifier
    scheme of [scripts/gen_uml_from_spec.py], with the properties of the
    specification proved or refuted on it.

    Conventions of the embedding.
    - A Python [str] is a [string]; each [ascii] stands for the code point
      of the same number, so the texts covered are those with code points
      below 256.  The character classes [\s] and [\w] and [str.strip] are
      the Unicode ones of Python 3 restricted to that range.
    - A JSON object read with fixed keys is a record whose fields are
      optional where the code tests for the key; a key whose value is
      iterated ([devices], [states], [transitions], [attributes],
      [invariants]) is missing, not a list, or a list ([section_]), and a
      value that is not a list says what iterating it yields.  The elements
      of [devices], [states] and [transitions] are objects; the values of
      the other fields, the items of [attributes] and [invariants] and the
      names and values of the schema are strings.  Documents of other
      shapes (a number for an id, [null] for a trigger, a list inside a
      list of attributes) are outside the embedding.
    - [ERRS], the module-level list of the validator, is the state of a
      state-and-exception monad; a Python exception that the code does not
      catch is the [Raise] outcome.
    - A recorded message is kept as the [err(...)] call that produced it
      together with the interpolated values ([Diag]); [message] gives the
      text of the f-string. *)

From stdpp Require Import gmap strings list sorting.
From Stdlib Require Import Ascii String NArith Lia OrdersEx Sorted.

Local Open Scope string_scope.
Local Open Scope list_scope.

(** ** Python strings *)

Module Py.

Definition code (c : ascii) : N := N_of_ascii c.

Definition between (lo hi : N) (c : ascii) : bool :=
  ((lo <=? code c) && (code c <=? hi))%N.

(** [Py_UNICODE_ISSPACE]: what [\s] matches and what [str.strip] removes. *)
Definition is_space (c : ascii) : bool :=
  between 9 13 c || between 28 32 c || (code c =? 133)%N || (code c =? 160)%N.

(** [[a-zA-Z_]] *)
Definition is_ident_start (c : ascii) : bool :=
  between 97 122 c || between 65 90 c || (code c =? 95)%N.

(** [Py_UNICODE_ISALNUM] below 256: letters, decimal digits, and the
    Latin-1 letters and numeric characters. *)
Definition is_alnum (c : ascii) : bool :=
  between 48 57 c || between 65 90 c || between 97 122 c
  || (code c =? 170)%N || (code c =? 181)%N || (code c =? 186)%N
  || between 178 179 c || (code c =? 185)%N || between 188 190 c
  || between 192 214 c || between 216 246 c || between 248 255 c.

(** [\w] *)
Definition is_word (c : ascii) : bool :=
  is_alnum c || (code c =? 95)%N.

(** The double quote, code point 34, and the apostrophe, 39. *)
Definition dquote : ascii := Eval cbv in ascii_of_N 34.
Definition squote : ascii := Eval cbv in ascii_of_N 39.

Definition is_quote (c : ascii) : bool := (code c =? 34)%N.

(** Literals of this file write the double quote of the source as an
    apostrophe; [dq] puts the double quotes back. *)
Fixpoint dq (s : string) : string :=
  match s with
  | EmptyString => EmptyString
  | String c s' => String (if Ascii.eqb c squote then dquote else c) (dq s')
  end.

Fixpoint lstrip (s : string) : string :=
  match s with
  | EmptyString => EmptyString
  | String c s' => if is_space c then lstrip s' else s
  end.

Fixpoint rstrip (s : string) : string :=
  match s with
  | EmptyString => EmptyString
  | String c s' =>
      match rstrip s' with
      | EmptyString => if is_space c then EmptyString else String c EmptyString
      | r => String c r
      end
  end.

(** [s.strip()] *)
Definition strip (s : string) : string := rstrip (lstrip s).

(** [s.startswith(p)] on the text that starts at the current index. *)
Definition startswith (p s : string) : bool := String.prefix p s.

(** Truth value of a string: non-empty. *)
Definition truthy (s : string) : bool :=
  match s with EmptyString => false | _ => true end.

(** [x in xs] for a list of strings. *)
Definition mem (x : string) (xs : list string) : bool :=
  existsb (String.eqb x) xs.

(** [sorted(set(xs))]: the distinct elements in increasing order of code
    points. *)
Fixpoint insert_sorted (x : string) (l : list string) : list string :=
  match l with
  | [] => [x]
  | y :: l' =>
      match String_as_OT.compare x y with
      | Lt => x :: l
      | Eq => l
      | Gt => y :: insert_sorted x l'
      end
  end.

Definition sorted_set (xs : list string) : list string :=
  fold_right insert_sorted [] xs.

(** [str(n)] for a non-negative integer. *)
Definition digit_char (n : nat) : ascii := ascii_of_nat (48 + n).

Fixpoint str_nat_aux (fuel n : nat) (acc : string) : string :=
  match fuel with
  | O => acc
  | S fuel' =>
      let acc' := String (digit_char (n mod 10)) acc in
      match n / 10 with
      | O => acc'
      | q => str_nat_aux fuel' q acc'
      end
  end.

Definition str_nat (n : nat) : string := str_nat_aux (S n) n EmptyString.

(** [repr(s)] for a string: the quote is the apostrophe unless the text has
    an apostrophe and no double quote; the quote and the backslash are escaped, tab, newline and
    carriage return have their letter escapes, and the other characters
    that are not printable are written [\xhh]. *)
Definition has_char (n : N) (s : string) : bool :=
  existsb (fun c => (code c =? n)%N) (list_ascii_of_string s).

Definition repr_quote (s : string) : ascii :=
  if has_char 39 s && negb (has_char 34 s) then dquote else squote.

Definition hex_digit (n : N) : ascii :=
  if (n <? 10)%N then ascii_of_N (48 + n) else ascii_of_N (87 + n).

Definition is_printable (c : ascii) : bool :=
  negb (between 0 31 c || between 127 160 c || (code c =? 173)%N).

Definition repr_char (q c : ascii) : string :=
  if Ascii.eqb c q || (code c =? 92)%N then String "\" (String c EmptyString)
  else if (code c =? 9)%N then "\t"
  else if (code c =? 10)%N then "\n"
  else if (code c =? 13)%N then "\r"
  else if is_printable c then String c EmptyString
  else String "\" (String "x"
         (String (hex_digit (code c / 16)) (String (hex_digit (code c mod 16)) EmptyString))).

Fixpoint repr_body (q : ascii) (s : string) : string :=
  match s with
  | EmptyString => EmptyString
  | String c s' => repr_char q c +:+ repr_body q s'
  end.

Definition repr_str (s : string) : string :=
  let q := repr_quote s in
  String q (repr_body q s +:+ String q EmptyString).

Fixpoint join (sep : string) (xs : list string) : string :=
  match xs with
  | [] => EmptyString
  | [x] => x
  | x :: xs' => x +:+ sep +:+ join sep xs'
  end.

(** [repr(xs)] for a list of strings. *)
Definition repr_list (xs : list string) : string :=
  "[" +:+ join ", " (map repr_str xs) +:+ "]".

(** [str(x)] for a value that is a string or [None]. *)
Definition str_opt (x : option string) : string :=
  match x with Some s => s | None => "None" end.

(** [p in s] for two strings: [p] occurs in [s]. *)
Fixpoint contains (p s : string) : bool :=
  startswith p s ||
  match s with
  | EmptyString => false
  | String _ s' => contains p s'
  end.

End Py.

(** ** The two patterns of the validator *)

Module Re.

(** [p*], greedy: the longest prefix of characters in [p] and the rest. *)
Fixpoint span (p : ascii -> bool) (s : string) : string * string :=
  match s with
  | EmptyString => (EmptyString, EmptyString)
  | String c s' =>
      if p c then let '(w, r) := span p s' in (String c w, r)
      else (EmptyString, s)
  end.

(** [\s*] *)
Definition spaces (s : string) : string := snd (span Py.is_space s).

(** The group of an identifier: one character of [[a-zA-Z_]], then [\w*]. *)
Definition ident (s : string) : option (string * string) :=
  match s with
  | EmptyString => None
  | String c s' =>
      if Py.is_ident_start c
      then let '(w, r) := span Py.is_word s' in Some (String c w, r)
      else None
  end.

(** A literal text of the pattern; the result is what follows it. *)
Fixpoint lit (p s : string) : option string :=
  match p with
  | EmptyString => Some s
  | String a p' =>
      match s with
      | EmptyString => None
      | String c s' => if Ascii.eqb a c then lit p' s' else None
      end
  end.

(** The group of the operator, [==|!=]. *)
Definition cmp_op (s : string) : option (string * string) :=
  match lit "==" s with
  | Some r => Some ("==", r)
  | None =>
      match lit "!=" s with
      | Some r => Some ("!=", r)
      | None => None
      end
  end.

(** The group of the value: at least one character, none of them a double
    quote. *)
Definition quoted_body (s : string) : option (string * string) :=
  let '(v, r) := span (fun c => negb (Py.is_quote c)) s in
  match v with
  | EmptyString => None
  | _ => Some (v, r)
  end.

(** [\s*$]: only white space is left. *)
Definition at_end (s : string) : bool :=
  match spaces s with
  | EmptyString => true
  | _ => false
  end.

Definition quote_lit : string := String Py.dquote EmptyString.

(** [TRIG_ATOM_RE.match(s)], with the four groups of the match.  Every
    repetition of the pattern is followed by a character outside its class,
    so the greedy scan below is the only way the pattern can match. *)
Definition TRIG_ATOM_RE_match (s : string)
  : option (string * string * string * string) :=
  '(dev, r1) ← ident (spaces s);
  r2 ← lit "." r1;
  '(attr, r3) ← ident r2;
  '(op, r4) ← cmp_op (spaces r3);
  r5 ← lit quote_lit (spaces r4);
  '(val, r6) ← quoted_body r5;
  r7 ← lit quote_lit r6;
  if at_end r7 then Some (dev, attr, op, val) else None.

(** [ACTION_RE.match(s)], with its two groups. *)
Definition ACTION_RE_match (s : string) : option (string * string) :=
  '(dev, r1) ← ident (spaces s);
  r2 ← lit "." r1;
  '(cmd, r3) ← ident r2;
  r4 ← lit "()" r3;
  if at_end r4 then Some (dev, cmd) else None.

End Re.

(** ** Documents *)

(** A key whose value the code expects to be a list: missing, present with
    a value that is not a list, or a list.  Of a value that is not a list
    the code asks at most what iterating it yields: nothing can be iterated
    for [null], a number or a boolean ([None]: Python raises [TypeError]),
    the characters for a string and the keys for an object. *)
Inductive section_ (A : Type) : Type :=
  | Absent
  | NotAList (items : option (list string))
  | Items (l : list A).
Arguments Absent {A}.
Arguments NotAList {A} items.
Arguments Items {A} l.

(** [iter(d.get(k, []))] for a key whose list holds strings: the items of
    the loop, or [None] where Python raises [TypeError]. *)
Definition items_of (x : section_ string) : option (list string) :=
  match x with
  | Absent => Some []
  | NotAList items => items
  | Items l => Some l
  end.

Record Device := {
  d_id : option string;
  d_type : option string;
  d_attributes : section_ string
}.

Record State := {
  st_id : option string;
  st_invariants : section_ string
}.

Record Transition := {
  tr_source : option string;
  tr_target : option string;
  tr_trigger : option string;
  tr_action : option string
}.

Record Spec := {
  bundle_name : option string;
  devices : section_ Device;
  states : section_ State;
  transitions : section_ Transition;
  notes : option string
}.

(** One device type of [caps.json]. *)
Record CapType := {
  attributes : gmap string (list string);
  actions : list string
}.

Record Caps := {
  caps_devices : option (gmap string CapType);
  caps_ops : option (list string);
  caps_bool_ops : option (list string)
}.

(** [k in spec] for the five keys of the contract. *)
Definition has_key (spec : Spec) (k : string) : bool :=
  if String.eqb k "bundle_name" then bool_decide (is_Some (bundle_name spec))
  else if String.eqb k "devices"
       then match devices spec with Absent => false | _ => true end
  else if String.eqb k "states"
       then match states spec with Absent => false | _ => true end
  else if String.eqb k "transitions"
       then match transitions spec with Absent => false | _ => true end
  else if String.eqb k "notes" then bool_decide (is_Some (notes spec))
  else false.

(** [k in tr] for the four keys of a transition. *)
Definition tr_has_key (tr : Transition) (k : string) : bool :=
  if String.eqb k "source" then bool_decide (is_Some (tr_source tr))
  else if String.eqb k "target" then bool_decide (is_Some (tr_target tr))
  else if String.eqb k "trigger" then bool_decide (is_Some (tr_trigger tr))
  else if String.eqb k "action" then bool_decide (is_Some (tr_action tr))
  else false.

(** ** Recorded messages *)

Inductive Diag : Type :=
  | MissingDevices
  | DeviceMissingKeys (d : Device)
  | UnknownDeviceType (dtype : string)
  | DuplicateDeviceId (did : string)
  | DeviceAttributesInvalid (did : string) (invalid : list string)
  | RequiredDeviceMissing (must : string)
  | BadTriggerAtom (atom : string)
  | UnknownDeviceInTrigger (dev : string)
  | UnknownAttribute (dev attr : string)
  | InvalidOperator (op atom : string)
  | InvalidValue (val dev attr : string) (allowed : list string)
  | ExpectedBoolOp (tok : string)
  | EndsWithOperator
  | BadActionSyntax (act : string)
  | UnknownDeviceInAction (dev : string)
  | CommandNotAllowed (cmd dev dtype : string) (allowed : list string)
  | MissingKey (k : string)
  | StateMissingId (st : State)
  | DuplicateStateId (sid : string)
  | InvariantsMustBeList (sid : string)
  | BadInvariantAtom (sid iv : string)
  | UnknownDeviceInInvariant (dev : string)
  | UnknownAttributeInv (dev attr : string)
  | InvalidOperatorInv (op : string)
  | InvalidValueInv (val dev attr : string)
  | TransitionMissing (i : nat) (k : string)
  | TransitionUnknownSource (i : nat) (src : option string)
  | TransitionUnknownTarget (i : nat) (tgt : option string).

(** [repr] of the object of a device or of a state.  The text is the one
    that Python prints for an object that has the keys of the record only,
    in the order of the record, with a list for [attributes] and for
    [invariants]; a value of these keys that is not a list is not shown.
    Only the messages [Device missing keys] and [State missing id] show
    it. *)
Definition repr_items (kvs : list (string * option string)) : string :=
  "{" +:+ Py.join ", "
    (omap (fun kv => match kv.2 with
                     | Some v => Some (Py.repr_str kv.1 +:+ ": " +:+ v)
                     | None => None
                     end) kvs) +:+ "}".

Definition repr_device (d : Device) : string :=
  repr_items [("id", Py.repr_str <$> d_id d);
              ("type", Py.repr_str <$> d_type d);
              ("attributes",
               match d_attributes d with
               | Items l => Some (Py.repr_list l)
               | _ => None
               end)].

Definition repr_state (st : State) : string :=
  repr_items [("id", Py.repr_str <$> st_id st);
              ("invariants",
               match st_invariants st with
               | Items l => Some (Py.repr_list l)
               | _ => None
               end)].

(** The text of each message, as the f-string of its [err] call. *)
Definition message (e : Diag) : string :=
  match e with
  | MissingDevices => "Missing devices[]"
  | DeviceMissingKeys d => "Device missing keys: " +:+ repr_device d
  | UnknownDeviceType dtype => "Unknown device type: " +:+ dtype
  | DuplicateDeviceId did => "Duplicate device id: " +:+ did
  | DeviceAttributesInvalid did invalid =>
      "Device " +:+ did +:+ " attributes invalid: " +:+ Py.repr_list invalid
  | RequiredDeviceMissing must => "Required device missing: " +:+ must
  | BadTriggerAtom atom => "Bad trigger atom: " +:+ atom
  | UnknownDeviceInTrigger dev => "Unknown device in trigger: " +:+ dev
  | UnknownAttribute dev attr => "Unknown attribute " +:+ dev +:+ "." +:+ attr
  | InvalidOperator op atom => "Invalid operator " +:+ op +:+ " in " +:+ atom
  | InvalidValue val dev attr allowed =>
      "Invalid value " +:+ val +:+ " for " +:+ dev +:+ "." +:+ attr
      +:+ "; allowed=" +:+ Py.repr_list allowed
  | ExpectedBoolOp tok => "Expected boolean op between atoms, got: " +:+ tok
  | EndsWithOperator => "Trigger expression ends with operator"
  | BadActionSyntax act => "Bad action syntax: " +:+ act
  | UnknownDeviceInAction dev => "Unknown device in action: " +:+ dev
  | CommandNotAllowed cmd dev dtype allowed =>
      "Command " +:+ cmd +:+ " not allowed for " +:+ dev +:+ " (type "
      +:+ dtype +:+ "); allowed=" +:+ Py.repr_list allowed
  | MissingKey k => "Missing key: " +:+ k
  | StateMissingId st => "State missing id: " +:+ repr_state st
  | DuplicateStateId sid => "Duplicate state id: " +:+ sid
  | InvariantsMustBeList sid => "State " +:+ sid +:+ " invariants must be list"
  | BadInvariantAtom sid iv =>
      "Bad invariant atom in state " +:+ sid +:+ ": " +:+ iv
  | UnknownDeviceInInvariant dev => "Unknown device in invariant: " +:+ dev
  | UnknownAttributeInv dev attr =>
      "Unknown attribute " +:+ dev +:+ "." +:+ attr +:+ " in invariant"
  | InvalidOperatorInv op => "Invalid operator " +:+ op +:+ " in invariant"
  | InvalidValueInv val dev attr =>
      "Invalid value " +:+ val +:+ " for " +:+ dev +:+ "." +:+ attr
      +:+ " in invariant"
  | TransitionMissing i k =>
      "Transition " +:+ Py.str_nat i +:+ " missing " +:+ k
  | TransitionUnknownSource i src =>
      "Transition " +:+ Py.str_nat i +:+ " unknown source: " +:+ Py.str_opt src
  | TransitionUnknownTarget i tgt =>
      "Transition " +:+ Py.str_nat i +:+ " unknown target: " +:+ Py.str_opt tgt
  end.

(** ** The monad of the validator: [ERRS] and uncaught exceptions *)

Inductive exn : Type :=
  | KeyError (key : string)
  | IndexError
  | TypeError.

Inductive result (A : Type) : Type :=
  | Ret (a : A)
  | Raise (e : exn).
Arguments Ret {A} a.
Arguments Raise {A} e.

(** A computation reads the current [ERRS] and gives its outcome and the
    [ERRS] it leaves. *)
Definition M (A : Type) : Type := list Diag -> result A * list Diag.

Definition ret {A} (a : A) : M A := fun errs => (Ret a, errs).

Definition bind {A B} (m : M A) (k : A -> M B) : M B :=
  fun errs =>
    match m errs with
    | (Ret a, errs') => k a errs'
    | (Raise e, errs') => (Raise e, errs')
    end.

Definition raise {A} (e : exn) : M A := fun errs => (Raise e, errs).

Declare Scope M_scope.
Delimit Scope M_scope with M.
Bind Scope M_scope with M.

Notation "x <- m ;; k" := (bind m (fun x => k))
  (at level 20, m at level 99, k at level 200, only parsing) : M_scope.
Notation "' pat <- m ;; k" := (bind m (fun x => match x with pat => k end))
  (at level 20, pat pattern, m at level 99, k at level 200, only parsing)
  : M_scope.
Notation "m ;; k" := (bind m (fun _ => k))
  (at level 100, k at level 200, only parsing, right associativity) : M_scope.

Local Open Scope M_scope.

(** [err(msg)]: [ERRS.append(msg)] *)
Definition err (msg : Diag) : M unit := fun errs => (Ret tt, errs ++ [msg]).

(** Reading [ERRS], as the report at the end of [main] does. *)
Definition get_errs : M (list Diag) := fun errs => (Ret errs, errs).

(** [if c: err(msg)] *)
Definition err_if (c : bool) (msg : Diag) : M unit :=
  if c then err msg else ret tt.

(** [for x in xs: body], where the body may update loop-carried variables
    [s]; a [continue] is the end of the body. *)
Fixpoint for_fold {A S} (xs : list A) (s : S) (body : S -> A -> M S) : M S :=
  match xs with
  | [] => ret s
  | x :: xs' => s' <- body s x ;; for_fold xs' s' body
  end.

Definition for_each {A} (xs : list A) (body : A -> M unit) : M unit :=
  for_fold xs tt (fun _ x => body x).

(** [enumerate(xs, start)] *)
Fixpoint enumerate {A} (start : nat) (xs : list A) : list (nat * A) :=
  match xs with
  | [] => []
  | x :: xs' => (start, x) :: enumerate (S start) xs'
  end.

(** [d[k]] on a dict: [KeyError] when the key is missing. *)
Definition getitem {V} (d : gmap string V) (k : string) : M V :=
  match d !! k with
  | Some v => ret v
  | None => raise (KeyError k)
  end.

(** [k in d] on a dict. *)
Definition has {V} (d : gmap string V) (k : string) : bool :=
  bool_decide (is_Some (d !! k)).

(** [set(d.get(k, []))]: the items of the value, [TypeError] for a value
    that cannot be iterated. *)
Definition iterate (x : section_ string) : M (list string) :=
  match items_of x with
  | Some l => ret l
  | None => raise TypeError
  end.

(** ** [validate_spec.py] *)

Definition required_devices : list string :=
  ["presenceSensor"; "motionSensor"; "switch"].

Definition validate_device (caps_devices : gmap string CapType)
    (dev_map : gmap string string) (d : Device) : M (gmap string string) :=
  match d_id d, d_type d, d_attributes d with
  | Some did, Some dtype, (NotAList _ | Items _) =>
      if negb (has caps_devices dtype) then
        err (UnknownDeviceType dtype) ;; ret dev_map
      else
        err_if (has dev_map did) (DuplicateDeviceId did) ;;
        let dev_map := <[did := dtype]> dev_map in
        ct <- getitem caps_devices dtype ;;
        let want_attrs := attributes ct in
        got_attrs <- iterate (d_attributes d) ;;
        err_if (negb (forallb (has want_attrs) got_attrs))
          (DeviceAttributesInvalid did
             (Py.sorted_set
                (List.filter (fun a => negb (has want_attrs a)) got_attrs))) ;;
        ret dev_map
  | _, _, _ => err (DeviceMissingKeys d) ;; ret dev_map
  end.

(** The body of the loop over the required devices. *)
Definition required_check (dev_map : gmap string string) (must : string)
  : M unit :=
  err_if (negb (has dev_map must)) (RequiredDeviceMissing must).

Definition validate_devices (spec : Spec) (caps_root : Caps)
  : M (gmap string string * gmap string CapType) :=
  match devices spec with
  | Items ds =>
      let caps_devices := default ∅ (caps_devices caps_root) in
      dev_map <- for_fold ds ∅ (validate_device caps_devices) ;;
      for_each required_devices (required_check dev_map) ;;
      ret (dev_map, caps_devices)
  | _ => err MissingDevices ;; ret (∅, ∅)
  end.

(** The loop of [split_bool] on the text from index [i] on: the result is
    the token list and the buffer when the text is exhausted. *)
Fixpoint split_loop (expr buf : string) (tokens : list string)
  : list string * string :=
  match expr with
  | EmptyString => (tokens, buf)
  | String c rest =>
      if Py.startswith "&&" expr || Py.startswith "||" expr then
        match rest with
        | String c2 rest2 =>
            split_loop rest2 EmptyString
              (tokens ++ [Py.strip buf; String c (String c2 EmptyString)])
        | EmptyString => (tokens, buf)
        end
      else split_loop rest (buf +:+ String c EmptyString) tokens
  end.

Definition split_bool (expr : string) (bool_ops : list string) : list string :=
  let '(tokens, buf) := split_loop expr EmptyString [] in
  if Py.truthy (Py.strip buf) then tokens ++ [Py.strip buf] else tokens.

Definition validate_atom (atom : string) (dev_map : gmap string string)
    (caps_devices : gmap string CapType) (ops : list string) : M unit :=
  match Re.TRIG_ATOM_RE_match atom with
  | None => err (BadTriggerAtom atom)
  | Some (dev, attr, op, val) =>
      if negb (has dev_map dev) then err (UnknownDeviceInTrigger dev)
      else
        dtype <- getitem dev_map dev ;;
        ct <- getitem caps_devices dtype ;;
        if negb (has (attributes ct) attr) then err (UnknownAttribute dev attr)
        else
          err_if (negb (Py.mem op ops)) (InvalidOperator op atom) ;;
          ct <- getitem caps_devices dtype ;;
          vals <- getitem (attributes ct) attr ;;
          let allowed_vals := Py.sorted_set vals in
          err_if (negb (Py.mem val vals))
            (InvalidValue val dev attr allowed_vals)
  end.

(** The body of the loop of [validate_trigger]; the loop-carried variable
    is [expect_atom]. *)
Definition trigger_step (dev_map : gmap string string)
    (caps_devices : gmap string CapType) (bool_ops ops : list string)
    (expect_atom : bool) (tok : string) : M bool :=
  if expect_atom then
    validate_atom tok dev_map caps_devices ops ;; ret false
  else
    err_if (negb (Py.mem tok bool_ops)) (ExpectedBoolOp tok) ;; ret true.

Definition validate_trigger (expr : string) (dev_map : gmap string string)
    (caps_devices : gmap string CapType) (bool_ops ops : list string)
  : M unit :=
  let tokens := split_bool expr bool_ops in
  expect_atom <- for_fold tokens true
                   (trigger_step dev_map caps_devices bool_ops ops) ;;
  err_if (negb (bool_decide (tokens = [])) && expect_atom) EndsWithOperator.

Definition validate_action (act : string) (dev_map : gmap string string)
    (caps_devices : gmap string CapType) : M unit :=
  match Re.ACTION_RE_match act with
  | None => err (BadActionSyntax act)
  | Some (dev, cmd) =>
      if negb (has dev_map dev) then err (UnknownDeviceInAction dev)
      else
        dtype <- getitem dev_map dev ;;
        ct <- getitem caps_devices dtype ;;
        let allowed := actions ct in
        err_if (negb (Py.mem cmd allowed))
          (CommandNotAllowed cmd dev dtype (Py.sorted_set allowed))
  end.

Definition top_level_keys : list string :=
  ["bundle_name"; "devices"; "states"; "transitions"; "notes"].

Definition check_keys (spec : Spec) : M unit :=
  for_each top_level_keys
    (fun k => err_if (negb (has_key spec k)) (MissingKey k)).

(** The body of the loop over the invariants of the state [sid]. *)
Definition check_invariant (dev_map : gmap string string)
    (caps_devices : gmap string CapType) (ops : list string)
    (sid iv : string) : M unit :=
  match Re.TRIG_ATOM_RE_match iv with
  | None => err (BadInvariantAtom sid iv)
  | Some (dev, attr, op, val) =>
      if negb (has dev_map dev) then err (UnknownDeviceInInvariant dev)
      else
        dtype <- getitem dev_map dev ;;
        ct <- getitem caps_devices dtype ;;
        err_if (negb (has (attributes ct) attr)) (UnknownAttributeInv dev attr) ;;
        err_if (negb (Py.mem op ops)) (InvalidOperatorInv op) ;;
        ct <- getitem caps_devices dtype ;;
        vals <- getitem (attributes ct) attr ;;
        err_if (negb (Py.mem val vals)) (InvalidValueInv val dev attr)
  end.

(** The body of the loop over the states; the loop-carried variable is
    [state_ids]. *)
Definition check_state (dev_map : gmap string string)
    (caps_devices : gmap string CapType) (ops : list string)
    (state_ids : gset string) (st : State) : M (gset string) :=
  match st_id st with
  | None => err (StateMissingId st) ;; ret state_ids
  | Some sid =>
      err_if (bool_decide (sid ∈ state_ids)) (DuplicateStateId sid) ;;
      let state_ids := {[sid]} ∪ state_ids in
      match st_invariants st with
      | NotAList _ => err (InvariantsMustBeList sid) ;; ret state_ids
      | Absent => ret state_ids
      | Items invs =>
          for_each invs (check_invariant dev_map caps_devices ops sid) ;;
          ret state_ids
      end
  end.

Definition check_states (spec : Spec) (dev_map : gmap string string)
    (caps_devices : gmap string CapType) (ops : list string)
  : M (gset string) :=
  match states spec with
  | Items sts => for_fold sts ∅ (check_state dev_map caps_devices ops)
  | _ => ret ∅
  end.

(** [x not in state_ids] where [x] is a string or [None]. *)
Definition known_state (state_ids : gset string) (x : option string) : bool :=
  match x with
  | Some sid => bool_decide (sid ∈ state_ids)
  | None => false
  end.

Definition transition_keys : list string :=
  ["source"; "target"; "trigger"; "action"].

(** The body of the loop over the transitions. *)
Definition check_transition (dev_map : gmap string string)
    (caps_devices : gmap string CapType) (bool_ops ops : list string)
    (state_ids : gset string) (itr : nat * Transition) : M unit :=
  let '(i, tr) := itr in
  for_each transition_keys
    (fun k => err_if (negb (tr_has_key tr k)) (TransitionMissing i k)) ;;
  let src := tr_source tr in
  let tgt := tr_target tr in
  err_if (negb (known_state state_ids src)) (TransitionUnknownSource i src) ;;
  err_if (negb (known_state state_ids tgt)) (TransitionUnknownTarget i tgt) ;;
  validate_trigger (default EmptyString (tr_trigger tr))
    dev_map caps_devices bool_ops ops ;;
  validate_action (default EmptyString (tr_action tr)) dev_map caps_devices.

Definition check_transitions (spec : Spec) (dev_map : gmap string string)
    (caps_devices : gmap string CapType) (bool_ops ops : list string)
    (state_ids : gset string) : M unit :=
  match transitions spec with
  | Items trs =>
      for_each (enumerate 1 trs)
        (check_transition dev_map caps_devices bool_ops ops state_ids)
  | _ => ret tt
  end.

(** What a run prints on the standard output, and its exit status. *)
Record Report := { stdout : list string; status : nat }.

Definition report (errs : list Diag) : Report :=
  match errs with
  | [] => {| stdout := ["OK"]; status := 0 |}
  | _ => {| stdout := map (fun e => "- " +:+ message e) errs; status := 1 |}
  end.

(** The checks of [main], from the operators read in [caps.json] to the
    last transition. *)
Definition main_checks (spec : Spec) (caps_root : Caps) : M unit :=
  let ops := default [] (caps_ops caps_root) in
  let bool_ops := default ["&&"; "||"] (caps_bool_ops caps_root) in
  check_keys spec ;;
  ' (dev_map, caps_devices) <- validate_devices spec caps_root ;;
  state_ids <- check_states spec dev_map caps_devices ops ;;
  check_transitions spec dev_map caps_devices bool_ops ops state_ids.

(** [main], for two documents that were loaded: the checks, then the
    report of what [ERRS] holds. *)
Definition main (spec : Spec) (caps_root : Caps) : M Report :=
  main_checks spec caps_root ;;
  errs <- get_errs ;;
  ret (report errs).

(** What a computation records when [ERRS] is empty before it, and how it
    ends then. *)
Definition emitted {A} (m : M A) : list Diag := (m []).2.
Definition outcome {A} (m : M A) : result A := (m []).1.

(** The part of the validator that records a message. *)
Inductive Phase : Type :=
  | TopLevel
  | DeviceCheck
  | StateCheck
  | TransitionCheck.

Definition phase_of (e : Diag) : Phase :=
  match e with
  | MissingKey _ => TopLevel
  | MissingDevices | DeviceMissingKeys _ | UnknownDeviceType _
  | DuplicateDeviceId _ | DeviceAttributesInvalid _ _
  | RequiredDeviceMissing _ => DeviceCheck
  | StateMissingId _ | DuplicateStateId _ | InvariantsMustBeList _
  | BadInvariantAtom _ _ | UnknownDeviceInInvariant _
  | UnknownAttributeInv _ _ | InvalidOperatorInv _
  | InvalidValueInv _ _ _ => StateCheck
  | BadTriggerAtom _ | UnknownDeviceInTrigger _ | UnknownAttribute _ _
  | InvalidOperator _ _ | InvalidValue _ _ _ _ | ExpectedBoolOp _
  | EndsWithOperator | BadActionSyntax _ | UnknownDeviceInAction _
  | CommandNotAllowed _ _ _ _ | TransitionMissing _ _
  | TransitionUnknownSource _ _ | TransitionUnknownTarget _ _ =>
      TransitionCheck
  end.

(** The messages of a loop, one list for each item in the order of the
    items; the list of an item is what the body records on it in the loop
    state that the items before it leave. *)
Fixpoint per_item {A S} (xs : list A) (s : S) (body : S -> A -> M S)
  : list (list Diag) :=
  match xs with
  | [] => []
  | x :: xs' =>
      emitted (body s x) ::
      match outcome (body s x) with
      | Ret s' => per_item xs' s' body
      | Raise _ => []
      end
  end.

(** ** [gen_uml_from_spec.py]: the sections spliced into the template *)

Module Uml.

(** The generator keeps no [ERRS]; an exception ends it. *)
Definition rbind {A B} (m : result A) (k : A -> result B) : result B :=
  match m with
  | Ret a => k a
  | Raise e => Raise e
  end.

Declare Scope R_scope.
Delimit Scope R_scope with R.
Notation "x <- m ;; k" := (rbind m (fun x => k))
  (at level 20, m at level 99, k at level 200, only parsing) : R_scope.
Local Open Scope R_scope.

(** [d[k]] on a dict, and [x[k]] on an optional field of a record. *)
Definition lookup_key {V} (d : gmap string V) (k : string) : result V :=
  match d !! k with
  | Some v => Ret v
  | None => Raise (KeyError k)
  end.

Definition field {V} (k : string) (x : option V) : result V :=
  match x with
  | Some v => Ret v
  | None => Raise (KeyError k)
  end.

(** [html.escape(x, quote=True)].  The five replacements are made one after
    the other with [&] first, which is the same as replacing each character
    on its own. *)
Definition escape_char (c : ascii) : string :=
  if (Py.code c =? 38)%N then "&amp;"
  else if (Py.code c =? 60)%N then "&lt;"
  else if (Py.code c =? 62)%N then "&gt;"
  else if (Py.code c =? 34)%N then "&quot;"
  else if (Py.code c =? 39)%N then "&#x27;"
  else String c EmptyString.

Fixpoint h (x : string) : string :=
  match x with
  | EmptyString => EmptyString
  | String c x' => escape_char c +:+ h x'
  end.

(** One match of [_NOTPRESENT_EQ] (or [_NOTPRESENT_NEQ], by [op]) at the
    start of [s]: the first group and the text after the match. *)
Definition notpresent_match (op s : string) : option (string * string) :=
  r1 ← Re.lit "presenceSensor.presence" s;
  let '(w1, r2) := Re.span Py.is_space r1 in
  r3 ← Re.lit op r2;
  let '(w2, r4) := Re.span Py.is_space r3 in
  r5 ← Re.lit (Py.dq "'notpresent'") r4;
  Some ("presenceSensor.presence" +:+ w1 +:+ op +:+ w2, r5).

(** [pattern.sub(r'\1"not present"', s)]: the matches are replaced from
    left to right; [skip] counts the characters of a match still to pass. *)
Fixpoint sub_notpresent (op : string) (skip : nat) (s : string) : string :=
  match s with
  | EmptyString => EmptyString
  | String c s' =>
      match skip with
      | S k => sub_notpresent op k s'
      | O =>
          match notpresent_match op s with
          | Some (g, _) =>
              g +:+ Py.dq "'not present'"
                +:+ sub_notpresent op (String.length g + 11) s'
          | None => String c (sub_notpresent op 0 s')
          end
      end
  end.

Definition normalize_expr (expr : string) : string :=
  let expr := sub_notpresent "==" 0 expr in
  let expr := sub_notpresent "!=" 0 expr in
  expr.

(** A line of the output, as the f-string that writes it with the values
    it interpolates. *)
Inductive Line : Type :=
  | Subvertex (xmi_type xmi_id : string) (name : option string)
  | TransitionEl (xmi_id source target : string)
  | StereoOpen (tag xmi_id base_attr base : string)
  | StereoChild (tag text : string)
  | StereoClose (tag : string).

Definition line_text (l : Line) : string :=
  match l with
  | Subvertex ty id None =>
      Py.dq "      <subvertex xmi:type='" +:+ ty +:+ Py.dq "' xmi:id='"
        +:+ id +:+ Py.dq "'/>"
  | Subvertex ty id (Some name) =>
      Py.dq "      <subvertex xmi:type='" +:+ ty +:+ Py.dq "' xmi:id='"
        +:+ id +:+ Py.dq "' name='" +:+ name +:+ Py.dq "'/>"
  | TransitionEl id src tgt =>
      Py.dq "      <transition xmi:type='uml:Transition' xmi:id='" +:+ id
        +:+ Py.dq "' source='" +:+ src +:+ Py.dq "' target='" +:+ tgt
        +:+ Py.dq "'/>"
  | StereoOpen tag id base_attr base =>
      "  <" +:+ tag +:+ Py.dq " xmi:id='" +:+ id +:+ Py.dq "' " +:+ base_attr
        +:+ Py.dq "='" +:+ base +:+ Py.dq "'>"
  | StereoChild tag text =>
      "    <" +:+ tag +:+ ">" +:+ text +:+ "</" +:+ tag +:+ ">"
  | StereoClose tag => "  </" +:+ tag +:+ ">"
  end.

(** The dict comprehension of [main]: each state id [S] is given [s_S].
    The value of a key does not depend on the state that brings it, so the
    order in which the keys are inserted does not show. *)
Fixpoint state_xmi_ids (states : list State) : result (gmap string string) :=
  match states with
  | [] => Ret ∅
  | s :: states' =>
      sid <- field "id" (st_id s) ;;
      ids <- state_xmi_ids states' ;;
      Ret (<[sid := "s_" +:+ sid]> ids)
  end.

(** [for x in xs: out.append(..)], where the body may raise. *)
Fixpoint collect {A B} (xs : list A) (body : A -> result (list B))
  : result (list B) :=
  match xs with
  | [] => Ret []
  | x :: xs' =>
      ls <- body x ;;
      rest <- collect xs' body ;;
      Ret (ls ++ rest)
  end.

(** The same for a body that updates a loop-carried variable. *)
Fixpoint collect_with {A B S} (xs : list A) (st : S)
    (body : S -> A -> result (list B * S)) : result (list B) :=
  match xs with
  | [] => Ret []
  | x :: xs' =>
      r <- body st x ;;
      rest <- collect_with xs' r.2 body ;;
      Ret (r.1 ++ rest)
  end.

Definition make_state_nodes (states : list State)
    (state_xmi_ids : gmap string string) : result (list Line) :=
  nodes <- collect states (fun s =>
             sid <- field "id" (st_id s) ;;
             xid <- lookup_key state_xmi_ids sid ;;
             Ret [Subvertex "uml:State" xid (Some (h sid))]) ;;
  Ret ([Subvertex "uml:Pseudostate" "init_1" None] ++ nodes
         ++ [Subvertex "uml:FinalState" "final_1" None]).

Definition make_transitions (states : list State)
    (transitions : list Transition) (state_xmi_ids : gmap string string)
  : result (list Line) :=
  s0 <- match states with
        | s :: _ => Ret s
        | [] => Raise IndexError
        end ;;
  first_sid <- field "id" (st_id s0) ;;
  first_xid <- lookup_key state_xmi_ids first_sid ;;
  user <- collect (enumerate 1 transitions) (fun itr =>
            let tid := "t_" +:+ Py.str_nat itr.1 in
            source <- field "source" (tr_source itr.2) ;;
            src <- lookup_key state_xmi_ids source ;;
            target <- field "target" (tr_target itr.2) ;;
            tgt <- lookup_key state_xmi_ids target ;;
            Ret [TransitionEl tid src tgt]) ;;
  Ret ([TransitionEl "t_init" "init_1" first_xid] ++ user).

(** [for iv in s.get("invariants", [])]: the items of the loop, for any
    value of the key; the generator does not ask whether it is a list. *)
Definition invariants_of (s : State) : result (list string) :=
  match items_of (st_invariants s) with
  | Some invs => Ret invs
  | None => Raise TypeError
  end.

Definition make_stereotypes (states : list State)
    (transitions : list Transition) (state_xmi_ids : gmap string string)
  : result (list Line) :=
  blocks <- collect_with states 1 (fun inv_counter s =>
              sid <- field "id" (st_id s) ;;
              base <- lookup_key state_xmi_ids sid ;;
              invs <- invariants_of s ;;
              Ret ([StereoOpen "MDSSED:states"
                      ("stinv_" +:+ Py.str_nat inv_counter) "base_State" base]
                   ++ map (fun iv => StereoChild "state" (h (normalize_expr iv)))
                        invs
                   ++ [StereoClose "MDSSED:states"],
                   inv_counter + 1)) ;;
  pairs <- collect (enumerate 1 transitions) (fun itr =>
             let i := itr.1 in
             let tid := "t_" +:+ Py.str_nat i in
             trigger <- field "trigger" (tr_trigger itr.2) ;;
             action <- field "action" (tr_action itr.2) ;;
             Ret [StereoOpen "MDSSED:triggers" ("trig_" +:+ Py.str_nat i)
                    "base_Transition" tid;
                  StereoChild "trigger" (h (normalize_expr trigger));
                  StereoClose "MDSSED:triggers";
                  StereoOpen "MDSSED:actions" ("act_" +:+ Py.str_nat i)
                    "base_Transition" tid;
                  StereoChild "action" (h action);
                  StereoClose "MDSSED:actions"]) ;;
  Ret (blocks ++ pairs).

(** The three sections that [main] builds from the states and the
    transitions of the document. *)
Record Sections := {
  state_xml : list Line;
  trans_xml : list Line;
  stereo_xml : list Line
}.

Definition sections (states : list State) (transitions : list Transition)
  : result Sections :=
  ids <- state_xmi_ids states ;;
  state_xml <- make_state_nodes states ids ;;
  trans_xml <- make_transitions states transitions ids ;;
  stereo_xml <- make_stereotypes states transitions ids ;;
  Ret {| state_xml := state_xml; trans_xml := trans_xml;
         stereo_xml := stereo_xml |}.

End Uml.

(** A computation that only appends to [ERRS], and what it appends
    satisfies [P]. *)
Definition writes (P : Diag -> Prop) {A} (m : M A) : Prop :=
  (forall errs, m errs = (outcome m, errs ++ emitted m)) /\
  Forall P (emitted m).

(** The messages of each phase, item by item in the order of the document. *)
Definition device_messages (spec : Spec) (caps_root : Caps) : list Diag :=
  match devices spec with
  | Items ds =>
      let cd := default ∅ (caps_devices caps_root) in
      List.concat (per_item ds ∅ (validate_device cd)) ++
      match outcome (for_fold ds ∅ (validate_device cd)) with
      | Ret dev_map =>
          List.concat
            (per_item required_devices tt (fun _ => required_check dev_map))
      | Raise _ => []
      end
  | _ => [MissingDevices]
  end.





(** ** Documents of the scenarios *)

Definition switch_type : CapType :=
  {| attributes := {[ "power" := ["on"; "off"] ]}; actions := ["toggle"] |}.

Definition caps_A : Caps :=
  {| caps_devices := Some {[ "switch" := switch_type ]};
     caps_ops := Some ["=="; "!="];
     caps_bool_ops := Some ["&&"; "||"] |}.

Definition switch1 : Device :=
  {| d_id := Some "switch1"; d_type := Some "switch";
     d_attributes := Items ["power"] |}.

(** Scenario A. *)
Definition spec_A : Spec :=
  {| bundle_name := Some "ScenarioA";
     devices := Items [switch1];
     states :=
       Items [ {| st_id := Some "Idle";
                  st_invariants := Items [Py.dq "switch1.power == 'off'"] |};
               {| st_id := Some "On";
                  st_invariants := Items [Py.dq "switch1.power == 'on'"] |} ];
     transitions :=
       Items [ {| tr_source := Some "Idle"; tr_target := Some "On";
                  tr_trigger := Some (Py.dq "switch1.power == 'off'");
                  tr_action := Some "switch1.toggle()" |} ];
     notes := Some "scenario A" |}.


Definition required_device (id : string) : Device :=
  {| d_id := Some id; d_type := Some "switch"; d_attributes := Items [] |}.

(** The devices of scenario A together with the three devices that the
    pipeline requires. *)
Definition devices_full : list Device :=
  [switch1; required_device "presenceSensor"; required_device "motionSensor";
   required_device "switch"].

Definition spec_A_full : Spec :=
  {| bundle_name := bundle_name spec_A;
     devices := Items devices_full;
     states := states spec_A;
     transitions := transitions spec_A;
     notes := notes spec_A |}.

(** Scenario A with all required devices, where the invariant of the first
    state names an attribute that a switch does not have. *)
Definition spec_unknown_attribute : Spec :=
  {| bundle_name := Some "ScenarioA";
     devices := Items devices_full;
     states :=
       Items [ {| st_id := Some "Idle";
                  st_invariants := Items [Py.dq "switch1.colour == 'off'"] |};
               {| st_id := Some "On";
                  st_invariants := Items [Py.dq "switch1.power == 'on'"] |} ];
     transitions := transitions spec_A;
     notes := Some "scenario A" |}.

(** Two runs of [main] one after the other in one process: the second
    starts with the [ERRS] that the first leaves. *)
Definition two_runs (spec : Spec) (caps_root : Caps)
  : result Report * result Report :=
  let '(r1, errs1) := main spec caps_root [] in
  let '(r2, _) := main spec caps_root errs1 in
  (r1, r2).

(** ** Notions used by the statements *)

(** A text of white space only (possibly empty). *)
Fixpoint blank (s : string) : bool :=
  match s with
  | EmptyString => true
  | String c s' => Py.is_space c && blank s'
  end.

(** The test of [split_bool] at the current index. *)
Definition starts_conn (s : string) : bool :=
  Py.startswith "&&" s || Py.startswith "||" s.

(** [quiet a rest]: at no index of [a], in the text [a] followed by [rest],
    does a connective start; the scan of [split_bool] then takes the whole
    of [a] into its buffer. *)
Fixpoint quiet (a rest : string) : bool :=
  match a with
  | EmptyString => true
  | String _ a' => negb (starts_conn (a +:+ rest)) && quiet a' rest
  end.

(** A token that is one of the two connectives. *)
Definition is_conn (tok : string) : Prop := tok = "&&" \/ tok = "||".

(** The device map only names types that the schema has, as the map that
    [validate_devices] builds does. *)
Definition consistent (dev_map : gmap string string)
    (caps_devices : gmap string CapType) : Prop :=
  map_Forall (fun _ dtype => is_Some (caps_devices !! dtype)) dev_map.

(** Token lists made of pairs of a buffer text and a connective, as the
    loop of [split_bool] appends them. *)
Inductive paired : list string -> Prop :=
  | paired_nil : paired []
  | paired_snoc (toks : list string) (a c : string) :
      paired toks -> is_conn c -> paired (toks ++ [a; c]).


Definition is_expected_bool_op (e : Diag) : bool :=
  match e with
  | ExpectedBoolOp _ => true
  | _ => false
  end.

(** The documents of scenario C: two devices and a trigger with two
    connectives in a row. *)
Definition caps_devices_C : gmap string CapType :=
  {[ "ta" := {| attributes := {[ "b" := ["x"] ]}; actions := [] |};
     "tc" := {| attributes := {[ "d" := ["y"] ]}; actions := [] |} ]}.

Definition dev_map_C : gmap string string := {[ "a" := "ta"; "c" := "tc" ]}.

Definition trigger_C : string := Py.dq "a.b == 'x' || || c.d == 'y'".

Definition dev_map_A : gmap string string := {[ "switch1" := "switch" ]}.
Definition caps_devices_A : gmap string CapType := {[ "switch" := switch_type ]}.

(** [good_tail s]: the text ends with a character that is not a double
    quote, then a double quote, then white space only. *)
Fixpoint good_tail (s : string) : bool :=
  match s with
  | EmptyString => false
  | String x s' =>
      good_tail s' ||
      (negb (Py.is_quote x) &&
       match s' with
       | String q w => Py.is_quote q && blank w
       | EmptyString => false
       end)
  end.

(** Scenario A with all required devices, where the invariant of the first
    state compares with a value that the attribute does not allow. *)
Definition spec_invalid_invariant_value : Spec :=
  {| bundle_name := Some "ScenarioA";
     devices := Items devices_full;
     states :=
       Items [ {| st_id := Some "Idle";
                  st_invariants := Items [Py.dq "switch1.power == 'maybe'"] |};
               {| st_id := Some "On";
                  st_invariants := Items [Py.dq "switch1.power == 'on'"] |} ];
     transitions := transitions spec_A;
     notes := Some "scenario A" |}.

(** ** The identifier scheme, in the words of the specification *)

Module Scheme.

(** Each state id [S] maps to the external id [s_S]. *)
Definition state_ext_id (S : string) : string := "s_" +:+ S.

(** The synthetic initial and final nodes and the synthetic initial
    transition have fixed ids. *)
Definition init_id : string := "init_1".
Definition final_id : string := "final_1".
Definition init_transition_id : string := "t_init".

(** The [n]-th user transition, its trigger annotation and its action
    annotation, and the invariant block of the [k]-th state; positions
    count from 1. *)
Definition transition_id (n : nat) : string := "t_" +:+ Py.str_nat n.
Definition trigger_annotation_id (n : nat) : string := "trig_" +:+ Py.str_nat n.
Definition action_annotation_id (n : nat) : string := "act_" +:+ Py.str_nat n.
Definition invariant_block_id (k : nat) : string := "stinv_" +:+ Py.str_nat k.

(** The fields of a validated document are present. *)
Definition sid_of (s : State) : string := default EmptyString (st_id s).
Definition source_of (tr : Transition) : string :=
  default EmptyString (tr_source tr).
Definition target_of (tr : Transition) : string :=
  default EmptyString (tr_target tr).
Definition trigger_of (tr : Transition) : string :=
  default EmptyString (tr_trigger tr).
Definition action_of (tr : Transition) : string :=
  default EmptyString (tr_action tr).

(** The invariants of a state, in the order of the document; a state
    without the key has none. *)
Definition invariants_of (s : State) : list string :=
  default [] (items_of (st_invariants s)).

Definition state_nodes (states : list State) : list Uml.Line :=
  [Uml.Subvertex "uml:Pseudostate" init_id None]
  ++ map (fun s => Uml.Subvertex "uml:State" (state_ext_id (sid_of s))
                     (Some (Uml.h (sid_of s)))) states
  ++ [Uml.Subvertex "uml:FinalState" final_id None].

Definition transition_lines (first : State) (transitions : list Transition)
  : list Uml.Line :=
  Uml.TransitionEl init_transition_id init_id (state_ext_id (sid_of first))
  :: imap (fun n tr =>
             Uml.TransitionEl (transition_id (S n))
               (state_ext_id (source_of tr)) (state_ext_id (target_of tr)))
       transitions.

Definition invariant_block (k : nat) (s : State) : list Uml.Line :=
  [Uml.StereoOpen "MDSSED:states" (invariant_block_id (S k)) "base_State"
     (state_ext_id (sid_of s))]
  ++ map (fun iv => Uml.StereoChild "state" (Uml.h (Uml.normalize_expr iv)))
       (invariants_of s)
  ++ [Uml.StereoClose "MDSSED:states"].

Definition transition_annotations (n : nat) (tr : Transition)
  : list Uml.Line :=
  [Uml.StereoOpen "MDSSED:triggers" (trigger_annotation_id (S n))
     "base_Transition" (transition_id (S n));
   Uml.StereoChild "trigger" (Uml.h (Uml.normalize_expr (trigger_of tr)));
   Uml.StereoClose "MDSSED:triggers";
   Uml.StereoOpen "MDSSED:actions" (action_annotation_id (S n))
     "base_Transition" (transition_id (S n));
   Uml.StereoChild "action" (Uml.h (action_of tr));
   Uml.StereoClose "MDSSED:actions"].

Definition annotations (states : list State) (transitions : list Transition)
  : list Uml.Line :=
  List.concat (imap invariant_block states)
  ++ List.concat (imap transition_annotations transitions).


End Scheme.

(** A bundle that the validator accepts: the run from an empty [ERRS]
    records nothing and reports [OK]. *)
Definition validated (spec : Spec) (caps_root : Caps) : Prop :=
  main spec caps_root [] = (Ret {| stdout := ["OK"]; status := 0 |}, []).


Definition all_digits (s : string) : bool :=
  forallb (Py.between 48 57) (list_ascii_of_string s).

(** [clean m a]: from an empty [ERRS] the computation returns [a] and
    records nothing. *)
Definition clean {A} (m : M A) (a : A) : Prop := m [] = (Ret a, []).

(** A transition of an accepted bundle has its four keys, and its source
    and its target are ids of states. *)
Definition well_formed_transition (ids : gset string) (tr : Transition)
  : Prop :=
  exists src tgt trig act,
    tr_source tr = Some src /\ tr_target tr = Some tgt /\
    tr_trigger tr = Some trig /\ tr_action tr = Some act /\
    src ∈ ids /\ tgt ∈ ids.

(** A message of the phase [p]. *)
Definition in_phase (p : Phase) (e : Diag) : Prop := phase_of e = p.

(** The one exception of a run: the [KeyError] of an attribute, after the
    message of an invariant with that unknown attribute was recorded. *)
Definition raises_only_unknown_attribute {A} (m : M A) : Prop :=
  forall e, outcome m = Raise e ->
    exists dev attr,
      e = KeyError attr /\ In (UnknownAttributeInv dev attr) (emitted m).

(** ** Notions for the grammar of the two patterns *)

(** All the characters of a text are in a class. *)
Definition all_in (p : ascii -> bool) (s : string) : bool :=
  forallb p (list_ascii_of_string s).

(** An identifier of the patterns: a character of [[a-zA-Z_]], then word
    characters. *)
Definition is_identifier (s : string) : bool :=
  match s with
  | EmptyString => false
  | String c r => Py.is_ident_start c && all_in Py.is_word r
  end.

(** A value of the atom pattern: not empty, and no double quote in it. *)
Definition is_value (s : string) : bool :=
  Py.truthy s && all_in (fun c => negb (Py.is_quote c)) s.

(** The text is empty or starts with a character outside the class. *)
Definition stops (p : ascii -> bool) (s : string) : bool :=
  match s with
  | EmptyString => true
  | String c _ => negb (p c)
  end.

(** The text of an atom, from its four groups and the white space around
    and between them. *)
Definition atom_text (w0 dev attr w1 op w2 val w3 : string) : string :=
  w0 +:+ dev +:+ "." +:+ attr +:+ w1 +:+ op +:+ w2
     +:+ Re.quote_lit +:+ val +:+ Re.quote_lit +:+ w3.

(** The text of an action, from its two groups and the white space
    around them. *)
Definition action_text (w0 dev cmd w1 : string) : string :=
  w0 +:+ dev +:+ "." +:+ cmd +:+ "()" +:+ w1.

(** ** Notions for the device check *)

(** The id and the type that the device check records for a device: the
    device has its three keys and a type of the schema. *)
Definition accepted (caps_devices : gmap string CapType) (d : Device)
  : option (string * string) :=
  match d_id d, d_type d, d_attributes d with
  | Some did, Some dtype, (NotAList _ | Items _) =>
      if has caps_devices dtype then Some (did, dtype) else None
  | _, _, _ => None
  end.

(** An accepted device with the id [k]. *)
Definition declares (caps_devices : gmap string CapType) (k : string)
    (d : Device) : bool :=
  match accepted caps_devices d with
  | Some (did, _) => String.eqb did k
  | None => false
  end.

(** A device on which the device check raises: it has its three keys and
    a type of the schema, and its attributes cannot be iterated. *)
Definition raising_device (caps_devices : gmap string CapType) (d : Device)
  : bool :=
  match accepted caps_devices d, items_of (d_attributes d) with
  | Some _, None => true
  | _, _ => false
  end.

(** The devices that the device loop reaches: all of them, or those up to
    the first one on which it raises, that one included. *)
Fixpoint reached (caps_devices : gmap string CapType) (ds : list Device)
  : list Device :=
  match ds with
  | [] => []
  | d :: ds' =>
      d :: if raising_device caps_devices d then []
           else reached caps_devices ds'
  end.

(** What the body of the device loop does to the map when it returns:
    [dev_map[did] = dtype] for an accepted device. *)
Definition record_device (caps_devices : gmap string CapType)
    (dev_map : gmap string string) (d : Device) : gmap string string :=
  match accepted caps_devices d with
  | Some (did, dtype) => <[did := dtype]> dev_map
  | None => dev_map
  end.

Definition device_map (caps_devices : gmap string CapType)
    (ds : list Device) : gmap string string :=
  fold_left (record_device caps_devices) ds ∅.

Definition is_duplicate_of (k : string) (e : Diag) : bool :=
  match e with
  | DuplicateDeviceId did => String.eqb did k
  | _ => false
  end.

Definition is_required_missing (e : Diag) : bool :=
  match e with
  | RequiredDeviceMissing _ => true
  | _ => false
  end.

(** Scenario D: two devices share the id [sensor1]; the schema has a type
    for each. *)
Definition caps_D : Caps :=
  {| caps_devices :=
       Some {[ "presence" := {| attributes := {[ "presence" := ["present"; "notpresent"] ]};
                               actions := [] |};
               "motion" := {| attributes := {[ "motion" := ["active"; "inactive"] ]};
                             actions := [] |} ]};
     caps_ops := Some ["=="; "!="];
     caps_bool_ops := Some ["&&"; "||"] |}.

Definition sensor1_presence : Device :=
  {| d_id := Some "sensor1"; d_type := Some "presence";
     d_attributes := Items ["presence"] |}.

Definition sensor1_motion : Device :=
  {| d_id := Some "sensor1"; d_type := Some "motion";
     d_attributes := Items ["motion"; "battery"; "colour"; "battery"] |}.

Definition spec_D : Spec :=
  {| bundle_name := Some "ScenarioD";
     devices := Items [sensor1_presence; sensor1_motion];
     states := Items [];
     transitions := Items [];
     notes := Some "scenario D" |}.

(** ** Notions for the acceptance of atoms and triggers *)

(** What the schema says of the four groups of an atom: the device is
    declared, its type is in the schema and has the attribute, the operator
    is one of [ops] and the value is one of the values of the attribute. *)
Definition atom_known (dev_map : gmap string string)
    (caps_devices : gmap string CapType) (ops : list string)
    (g : string * string * string * string) : bool :=
  let '(dev, attr, op, val) := g in
  match dev_map !! dev with
  | Some dtype =>
      match caps_devices !! dtype with
      | Some ct =>
          match attributes ct !! attr with
          | Some vals => Py.mem op ops && Py.mem val vals
          | None => false
          end
      | None => false
      end
  | None => false
  end.

(** A text that the atom pattern matches with groups that the schema
    knows. *)
Definition atom_accepted (dev_map : gmap string string)
    (caps_devices : gmap string CapType) (ops : list string)
    (s : string) : bool :=
  match Re.TRIG_ATOM_RE_match s with
  | Some g => atom_known dev_map caps_devices ops g
  | None => false
  end.

(** The token lists of the pattern [atom ((and | or) atom)*] of the
    docstring of [validate_trigger], for a test [ok] of the atoms and the
    operators of [bool_ops]. *)
Inductive chain (ok : string -> bool) (bool_ops : list string)
  : list string -> Prop :=
  | chain_one (a : string) : ok a = true -> chain ok bool_ops [a]
  | chain_more (a op : string) (rest : list string) :
      ok a = true -> Py.mem op bool_ops = true -> chain ok bool_ops rest ->
      chain ok bool_ops (a :: op :: rest).

(** One of the two characters of the connectives. *)
Definition is_conn_char (c : ascii) : bool :=
  Ascii.eqb c "&" || Ascii.eqb c "|".

(** ** Notions for the messages of a transition *)

(** A message of the trigger check. *)
Definition is_trigger_message (e : Diag) : bool :=
  match e with
  | BadTriggerAtom _ | UnknownDeviceInTrigger _ | UnknownAttribute _ _
  | InvalidOperator _ _ | InvalidValue _ _ _ _ | ExpectedBoolOp _
  | EndsWithOperator => true
  | _ => false
  end.

(** A message of the trigger check or of the action check. *)
Definition is_grammar_message (e : Diag) : bool :=
  match e with
  | BadActionSyntax _ | UnknownDeviceInAction _ | CommandNotAllowed _ _ _ _ =>
      true
  | _ => is_trigger_message e
  end.

(** A transition with a target only, in a list of one transition. *)
Definition tr_target_only : Transition :=
  {| tr_source := None; tr_target := Some "On";
     tr_trigger := None; tr_action := None |}.

Definition spec_target_only : Spec :=
  {| bundle_name := Some "ScenarioA";
     devices := Items devices_full;
     states := states spec_A;
     transitions := Items [tr_target_only];
     notes := Some "scenario A" |}.

(** ** Notions for the generator *)

(** The ids of the states that have one. *)
Definition declared_ids (sts : list State) : gset string :=
  list_to_set (omap st_id sts).

(** A transition whose source and target are ids of [ids]. *)
Definition linked (ids : gset string) (tr : Transition) : Prop :=
  exists src tgt,
    tr_source tr = Some src /\ tr_target tr = Some tgt /\
    src ∈ ids /\ tgt ∈ ids.

(** The exception of a key that is missing. *)
Definition key_error (e : exn) : Prop := exists k, e = KeyError k.

(** One of the five characters that [html.escape] replaces. *)
Definition is_escaped_char (c : ascii) : bool :=
  (Py.code c =? 38)%N || (Py.code c =? 60)%N || (Py.code c =? 62)%N
  || (Py.code c =? 34)%N || (Py.code c =? 39)%N.

(** A character that opens or closes a tag or an attribute value: the
    five characters but the ampersand. *)
Definition is_markup_char (c : ascii) : bool :=
  (Py.code c =? 60)%N || (Py.code c =? 62)%N
  || (Py.code c =? 34)%N || (Py.code c =? 39)%N.

(** [free op a rest]: at no index of [a], in the text [a] followed by
    [rest], does the pattern of [normalize_expr] for [op] match. *)
Fixpoint free (op a rest : string) : bool :=
  match a with
  | EmptyString => true
  | String _ a' =>
      match Uml.notpresent_match op (a +:+ rest) with
      | Some _ => false
      | None => free op a' rest
      end
  end.

(** ** What an accepted document is *)

(** An action that the action pattern matches with a declared device and
    a command of the type of the device. *)
Definition action_accepted (dev_map : gmap string string)
    (caps_devices : gmap string CapType) (act : string) : bool :=
  match Re.ACTION_RE_match act with
  | Some (dev, cmd) =>
      match dev_map !! dev with
      | Some dtype =>
          match caps_devices !! dtype with
          | Some ct => Py.mem cmd (actions ct)
          | None => false
          end
      | None => false
      end
  | None => false
  end.

(** A device with its three keys, a type of the schema and attributes of
    that type. *)
Definition device_well_formed (caps_devices : gmap string CapType)
    (d : Device) : Prop :=
  exists did dtype attrs ct,
    d_id d = Some did /\ d_type d = Some dtype /\
    d_attributes d <> Absent /\ items_of (d_attributes d) = Some attrs /\
    caps_devices !! dtype = Some ct /\
    Forall (fun a => is_Some (attributes ct !! a)) attrs.

(** [dev_map[did] = dtype], for a device with an id and a type. *)
Definition add_device (dev_map : gmap string string) (d : Device)
  : gmap string string :=
  match d_id d, d_type d with
  | Some did, Some dtype => <[did := dtype]> dev_map
  | _, _ => dev_map
  end.

(** The device map of a list of devices that all have an id and a type. *)
Definition device_types (ds : list Device) : gmap string string :=
  fold_left add_device ds ∅.

(** A state with an id and with invariants that are accepted atoms, when it
    has invariants. *)
Definition state_well_formed (dev_map : gmap string string)
    (caps_devices : gmap string CapType) (ops : list string)
    (st : State) : Prop :=
  is_Some (st_id st) /\
  match st_invariants st with
  | Absent => True
  | NotAList _ => False
  | Items invs =>
      Forall (fun iv => atom_accepted dev_map caps_devices ops iv = true) invs
  end.

(** A transition with its four keys, between two states of [ids], with a
    trigger whose tokens follow the pattern and an accepted action. *)
Definition transition_accepted (dev_map : gmap string string)
    (caps_devices : gmap string CapType) (bool_ops ops : list string)
    (ids : gset string) (tr : Transition) : Prop :=
  exists src tgt trig act,
    tr_source tr = Some src /\ tr_target tr = Some tgt /\
    tr_trigger tr = Some trig /\ tr_action tr = Some act /\
    src ∈ ids /\ tgt ∈ ids /\
    (split_bool trig bool_ops = [] \/
     chain (atom_accepted dev_map caps_devices ops) bool_ops
       (split_bool trig bool_ops)) /\
    action_accepted dev_map caps_devices act = true.

(** The documents that the validator accepts, read off its checks. *)
Definition well_formed_bundle (spec : Spec) (caps_root : Caps) : Prop :=
  let cd := default ∅ (caps_devices caps_root) in
  let ops := default [] (caps_ops caps_root) in
  let bool_ops := default ["&&"; "||"] (caps_bool_ops caps_root) in
  is_Some (bundle_name spec) /\ is_Some (notes spec) /\
  exists ds,
    devices spec = Items ds /\
    Forall (device_well_formed cd) ds /\
    NoDup (omap d_id ds) /\
    Forall (fun must => is_Some (device_types ds !! must)) required_devices /\
    match states spec with
    | Absent => False
    | NotAList _ => True
    | Items sts =>
        Forall (state_well_formed (device_types ds) cd ops) sts /\
        NoDup (omap st_id sts)
    end /\
    match transitions spec with
    | Absent => False
    | NotAList _ => True
    | Items trs =>
        Forall (transition_accepted (device_types ds) cd bool_ops ops
                  match states spec with
                  | Items sts => declared_ids sts
                  | _ => ∅
                  end) trs
    end.

(** A document whose states and transitions are not lists. *)
Definition spec_no_lists : Spec :=
  {| bundle_name := Some "b";
     devices := Items devices_full;
     states := NotAList None;
     transitions := NotAList None;
     notes := Some "n" |}.

(** An invariant on which the loop of [main] raises: the atom pattern
    matches it, the device is declared, and the type of the device is not in
    the schema or has no such attribute. *)
Definition raising_invariant (dev_map : gmap string string)
    (caps_devices : gmap string CapType) (iv : string) : bool :=
  match Re.TRIG_ATOM_RE_match iv with
  | Some (dev, attr, _, _) =>
      match dev_map !! dev with
      | Some dtype =>
          match caps_devices !! dtype with
          | Some ct => negb (has (attributes ct) attr)
          | None => true
          end
      | None => false
      end
  | None => false
  end.

(** ** Notions for the tokens of an expression *)

(** The characters of a text that are not white space. *)
Fixpoint squash (s : string) : string :=
  match s with
  | EmptyString => EmptyString
  | String c s' => if Py.is_space c then squash s' else String c (squash s')
  end.

(** The tokens written one after the other. *)
Definition glue (toks : list string) : string :=
  fold_right String.append EmptyString toks.

(** ** Notions for the ids of the generated model *)

(** The [xmi:id] that a line declares. *)
Definition line_id (l : Uml.Line) : option string :=
  match l with
  | Uml.Subvertex _ id _ => Some id
  | Uml.TransitionEl id _ _ => Some id
  | Uml.StereoOpen _ id _ _ => Some id
  | Uml.StereoChild _ _ => None
  | Uml.StereoClose _ => None
  end.

(** The ids that the three sections declare, in the order of the lines. *)
Definition xmi_ids (secs : Uml.Sections) : list string :=
  omap line_id
    (Uml.state_xml secs ++ Uml.trans_xml secs ++ Uml.stereo_xml secs).

(** A text without a double quote. *)
Definition quote_free (s : string) : bool :=
  all_in (fun c => negb (Py.is_quote c)) s.

(** The text before the next double quote. *)
Fixpoint until_quote (s : string) : option string :=
  match s with
  | EmptyString => None
  | String c s' =>
      if Py.is_quote c then Some EmptyString
      else String c <$> until_quote s'
  end.

(** The value of the attribute [xmi:id] of a written line, as a reader of
    the file finds it: the text between the first [xmi:id=] of the line
    with its opening double quote, after a space, and the double quote that
    follows. *)
Fixpoint written_id (s : string) : option string :=
  match s with
  | EmptyString => None
  | String _ s' =>
      match Re.lit (Py.dq " xmi:id='") s with
      | Some rest => until_quote rest
      | None => written_id s'
      end
  end.

(** Two states whose ids differ after a double quote. *)
Definition quoted_states : list State :=
  [ {| st_id := Some (Py.dq "a' x='1"); st_invariants := Absent |};
    {| st_id := Some (Py.dq "a' y='2"); st_invariants := Absent |} ].

(** The number that a text of decimal digits writes, read after [v]. *)
Fixpoint dec (v : nat) (s : string) : nat :=
  match s with
  | EmptyString => v
  | String c s' => dec (10 * v + (nat_of_ascii c - 48)) s'
  end.

(** The first two characters of a text. *)
Definition head2 (s : string) : option (ascii * ascii) :=
  match s with
  | String a (String b _) => Some (a, b)
  | _ => None
  end.

(** Scenario A with [null] for the attributes of its device. *)
Definition switch1_null : Device :=
  {| d_id := Some "switch1"; d_type := Some "switch";
     d_attributes := NotAList None |}.

Definition spec_null_attributes : Spec :=
  {| bundle_name := bundle_name spec_A;
     devices := Items [switch1_null];
     states := states spec_A;
     transitions := transitions spec_A;
     notes := notes spec_A |}.

(** Scenario A with a value of [devices] that is not a list. *)
Definition spec_devices_not_a_list : Spec :=
  {| bundle_name := bundle_name spec_A;
     devices := NotAList None;
     states := states spec_A;
     transitions := transitions spec_A;
     notes := notes spec_A |}.

(** * Properties *)

(** ** The model on small inputs *)

Example strip_ex : Py.strip "  a b	" = "a b".
Proof. reflexivity. Qed.

Example str_nat_ex : map Py.str_nat [0; 7; 10; 123] = ["0"; "7"; "10"; "123"].
Proof. reflexivity. Qed.

Example sorted_set_ex : Py.sorted_set ["on"; "off"; "on"] = ["off"; "on"].
Proof. reflexivity. Qed.

Example repr_list_ex : Py.repr_list ["off"; "on"] = "['off', 'on']".
Proof. reflexivity. Qed.

Example atom_match_ex :
  Re.TRIG_ATOM_RE_match (Py.dq "  switch1.power   !=  'o ff'  ") =
    Some ("switch1", "power", "!=", "o ff").
Proof. reflexivity. Qed.

Example atom_no_match_ex :
  Re.TRIG_ATOM_RE_match (Py.dq "switch1 .power == 'off'") = None.
Proof. reflexivity. Qed.

Example action_match_ex :
  Re.ACTION_RE_match " switch1.toggle() " = Some ("switch1", "toggle").
Proof. reflexivity. Qed.

Example split_bool_docstring_ex :
  split_bool "a && b || c" ["&&"; "||"] = ["a"; "&&"; "b"; "||"; "c"].
Proof. reflexivity. Qed.

Example split_bool_three_bars_ex :
  split_bool "a|||" ["&&"; "||"] = ["a"; "||"; "|"].
Proof. reflexivity. Qed.

(** Scenario B: one message, with the value and the sorted allowed set. *)
Example scenario_B_ex :
  map message
    (emitted (validate_trigger (Py.dq "switch1.power == 'maybe'")
                dev_map_A caps_devices_A ["&&"; "||"] ["=="; "!="])) =
    ["Invalid value maybe for switch1.power; allowed=['off', 'on']"].
Proof. reflexivity. Qed.

Example normalize_expr_ex :
  Uml.normalize_expr (Py.dq "presenceSensor.presence  == 'notpresent'") =
    Py.dq "presenceSensor.presence  == 'not present'".
Proof. reflexivity. Qed.

(** ** The monad *)

Section Writes.

Context (P : Diag -> Prop).

Lemma writes_ret {A} (a : A) : writes P (ret a).
Proof.
  split; [intros errs | constructor].
  unfold ret, outcome, emitted. simpl. by rewrite app_nil_r.
Qed.

Lemma writes_raise {A} (e : exn) : writes P (@raise A e).
Proof.
  split; [intros errs | constructor].
  unfold raise, outcome, emitted. simpl. by rewrite app_nil_r.
Qed.

Lemma writes_err (e : Diag) : P e -> writes P (err e).
Proof.
  intros He. split; [intros errs; reflexivity |].
  unfold emitted, err. simpl. by repeat constructor.
Qed.

Lemma writes_err_if (c : bool) (e : Diag) : P e -> writes P (err_if c e).
Proof.
  intros He. destruct c; [by apply writes_err | apply writes_ret].
Qed.

Lemma writes_getitem {V} (d : gmap string V) (k : string) :
  writes P (getitem d k).
Proof.
  unfold getitem. destruct (d !! k); [apply writes_ret | apply writes_raise].
Qed.

Lemma writes_iterate (x : section_ string) : writes P (iterate x).
Proof.
  unfold iterate. destruct (items_of x); [apply writes_ret | apply writes_raise].
Qed.

Lemma writes_bind {A B} (m : M A) (k : A -> M B) :
  writes P m -> (forall a, writes P (k a)) -> writes P (bind m k).
Proof.
  intros [Hm HPm] Hk.
  assert (Heq : forall errs,
    bind m k errs =
      (match outcome m with Ret a => outcome (k a) | Raise e => Raise e end,
       errs ++ emitted m ++
         match outcome m with Ret a => emitted (k a) | Raise _ => [] end)).
  { intros errs. unfold bind. rewrite (Hm errs).
    destruct (outcome m) as [a | e].
    - destruct (Hk a) as [Hka _]. rewrite (Hka (errs ++ emitted m)).
      by rewrite <- app_assoc.
    - by rewrite app_nil_r. }
  split.
  - intros errs. rewrite (Heq errs). unfold outcome, emitted.
    rewrite (Heq []). simpl. reflexivity.
  - unfold emitted at 1. rewrite (Heq []). simpl.
    apply Forall_app. split; [exact HPm |].
    destruct (outcome m) as [a | e]; [apply (Hk a) | constructor].
Qed.

Lemma writes_for_fold {A S} (xs : list A) (s : S) (body : S -> A -> M S) :
  (forall s x, writes P (body s x)) -> writes P (for_fold xs s body).
Proof.
  intros Hbody. revert s.
  induction xs as [| x xs IH]; intros s; simpl.
  - apply writes_ret.
  - apply writes_bind; [apply Hbody | intros s'; apply IH].
Qed.

Lemma writes_for_each {A} (xs : list A) (body : A -> M unit) :
  (forall x, writes P (body x)) -> writes P (for_each xs body).
Proof. intros Hbody. apply writes_for_fold. intros _ x. apply Hbody. Qed.

End Writes.

Lemma writes_weaken (P Q : Diag -> Prop) {A} (m : M A) :
  (forall e, P e -> Q e) -> writes P m -> writes Q m.
Proof.
  intros HPQ [Hm HP]. split; [exact Hm |].
  eapply Forall_impl; eauto.
Qed.

Lemma run_writes (P : Diag -> Prop) {A} (m : M A) (errs : list Diag) :
  writes P m -> m errs = (outcome m, errs ++ emitted m).
Proof. intros [Hm _]. apply Hm. Qed.

Lemma outcome_bind {A B} (m : M A) (k : A -> M B) :
  writes (fun _ => True) m -> (forall a, writes (fun _ => True) (k a)) ->
  outcome (bind m k) =
    match outcome m with Ret a => outcome (k a) | Raise e => Raise e end.
Proof.
  intros Hm Hk. unfold outcome at 1, bind.
  rewrite (run_writes _ m [] Hm). simpl.
  destruct (outcome m) as [a | e]; simpl; [| reflexivity].
  by rewrite (run_writes _ (k a) (emitted m) (Hk a)).
Qed.

Lemma emitted_bind {A B} (m : M A) (k : A -> M B) :
  writes (fun _ => True) m -> (forall a, writes (fun _ => True) (k a)) ->
  emitted (bind m k) =
    emitted m ++ match outcome m with Ret a => emitted (k a) | Raise _ => [] end.
Proof.
  intros Hm Hk. unfold emitted at 1, bind.
  rewrite (run_writes _ m [] Hm). simpl.
  destruct (outcome m) as [a | e]; simpl.
  - by rewrite (run_writes _ (k a) (emitted m) (Hk a)).
  - by rewrite app_nil_r.
Qed.

(** A loop records the messages of its items one item after the other. *)
Lemma emitted_for_fold {A S} (xs : list A) (s : S) (body : S -> A -> M S) :
  (forall s x, writes (fun _ => True) (body s x)) ->
  emitted (for_fold xs s body) = List.concat (per_item xs s body).
Proof.
  intros Hbody. revert s.
  induction xs as [| x xs IH]; intros s; simpl; [reflexivity |].
  rewrite emitted_bind; [| apply Hbody |].
  - destruct (outcome (body s x)); simpl; [by rewrite IH | reflexivity].
  - intros s'. by apply writes_for_fold.
Qed.

(** ** Every check only appends to [ERRS] *)

Ltac writes_step :=
  match goal with
  | |- writes _ (bind _ _) => apply writes_bind; [| intros ?]
  | |- writes _ (ret _) => apply writes_ret
  | |- writes _ (raise _) => apply writes_raise
  | |- writes _ (err _) => apply writes_err; done
  | |- writes _ (err_if _ _) => apply writes_err_if; done
  | |- writes _ (getitem _ _) => apply writes_getitem
  | |- writes _ (iterate _) => apply writes_iterate
  | |- writes _ (for_each _ _) => apply writes_for_each; intros ?
  | |- writes _ (for_fold _ _ _) => apply writes_for_fold; intros ? ?
  | |- writes _ (if ?c then _ else _) => destruct c
  | |- writes _ (match ?x with _ => _ end) => destruct x
  end.

Ltac writes_auto := repeat (simpl; writes_step).

Lemma check_keys_writes spec : writes (in_phase TopLevel) (check_keys spec).
Proof. unfold check_keys, in_phase. writes_auto. Qed.

Lemma validate_device_writes cd dev_map d :
  writes (in_phase DeviceCheck) (validate_device cd dev_map d).
Proof. unfold validate_device, in_phase. writes_auto. Qed.

Lemma required_check_writes dev_map must :
  writes (in_phase DeviceCheck) (required_check dev_map must).
Proof. unfold required_check, in_phase. writes_auto. Qed.

Lemma validate_devices_writes spec caps_root :
  writes (in_phase DeviceCheck) (validate_devices spec caps_root).
Proof.
  unfold validate_devices.
  destruct (devices spec) as [| | ds];
    [unfold in_phase; writes_auto | unfold in_phase; writes_auto |].
  apply writes_bind.
  - apply writes_for_fold. intros. apply validate_device_writes.
  - intros dm. apply writes_bind; [| intros; apply writes_ret].
    apply writes_for_each. intros. apply required_check_writes.
Qed.

Lemma validate_atom_writes atom dev_map cd ops :
  writes (in_phase TransitionCheck) (validate_atom atom dev_map cd ops).
Proof.
  unfold validate_atom, in_phase.
  destruct (Re.TRIG_ATOM_RE_match atom) as [[[[dev attr] op] val] |];
    writes_auto.
Qed.

Lemma trigger_step_writes dev_map cd bool_ops ops b tok :
  writes (in_phase TransitionCheck) (trigger_step dev_map cd bool_ops ops b tok).
Proof.
  unfold trigger_step. destruct b.
  - apply writes_bind; [apply validate_atom_writes | intros; apply writes_ret].
  - unfold in_phase. writes_auto.
Qed.

Lemma validate_trigger_writes expr dev_map cd bool_ops ops :
  writes (in_phase TransitionCheck)
    (validate_trigger expr dev_map cd bool_ops ops).
Proof.
  unfold validate_trigger. apply writes_bind.
  - apply writes_for_fold. intros. apply trigger_step_writes.
  - intros b. apply writes_err_if. reflexivity.
Qed.

Lemma validate_action_writes act dev_map cd :
  writes (in_phase TransitionCheck) (validate_action act dev_map cd).
Proof.
  unfold validate_action, in_phase.
  destruct (Re.ACTION_RE_match act) as [[dev cmd] |]; writes_auto.
Qed.

Lemma check_invariant_writes dev_map cd ops sid iv :
  writes (in_phase StateCheck) (check_invariant dev_map cd ops sid iv).
Proof.
  unfold check_invariant, in_phase.
  destruct (Re.TRIG_ATOM_RE_match iv) as [[[[dev attr] op] val] |];
    writes_auto.
Qed.

Lemma check_state_writes dev_map cd ops ids st :
  writes (in_phase StateCheck) (check_state dev_map cd ops ids st).
Proof.
  unfold check_state.
  destruct (st_id st) as [sid |]; [| unfold in_phase; writes_auto].
  apply writes_bind; [apply writes_err_if; reflexivity | intros _].
  destruct (st_invariants st) as [| | invs];
    [unfold in_phase; writes_auto | unfold in_phase; writes_auto |].
  apply writes_bind; [| intros; apply writes_ret].
  apply writes_for_each. intros. apply check_invariant_writes.
Qed.

Lemma check_states_writes spec dev_map cd ops :
  writes (in_phase StateCheck) (check_states spec dev_map cd ops).
Proof.
  unfold check_states. destruct (states spec); try apply writes_ret.
  apply writes_for_fold. intros. apply check_state_writes.
Qed.

Lemma check_transition_writes dev_map cd bool_ops ops ids itr :
  writes (in_phase TransitionCheck)
    (check_transition dev_map cd bool_ops ops ids itr).
Proof.
  unfold check_transition. destruct itr as [i tr].
  apply writes_bind.
  { apply writes_for_each. intros. apply writes_err_if. reflexivity. }
  intros _. apply writes_bind; [apply writes_err_if; reflexivity | intros _].
  apply writes_bind; [apply writes_err_if; reflexivity | intros _].
  apply writes_bind; [apply validate_trigger_writes | intros _].
  apply validate_action_writes.
Qed.

Lemma check_transitions_writes spec dev_map cd bool_ops ops ids :
  writes (in_phase TransitionCheck)
    (check_transitions spec dev_map cd bool_ops ops ids).
Proof.
  unfold check_transitions. destruct (transitions spec); try apply writes_ret.
  apply writes_for_each. intros. apply check_transition_writes.
Qed.

Lemma writes_any (p : Phase) {A} (m : M A) :
  writes (in_phase p) m -> writes (fun _ => True) m.
Proof. apply writes_weaken. done. Qed.

Lemma main_checks_writes spec caps_root :
  writes (fun _ => True) (main_checks spec caps_root).
Proof.
  unfold main_checks.
  apply writes_bind; [eapply writes_any, check_keys_writes | intros _].
  apply writes_bind; [eapply writes_any, validate_devices_writes |].
  intros [dm cd].
  apply writes_bind; [eapply writes_any, check_states_writes | intros ids].
  eapply writes_any, check_transitions_writes.
Qed.

(** ** Scenario A *)

(** C1, as stated, fails: on the bundle of scenario A the validator records
    messages and the report is not [OK]. *)
Lemma scenario_A_is_not_ok :
  ~ (emitted (main_checks spec_A caps_A) = [] /\
     outcome (main spec_A caps_A) = Ret {| stdout := ["OK"]; status := 0 |}).
Proof. intros [H _]. vm_compute in H. discriminate H. Qed.

(** C1, amended: on the bundle of scenario A the validator records the
    three messages of the required devices and no other, prints them and
    exits with status 1; with the three required devices declared as well,
    nothing is recorded and the report is [OK] with status 0. *)
Theorem scenario_A_required_devices :
  main spec_A caps_A [] =
    (Ret {| stdout := ["- Required device missing: presenceSensor";
                       "- Required device missing: motionSensor";
                       "- Required device missing: switch"];
            status := 1 |},
     [RequiredDeviceMissing "presenceSensor";
      RequiredDeviceMissing "motionSensor";
      RequiredDeviceMissing "switch"]) /\
  main spec_A_full caps_A [] = (Ret {| stdout := ["OK"]; status := 0 |}, []).
Proof. split; vm_compute; reflexivity. Qed.

(** ** Exceptions *)

(** C2: an invariant with a known device and an attribute that the type of
    the device does not have records the message of the unknown attribute
    and then raises [KeyError] at the look-up of the allowed values: the run
    ends with the exception and prints no report. *)
Theorem unknown_attribute_invariant_raises :
  main spec_unknown_attribute caps_A [] =
    (Raise (KeyError "colour"), [UnknownAttributeInv "switch1" "colour"]).
Proof. vm_compute. reflexivity. Qed.

(** ** The accumulator *)

(** C5, as stated, fails: the second of two runs on scenario A prints the
    messages of the first run before its own. *)
Lemma second_run_repeats_first :
  ~ (forall spec caps_root,
       (two_runs spec caps_root).2 = (two_runs spec caps_root).1).
Proof.
  intros H. specialize (H spec_A caps_A). vm_compute in H. discriminate H.
Qed.

(** C5, amended: [ERRS] is one list for the whole process.  A run that
    starts with [errs0] in [ERRS] leaves [errs0] followed by the messages of
    its own bundle, and reports on all of them; only a run that starts with
    an empty [ERRS], as the first run of a process does, reports the messages
    of its bundle alone. *)
Theorem errs_accumulate_across_runs (spec : Spec) (caps_root : Caps)
    (errs0 : list Diag) :
  main spec caps_root errs0 =
    (match outcome (main_checks spec caps_root) with
     | Ret _ => Ret (report (errs0 ++ emitted (main_checks spec caps_root)))
     | Raise e => Raise e
     end,
     errs0 ++ emitted (main_checks spec caps_root)).
Proof.
  unfold main, bind.
  rewrite (run_writes _ _ errs0 (main_checks_writes spec caps_root)).
  destruct (outcome (main_checks spec caps_root)); reflexivity.
Qed.

(** ** The order of the messages *)

Lemma emitted_for_each {A} (xs : list A) (body : A -> M unit) :
  (forall x, writes (fun _ => True) (body x)) ->
  emitted (for_each xs body) = List.concat (per_item xs tt (fun _ => body)).
Proof. intros Hb. unfold for_each. by apply emitted_for_fold. Qed.

Lemma outcome_err_if (c : bool) (e : Diag) : outcome (err_if c e) = Ret tt.
Proof. destruct c; reflexivity. Qed.

(** A loop whose body never raises does not raise. *)
Lemma outcome_for_each {A} (xs : list A) (body : A -> M unit) :
  (forall x, writes (fun _ => True) (body x)) ->
  (forall x, outcome (body x) = Ret tt) ->
  outcome (for_each xs body) = Ret tt.
Proof.
  intros Hw Hb. unfold for_each.
  induction xs as [| x xs IH]; simpl; [reflexivity |].
  rewrite outcome_bind;
    [| apply Hw | intros; apply writes_for_fold; intros; apply Hw].
  rewrite Hb. exact IH.
Qed.

Lemma emitted_bind_ret {A B} (m : M A) (f : A -> B) :
  writes (fun _ => True) m ->
  emitted (bind m (fun a => ret (f a))) = emitted m.
Proof.
  intros Hm. rewrite emitted_bind; [| exact Hm | intros; apply writes_ret].
  destruct (outcome m); simpl; by rewrite app_nil_r.
Qed.

Lemma device_messages_spec spec caps_root :
  emitted (validate_devices spec caps_root) = device_messages spec caps_root.
Proof.
  unfold validate_devices, device_messages.
  destruct (devices spec) as [| | ds]; [reflexivity | reflexivity |].
  assert (Hreq : forall dm,
            writes (fun _ => True) (for_each required_devices (required_check dm))).
  { intros dm. apply writes_for_each. intros.
    eapply writes_any, required_check_writes. }
  rewrite emitted_bind.
  - rewrite emitted_for_fold
      by (intros; eapply writes_any, validate_device_writes).
    f_equal. destruct (outcome _) as [dm | e]; [| reflexivity].
    rewrite (emitted_bind_ret _ (fun _ => (dm, _))) by apply Hreq.
    apply emitted_for_each. intros.
    eapply writes_any, required_check_writes.
  - apply writes_for_fold. intros. eapply writes_any, validate_device_writes.
  - intros dm. apply writes_bind; [apply Hreq | intros; apply writes_ret].
Qed.






(** ** The tokenizer *)

Lemma prefix_nil (s : string) : prefix EmptyString s = true.
Proof. destruct s; reflexivity. Qed.

Lemma prefix_cons (a b : ascii) (p s : string) :
  prefix (String a p) (String b s) = Ascii.eqb b a && prefix p s.
Proof.
  change (prefix (String a p) (String b s))
    with (match ascii_dec a b with left _ => prefix p s | right _ => false end).
  destruct (ascii_dec a b) as [<- | Hab].
  - by rewrite Ascii.eqb_refl.
  - apply Ascii.eqb_neq in Hab. rewrite Ascii.eqb_sym in Hab. by rewrite Hab.
Qed.

Lemma starts_conn_cons (c c2 : ascii) (r : string) :
  starts_conn (String c (String c2 r)) =
    (Ascii.eqb c "&" && Ascii.eqb c2 "&") || (Ascii.eqb c "|" && Ascii.eqb c2 "|").
Proof.
  unfold starts_conn, Py.startswith.
  rewrite !prefix_cons, !prefix_nil, !andb_true_r. reflexivity.
Qed.

Lemma starts_conn_single (c : ascii) :
  starts_conn (String c EmptyString) = false.
Proof.
  unfold starts_conn, Py.startswith. rewrite !prefix_cons.
  change (prefix "&" EmptyString) with false.
  change (prefix "|" EmptyString) with false.
  by rewrite !andb_false_r.
Qed.

Lemma space_not_amp (c : ascii) : Py.is_space c = true -> Ascii.eqb c "&" = false.
Proof.
  destruct c as [[] [] [] [] [] [] [] []]; vm_compute;
    intros H; first [discriminate H | reflexivity].
Qed.

Lemma space_not_bar (c : ascii) : Py.is_space c = true -> Ascii.eqb c "|" = false.
Proof.
  destruct c as [[] [] [] [] [] [] [] []]; vm_compute;
    intros H; first [discriminate H | reflexivity].
Qed.

Lemma starts_conn_space (c : ascii) (r : string) :
  Py.is_space c = true -> starts_conn (String c r) = false.
Proof.
  intros Hc. destruct r as [| c2 r]; [apply starts_conn_single |].
  rewrite starts_conn_cons, (space_not_amp c Hc), (space_not_bar c Hc).
  reflexivity.
Qed.

Lemma append_cons (c : ascii) (a b : string) :
  String c a +:+ b = String c (a +:+ b).
Proof. reflexivity. Qed.

Lemma append_nil_l (s : string) : EmptyString +:+ s = s.
Proof. reflexivity. Qed.

Lemma append_nil_r (s : string) : s +:+ EmptyString = s.
Proof.
  induction s as [| c s IH]; [reflexivity |].
  by rewrite append_cons, IH.
Qed.

Lemma append_assoc (a b c : string) : (a +:+ b) +:+ c = a +:+ (b +:+ c).
Proof.
  induction a as [| x a IH]; [reflexivity |].
  by rewrite !append_cons, IH.
Qed.

Lemma split_loop_step (c : ascii) (rest buf : string) (toks : list string) :
  starts_conn (String c rest) = false ->
  split_loop (String c rest) buf toks =
    split_loop rest (buf +:+ String c EmptyString) toks.
Proof.
  intros H. unfold starts_conn in H.
  cbn [split_loop]. by rewrite H.
Qed.

(** The scan takes a quiet text into the buffer as it is. *)
Lemma split_loop_quiet (a rest buf : string) (toks : list string) :
  quiet a rest = true ->
  split_loop (a +:+ rest) buf toks = split_loop rest (buf +:+ a) toks.
Proof.
  revert buf. induction a as [| c a IH]; intros buf Hq.
  - simpl. by rewrite append_nil_r.
  - simpl in Hq. apply andb_true_iff in Hq as [Hc Hq].
    apply negb_true_iff in Hc.
    change (String c a +:+ rest) with (String c (a +:+ rest)) in *.
    rewrite split_loop_step by exact Hc.
    rewrite IH by exact Hq.
    by rewrite append_assoc.
Qed.

Lemma blank_quiet (w rest : string) : blank w = true -> quiet w rest = true.
Proof.
  induction w as [| c w IH]; simpl; [reflexivity |].
  intros H. apply andb_true_iff in H as [Hc Hw].
  rewrite IH by exact Hw.
  change (String c w +:+ rest) with (String c (w +:+ rest)).
  by rewrite starts_conn_space.
Qed.

Lemma lstrip_blank (w : string) : blank w = true -> Py.lstrip w = EmptyString.
Proof.
  induction w as [| c w IH]; simpl; [reflexivity |].
  intros H. apply andb_true_iff in H as [Hc Hw]. rewrite Hc. by apply IH.
Qed.

Lemma strip_blank (w : string) : blank w = true -> Py.strip w = EmptyString.
Proof. intros H. unfold Py.strip. by rewrite lstrip_blank. Qed.

(** A text of white space has no token. *)
Lemma split_bool_blank (w : string) (bool_ops : list string) :
  blank w = true -> split_bool w bool_ops = [].
Proof.
  intros Hw. unfold split_bool.
  pose proof (split_loop_quiet w EmptyString EmptyString [] (blank_quiet _ _ Hw))
    as H.
  rewrite append_nil_r in H. rewrite H. simpl.
  by rewrite strip_blank.
Qed.

(** C9: a trigger text that is empty or white space only has no token, so
    the trigger check records nothing and does not raise, whatever the
    devices, the schema and the operators are. *)
Theorem blank_trigger_is_accepted (expr : string)
    (dev_map : gmap string string) (caps_devices : gmap string CapType)
    (bool_ops ops : list string) (errs : list Diag) :
  blank expr = true ->
  split_bool expr bool_ops = [] /\
  validate_trigger expr dev_map caps_devices bool_ops ops errs = (Ret tt, errs).
Proof.
  intros Hb. split; [by apply split_bool_blank |].
  unfold validate_trigger. rewrite split_bool_blank by exact Hb.
  reflexivity.
Qed.

(** The check of a trigger of two spaces, a tab and a space leaves [ERRS]
    as it was. *)
Lemma blank_trigger_is_accepted_witness :
  blank "  	 " = true /\
  validate_trigger "  	 " ∅ ∅ ["&&"; "||"] ["=="] [MissingDevices] =
    (Ret tt, [MissingDevices]).
Proof.
  split; [reflexivity |].
  apply (blank_trigger_is_accepted "  	 " ∅ ∅ ["&&"; "||"] ["=="]
           [MissingDevices]).
  reflexivity.
Defined.

Lemma quiet_snoc (buf rest : string) (c : ascii) :
  quiet buf (String c rest) = true ->
  starts_conn (String c rest) = false ->
  quiet (buf +:+ String c EmptyString) rest = true.
Proof.
  intros Hq Hc. induction buf as [| d buf IH].
  - rewrite append_nil_l. cbn [quiet]. rewrite append_cons, append_nil_l, Hc.
    reflexivity.
  - cbn [quiet] in Hq. apply andb_true_iff in Hq as [Hd Hq].
    rewrite append_cons. cbn [quiet].
    rewrite append_cons, append_assoc. rewrite append_cons in Hd.
    change (String c EmptyString +:+ rest) with (String c rest).
    rewrite Hd. by apply IH.
Qed.

Lemma conn_of_starts (c c2 : ascii) (r : string) :
  starts_conn (String c (String c2 r)) = true ->
  is_conn (String c (String c2 EmptyString)).
Proof.
  rewrite starts_conn_cons. intros H.
  apply orb_true_iff in H as [H | H];
    apply andb_true_iff in H as [H1 H2];
    apply Ascii.eqb_eq in H1, H2; subst; [by left | by right].
Qed.

(** The invariant of the scan: the tokens are pairs, and no connective
    starts inside the buffer. *)
Lemma split_loop_inv (expr buf : string) (toks : list string) :
  paired toks -> quiet buf expr = true ->
  paired (split_loop expr buf toks).1 /\
  quiet (split_loop expr buf toks).2 EmptyString = true.
Proof.
  remember (String.length expr) as n eqn:Hn.
  revert expr Hn buf toks.
  induction n as [n IH] using lt_wf_ind.
  intros expr Hn buf toks Hp Hq.
  destruct expr as [| c rest]; [by split |].
  destruct (starts_conn (String c rest)) eqn:Hc.
  - destruct rest as [| c2 rest2].
    + by rewrite starts_conn_single in Hc.
    + cbn [split_loop]. unfold starts_conn in Hc. rewrite Hc.
      apply (IH (String.length rest2)).
      * subst n. simpl. lia.
      * reflexivity.
      * constructor; [exact Hp |]. eapply conn_of_starts. exact Hc.
      * reflexivity.
  - rewrite split_loop_step by exact Hc.
    apply (IH (String.length rest)).
    + subst n. simpl. lia.
    + reflexivity.
    + exact Hp.
    + by apply quiet_snoc.
Qed.

Lemma quiet_lstrip (s : string) :
  quiet s EmptyString = true -> quiet (Py.lstrip s) EmptyString = true.
Proof.
  induction s as [| c s IH]; [done |].
  intros Hq. cbn [Py.lstrip]. destruct (Py.is_space c); [| exact Hq].
  apply IH. simpl in Hq. by apply andb_true_iff in Hq as [_ Hq].
Qed.

Lemma rstrip_two (s : string) (a b : ascii) :
  Py.rstrip s = String a (String b EmptyString) ->
  exists w, s = String a (String b w).
Proof.
  destruct s as [| c s]; [discriminate |].
  cbn [Py.rstrip]. destruct (Py.rstrip s) as [| r1 r] eqn:Hr.
  - destruct (Py.is_space c); discriminate.
  - intros H. injection H as -> -> ->.
    destruct s as [| d s]; [discriminate |].
    cbn [Py.rstrip] in Hr. destruct (Py.rstrip s) as [| r2 r'].
    + destruct (Py.is_space d); [discriminate |].
      injection Hr as ->. by eexists.
    + discriminate.
Qed.

(** A buffer in which no connective starts is not flushed as a connective. *)
Lemma strip_not_conn (buf : string) :
  quiet buf EmptyString = true -> ~ is_conn (Py.strip buf).
Proof.
  intros Hq Hc. apply quiet_lstrip in Hq. unfold Py.strip in Hc.
  destruct Hc as [Hc | Hc]; apply rstrip_two in Hc as [w Hw];
    rewrite Hw in Hq; cbn [quiet] in Hq;
    rewrite !append_cons, starts_conn_cons in Hq; discriminate Hq.
Qed.

(** The tokens of an expression: pairs of a text and a connective, and then
    the last text when it is not empty; the last text is no connective. *)
Lemma split_bool_shape (expr : string) (bool_ops : list string) :
  paired (split_bool expr bool_ops) \/
  exists toks a, split_bool expr bool_ops = toks ++ [a] /\ paired toks /\
                 ~ is_conn a.
Proof.
  unfold split_bool.
  destruct (split_loop_inv expr EmptyString [] paired_nil eq_refl) as [Hp Hq].
  destruct (split_loop expr EmptyString []) as [toks buf]. simpl in Hp, Hq.
  destruct (Py.truthy (Py.strip buf)); [right | by left].
  exists toks, (Py.strip buf). split; [done |]. split; [done |].
  by apply strip_not_conn.
Qed.


(** ** The walk over the tokens *)

Lemma has_true {V} (d : gmap string V) (k : string) :
  has d k = true -> exists v, d !! k = Some v.
Proof. unfold has. intros H. by apply bool_decide_eq_true in H as [v Hv]; eauto. Qed.

Lemma has_false {V} (d : gmap string V) (k : string) :
  has d k = false -> d !! k = None.
Proof.
  unfold has. intros H. apply bool_decide_eq_false in H.
  destruct (d !! k) eqn:E; [| reflexivity]. exfalso. apply H. eauto.
Qed.

Lemma bind_getitem {V B} (d : gmap string V) (k : string) (v : V)
    (f : V -> M B) (errs : list Diag) :
  d !! k = Some v -> bind (getitem d k) f errs = f v errs.
Proof. intros H. unfold bind, getitem. by rewrite H. Qed.

Lemma bind_err_if {B} (c : bool) (e : Diag) (f : unit -> M B)
    (errs : list Diag) :
  bind (err_if c e) f errs = f tt (if c then errs ++ [e] else errs).
Proof. destruct c; reflexivity. Qed.

(** With a consistent device map the check of an atom does not raise. *)
Lemma validate_atom_returns atom dev_map cd ops :
  consistent dev_map cd -> outcome (validate_atom atom dev_map cd ops) = Ret tt.
Proof.
  intros Hcons. unfold validate_atom.
  destruct (Re.TRIG_ATOM_RE_match atom) as [[[[dev attr] op] val] |];
    [| reflexivity].
  destruct (has dev_map dev) eqn:Hdev; [| reflexivity].
  apply has_true in Hdev as [dtype Hdt].
  destruct (Hcons dev dtype Hdt) as [ct Hct].
  unfold outcome. cbn [negb].
  rewrite (bind_getitem _ _ _ _ _ Hdt), (bind_getitem _ _ _ _ _ Hct).
  destruct (has (attributes ct) attr) eqn:Hattr; [| reflexivity].
  apply has_true in Hattr as [vals Hvals]. cbn [negb].
  rewrite bind_err_if, (bind_getitem _ _ _ _ _ Hct),
    (bind_getitem _ _ _ _ _ Hvals).
  destruct (negb (Py.mem val vals)); reflexivity.
Qed.

Lemma trigger_step_returns dev_map cd bool_ops ops b tok :
  consistent dev_map cd ->
  outcome (trigger_step dev_map cd bool_ops ops b tok) = Ret (negb b).
Proof.
  intros Hcons. unfold trigger_step. destruct b.
  - rewrite outcome_bind;
      [| eapply writes_any, validate_atom_writes | intros; apply writes_ret].
    by rewrite validate_atom_returns.
  - rewrite outcome_bind;
      [| apply writes_err_if; done | intros; apply writes_ret].
    by rewrite outcome_err_if.
Qed.

Lemma for_fold_app {A S} (xs ys : list A) (s : S) (body : S -> A -> M S)
    (errs : list Diag) :
  for_fold (xs ++ ys) s body errs =
    bind (for_fold xs s body) (fun s' => for_fold ys s' body) errs.
Proof.
  revert s errs. induction xs as [| x xs IH]; intros s errs; [reflexivity |].
  simpl. unfold bind.
  destruct (body s x errs) as [[s' | e] errs']; [| reflexivity].
  rewrite IH. reflexivity.
Qed.

Section Walk.

Context (dev_map : gmap string string) (cd : gmap string CapType)
        (bool_ops ops : list string).
Hypothesis Hcons : consistent dev_map cd.

Local Abbreviation step := (trigger_step dev_map cd bool_ops ops).

Lemma step_writes b tok : writes (fun _ => True) (step b tok).
Proof. eapply writes_any, trigger_step_writes. Qed.

Lemma walk_writes toks b : writes (fun _ => True) (for_fold toks b step).
Proof. apply writes_for_fold. intros. apply step_writes. Qed.

Lemma walk_app_outcome xs ys b :
  outcome (for_fold (xs ++ ys) b step) =
    match outcome (for_fold xs b step) with
    | Ret b' => outcome (for_fold ys b' step)
    | Raise e => Raise e
    end.
Proof.
  unfold outcome at 1. rewrite for_fold_app.
  apply (outcome_bind (for_fold xs b step) (fun b' => for_fold ys b' step));
    [apply walk_writes | intros; apply walk_writes].
Qed.

Lemma walk_app_emitted xs ys b :
  emitted (for_fold (xs ++ ys) b step) =
    emitted (for_fold xs b step) ++
    match outcome (for_fold xs b step) with
    | Ret b' => emitted (for_fold ys b' step)
    | Raise _ => []
    end.
Proof.
  unfold emitted at 1. rewrite for_fold_app.
  apply (emitted_bind (for_fold xs b step) (fun b' => for_fold ys b' step));
    [apply walk_writes | intros; apply walk_writes].
Qed.



End Walk.




(** ** Expressions that end with a connective *)


(** The device map of scenario A names the type of the schema. *)
Lemma consistent_A : consistent dev_map_A caps_devices_A.
Proof.
  apply map_Forall_singleton. exists switch_type. reflexivity.
Qed.


(** ** Two connectives in a row *)

Lemma quiet_head (a r r' : string) (c : ascii) :
  quiet a (String c r) = quiet a (String c r').
Proof.
  induction a as [| x a IH]; [reflexivity |].
  cbn [quiet]. rewrite IH. f_equal. f_equal.
  rewrite !append_cons. destruct a as [| y a].
  - rewrite !append_nil_l. by rewrite !starts_conn_cons.
  - rewrite !append_cons. by rewrite !starts_conn_cons.
Qed.

Lemma split_loop_bars (rest buf : string) (toks : list string) :
  split_loop ("||" +:+ rest) buf toks =
    split_loop rest EmptyString (toks ++ [Py.strip buf; "||"]).
Proof.
  change ("||" +:+ rest) with (String "|" (String "|" rest)).
  cbn [split_loop].
  assert (H : starts_conn (String "|" (String "|" rest)) = true)
    by (by rewrite starts_conn_cons).
  unfold starts_conn in H. by rewrite H.
Qed.

Lemma run_silent {A} (P : Diag -> Prop) (m : M A) (a : A)
    (errs : list Diag) :
  writes P m -> m [] = (Ret a, []) -> m errs = (Ret a, errs).
Proof.
  intros Hw H. rewrite (run_writes P m errs Hw).
  unfold outcome, emitted. rewrite H. simpl. by rewrite app_nil_r.
Qed.

Lemma bind_run {A B} (m : M A) (k : A -> M B) (a : A)
    (errs errs' : list Diag) :
  m errs = (Ret a, errs') -> bind m k errs = k a errs'.
Proof. intros H. unfold bind. by rewrite H. Qed.

Lemma for_fold_cons_run {A S} (x : A) (xs : list A) (s s' : S)
    (body : S -> A -> M S) (errs errs' : list Diag) :
  body s x errs = (Ret s', errs') ->
  for_fold (x :: xs) s body errs = for_fold xs s' body errs'.
Proof.
  intros H. cbn [for_fold].
  exact (bind_run (body s x) (fun s0 => for_fold xs s0 body) s' errs errs' H).
Qed.

Lemma step_atom_run dev_map cd bool_ops ops (tok : string)
    (errs errs' : list Diag) :
  validate_atom tok dev_map cd ops errs = (Ret tt, errs') ->
  trigger_step dev_map cd bool_ops ops true tok errs = (Ret false, errs').
Proof. intros H. unfold trigger_step. by rewrite (bind_run _ _ _ _ _ H). Qed.

Lemma step_op_run dev_map cd bool_ops ops (tok : string) (errs : list Diag) :
  Py.mem tok bool_ops = true ->
  trigger_step dev_map cd bool_ops ops false tok errs = (Ret true, errs).
Proof. intros H. unfold trigger_step. by rewrite H. Qed.

Lemma trigger_C_tokens (t1 gap t2 : string) (bool_ops : list string) :
  quiet t1 "||" = true -> blank gap = true ->
  quiet t2 EmptyString = true -> Py.strip t2 <> EmptyString ->
  split_bool (t1 +:+ "||" +:+ gap +:+ "||" +:+ t2) bool_ops =
    [Py.strip t1; "||"; EmptyString; "||"; Py.strip t2].
Proof.
  intros H1 Hg H2 Hne. unfold split_bool.
  assert (Hq1 : quiet t1 ("||" +:+ gap +:+ "||" +:+ t2) = true).
  { change ("||" +:+ gap +:+ "||" +:+ t2)
      with (String "|" (String "|" (gap +:+ "||" +:+ t2))).
    rewrite (quiet_head t1 _ (String "|" EmptyString) "|"). exact H1. }
  rewrite split_loop_quiet by exact Hq1.
  rewrite split_loop_bars, append_nil_l.
  rewrite split_loop_quiet by (by apply blank_quiet).
  rewrite split_loop_bars, append_nil_l.
  rewrite <- (append_nil_r t2) at 1.
  rewrite split_loop_quiet by exact H2.
  rewrite append_nil_l. cbn [split_loop].
  rewrite (strip_blank gap Hg).
  destruct (Py.strip t2) eqn:E; [done |]. reflexivity.
Qed.

(** C3, as stated, fails: for the trigger of scenario C the one message is
    that of a bad atom, not that of a misplaced operator, and the tokenizer
    did flush the empty buffer between the two connectives as a token. *)
Lemma double_connective_is_bad_atom :
  ~ (exists tok,
       emitted (validate_trigger trigger_C dev_map_C caps_devices_C
                  ["&&"; "||"] ["=="; "!="]) = [ExpectedBoolOp tok]) /\
  In EmptyString (split_bool trigger_C ["&&"; "||"]).
Proof.
  split.
  - intros [tok H]. vm_compute in H. discriminate H.
  - vm_compute. auto.
Qed.

(** C3, amended: for a trigger made of a text, a connective, white space or
    nothing, a second connective and a text, where no connective starts
    inside the two texts and both pass the check of an atom, the tokenizer
    flushes the trimmed buffer at each connective also when it is empty (only
    the flush at the end skips an empty buffer), so the tokens are the first
    atom, the connective, the empty text, the connective and the second atom;
    validation records exactly one message, the bad atom with the empty
    text, and checks both atoms. *)
Theorem double_connective_one_bad_atom (t1 gap t2 : string)
    (dev_map : gmap string string) (caps_devices : gmap string CapType)
    (bool_ops ops : list string) (errs : list Diag) :
  quiet t1 "||" = true ->
  blank gap = true ->
  quiet t2 EmptyString = true ->
  Py.mem "||" bool_ops = true ->
  validate_atom (Py.strip t1) dev_map caps_devices ops [] = (Ret tt, []) ->
  validate_atom (Py.strip t2) dev_map caps_devices ops [] = (Ret tt, []) ->
  let expr := t1 +:+ "||" +:+ gap +:+ "||" +:+ t2 in
  split_bool expr bool_ops =
    [Py.strip t1; "||"; EmptyString; "||"; Py.strip t2] /\
  validate_trigger expr dev_map caps_devices bool_ops ops errs =
    (Ret tt, errs ++ [BadTriggerAtom EmptyString]).
Proof.
  intros H1 Hg H2 Hop Hv1 Hv2 expr.
  assert (Hne : Py.strip t2 <> EmptyString).
  { intros E. rewrite E in Hv2. vm_compute in Hv2. discriminate Hv2. }
  assert (Htok := trigger_C_tokens t1 gap t2 bool_ops H1 Hg H2 Hne).
  split; [exact Htok |].
  unfold validate_trigger. fold expr in Htok. rewrite Htok.
  assert (Hrun : forall s es,
            validate_atom s dev_map caps_devices ops [] = (Ret tt, []) ->
            validate_atom s dev_map caps_devices ops es = (Ret tt, es)).
  { intros s es H. eapply run_silent; [apply validate_atom_writes | exact H]. }
  erewrite bind_run; cycle 1.
  { erewrite for_fold_cons_run by (apply step_atom_run, Hrun, Hv1).
    erewrite for_fold_cons_run by (apply step_op_run, Hop).
    erewrite for_fold_cons_run
      by (apply step_atom_run;
          instantiate (1 := errs ++ [BadTriggerAtom EmptyString]);
          reflexivity).
    erewrite for_fold_cons_run by (apply step_op_run, Hop).
    erewrite for_fold_cons_run by (apply step_atom_run, Hrun, Hv2).
    reflexivity. }
  reflexivity.
Qed.

(** Scenario C. *)
Lemma double_connective_one_bad_atom_witness :
  validate_trigger trigger_C dev_map_C caps_devices_C ["&&"; "||"]
    ["=="; "!="] [MissingDevices] =
    (Ret tt, [MissingDevices; BadTriggerAtom EmptyString]).
Proof.
  apply (double_connective_one_bad_atom
           (Py.dq "a.b == 'x' ") " " (Py.dq " c.d == 'y'")
           dev_map_C caps_devices_C ["&&"; "||"] ["=="; "!="]
           [MissingDevices]); reflexivity.
Defined.

(** ** The allowed values in a message *)

Lemma insert_sorted_In (x v : string) (l : list string) :
  In v (Py.insert_sorted x l) <-> v = x \/ In v l.
Proof.
  induction l as [| y l IH]; simpl; [intuition |].
  destruct (String_as_OT.compare_spec x y) as [-> | Hlt | Hgt]; simpl.
  - intuition.
  - intuition.
  - rewrite IH. intuition.
Qed.

Lemma sorted_set_In (v : string) (l : list string) :
  In v (Py.sorted_set l) <-> In v l.
Proof.
  induction l as [| x l IH]; simpl; [reflexivity |].
  rewrite insert_sorted_In, IH. intuition.
Qed.

Lemma insert_sorted_sorted (x : string) (l : list string) :
  StronglySorted String_as_OT.lt l ->
  StronglySorted String_as_OT.lt (Py.insert_sorted x l).
Proof.
  induction 1 as [| y l Hs IH Hall]; simpl.
  - repeat constructor.
  - destruct (String_as_OT.compare_spec x y) as [-> | Hlt | Hgt].
    + by constructor.
    + constructor; [by constructor |]. constructor; [exact Hlt |].
      eapply Forall_impl; [exact Hall |]. intros z Hz.
      eapply String_as_OT.lt_strorder; eassumption.
    + constructor; [exact IH |].
      apply List.Forall_forall. intros z Hz.
      apply insert_sorted_In in Hz as [-> | Hz]; [exact Hgt |].
      by eapply List.Forall_forall in Hall.
Qed.

Lemma sorted_set_sorted (l : list string) :
  StronglySorted String_as_OT.lt (Py.sorted_set l).
Proof.
  induction l as [| x l IH]; simpl; [constructor |].
  by apply insert_sorted_sorted.
Qed.

Lemma prefix_app (p s : string) : prefix p (p +:+ s) = true.
Proof.
  induction p as [| c p IH]; [apply prefix_nil |].
  by rewrite append_cons, prefix_cons, Ascii.eqb_refl, IH.
Qed.

Lemma contains_app (p a b : string) : Py.contains p (a +:+ p +:+ b) = true.
Proof.
  induction a as [| c a IH].
  - rewrite append_nil_l. destruct (p +:+ b) eqn:E; cbn [Py.contains];
      unfold Py.startswith; rewrite <- E, prefix_app; reflexivity.
  - rewrite append_cons. cbn [Py.contains]. rewrite IH. apply orb_true_r.
Qed.

Lemma contains_suffix (p a : string) : Py.contains p (a +:+ p) = true.
Proof.
  rewrite <- (append_nil_r p) at 2. apply contains_app.
Qed.

(** C4, as stated, fails: for an invariant with a value outside the allowed
    set, the text of the recorded message does not have the allowed set. *)
Lemma invariant_message_without_allowed :
  ~ (forall e,
       In e (emitted (main_checks spec_invalid_invariant_value caps_A)) ->
       Py.contains (Py.repr_list (Py.sorted_set ["on"; "off"])) (message e)
         = true).
Proof.
  intros H. specialize (H (InvalidValueInv "maybe" "switch1" "power")).
  assert (Hin : In (InvalidValueInv "maybe" "switch1" "power")
                  (emitted (main_checks spec_invalid_invariant_value caps_A)))
    by (vm_compute; auto).
  specialize (H Hin). vm_compute in H. discriminate H.
Qed.

(** C4, amended: for an atom of a transition trigger whose device,
    attribute and operator are valid and whose value is outside the allowed
    set of the attribute, exactly one message is recorded and its text has
    the allowed values, each once, in increasing order; for the same atom as
    a state invariant the one message recorded names the value, the device
    and the attribute, and carries no allowed set. *)
Theorem invalid_value_lists_allowed (atom dev attr op val dtype sid : string)
    (ct : CapType) (vals : list string)
    (dev_map : gmap string string) (caps_devices : gmap string CapType)
    (ops : list string) (errs : list Diag) :
  Re.TRIG_ATOM_RE_match atom = Some (dev, attr, op, val) ->
  dev_map !! dev = Some dtype ->
  caps_devices !! dtype = Some ct ->
  attributes ct !! attr = Some vals ->
  Py.mem op ops = true ->
  Py.mem val vals = false ->
  let allowed := Py.sorted_set vals in
  validate_atom atom dev_map caps_devices ops errs =
    (Ret tt, errs ++ [InvalidValue val dev attr allowed]) /\
  Py.contains (Py.repr_list allowed) (message (InvalidValue val dev attr allowed))
    = true /\
  StronglySorted String_as_OT.lt allowed /\
  (forall v, In v allowed <-> In v vals) /\
  check_invariant dev_map caps_devices ops sid atom errs =
    (Ret tt, errs ++ [InvalidValueInv val dev attr]) /\
  message (InvalidValueInv val dev attr) =
    "Invalid value " +:+ val +:+ " for " +:+ dev +:+ "." +:+ attr
    +:+ " in invariant".
Proof.
  intros Hm Hdev Hct Hattr Hop Hval allowed.
  assert (Hhd : has dev_map dev = true)
    by (unfold has; rewrite Hdev; by apply bool_decide_eq_true).
  assert (Hha : has (attributes ct) attr = true)
    by (unfold has; rewrite Hattr; by apply bool_decide_eq_true).
  repeat split.
  - unfold validate_atom. rewrite Hm, Hhd. cbn [negb].
    rewrite (bind_getitem _ _ _ _ _ Hdev), (bind_getitem _ _ _ _ _ Hct).
    rewrite Hha. cbn [negb].
    rewrite bind_err_if, Hop. cbn [negb].
    rewrite (bind_getitem _ _ _ _ _ Hct), (bind_getitem _ _ _ _ _ Hattr).
    by rewrite Hval.
  - cbn [message].
    rewrite <- !append_assoc. apply contains_suffix.
  - apply sorted_set_sorted.
  - apply sorted_set_In.
  - apply sorted_set_In.
  - unfold check_invariant. rewrite Hm, Hhd. cbn [negb].
    rewrite (bind_getitem _ _ _ _ _ Hdev), (bind_getitem _ _ _ _ _ Hct).
    rewrite Hha. cbn [negb].
    rewrite !bind_err_if, Hop. cbn [negb].
    rewrite (bind_getitem _ _ _ _ _ Hct), (bind_getitem _ _ _ _ _ Hattr).
    by rewrite Hval.
Qed.

(** Scenario B: the value [maybe] for the power of a switch. *)
Lemma invalid_value_lists_allowed_witness :
  validate_atom (Py.dq "switch1.power == 'maybe'") dev_map_A caps_devices_A
    ["=="; "!="] [] =
    (Ret tt, [InvalidValue "maybe" "switch1" "power" ["off"; "on"]]) /\
  message (InvalidValue "maybe" "switch1" "power" ["off"; "on"]) =
    "Invalid value maybe for switch1.power; allowed=['off', 'on']".
Proof.
  split; [| reflexivity].
  apply (invalid_value_lists_allowed (Py.dq "switch1.power == 'maybe'")
           "switch1" "power" "==" "maybe" "switch" "Idle" switch_type
           ["on"; "off"] dev_map_A caps_devices_A ["=="; "!="] []);
    reflexivity.
Defined.

(** ** The pattern of an atom *)

Lemma span_app (p : ascii -> bool) (s : string) :
  s = (Re.span p s).1 +:+ (Re.span p s).2.
Proof.
  induction s as [| c s IH]; [reflexivity |].
  cbn [Re.span]. destruct (p c); [| reflexivity].
  destruct (Re.span p s) as [w r]. simpl in *. by rewrite append_cons, <- IH.
Qed.

Lemma span_all (p : ascii -> bool) (s : string) :
  forallb p (list_ascii_of_string (Re.span p s).1) = true.
Proof.
  induction s as [| c s IH]; [reflexivity |].
  cbn [Re.span]. destruct (p c) eqn:Hc; [| reflexivity].
  destruct (Re.span p s) as [w r]. simpl in *. by rewrite Hc.
Qed.

Lemma blank_forallb (s : string) :
  blank s = forallb Py.is_space (list_ascii_of_string s).
Proof. induction s as [| c s IH]; simpl; congruence. Qed.

Lemma good_tail_app (p r : string) :
  good_tail r = true -> good_tail (p +:+ r) = true.
Proof.
  intros Hr. induction p as [| c p IH]; [exact Hr |].
  rewrite append_cons. cbn [good_tail]. by rewrite IH.
Qed.

Lemma spaces_good_tail (s : string) :
  good_tail (Re.spaces s) = true -> good_tail s = true.
Proof.
  intros H. rewrite (span_app Py.is_space s). by apply good_tail_app.
Qed.

Lemma ident_app (s w r : string) : Re.ident s = Some (w, r) -> s = w +:+ r.
Proof.
  destruct s as [| c s]; [discriminate |]. cbn [Re.ident].
  destruct (Py.is_ident_start c); [| discriminate].
  pose proof (span_app Py.is_word s) as Hs.
  destruct (Re.span Py.is_word s) as [w' r']. simpl in Hs.
  intros [= <- <-]. by rewrite append_cons, <- Hs.
Qed.

Lemma lit_app (p s r : string) : Re.lit p s = Some r -> s = p +:+ r.
Proof.
  revert s. induction p as [| a p IH]; intros s; cbn [Re.lit].
  - by intros [= ->].
  - destruct s as [| c s]; [discriminate |].
    destruct (Ascii.eqb_spec a c) as [-> | _]; [| discriminate].
    intros H. apply IH in H. by rewrite append_cons, <- H.
Qed.

Lemma cmp_op_app (s op r : string) : Re.cmp_op s = Some (op, r) -> s = op +:+ r.
Proof.
  unfold Re.cmp_op.
  destruct (Re.lit "==" s) as [r1 |] eqn:E1.
  - intros [= <- <-]. by apply lit_app.
  - destruct (Re.lit "!=" s) as [r2 |] eqn:E2; [| discriminate].
    intros [= <- <-]. by apply lit_app.
Qed.

Lemma good_tail_intro (v w : string) :
  v <> EmptyString ->
  forallb (fun c => negb (Py.is_quote c)) (list_ascii_of_string v) = true ->
  blank w = true ->
  good_tail (v +:+ Re.quote_lit +:+ w) = true.
Proof.
  intros Hne Hv Hw. induction v as [| x v IH]; [done |].
  simpl in Hv. apply andb_true_iff in Hv as [Hx Hv].
  rewrite append_cons. cbn [good_tail].
  destruct v as [| y v].
  - rewrite append_nil_l. unfold Re.quote_lit. rewrite append_cons, append_nil_l.
    rewrite Hx, Hw. change (Py.is_quote Py.dquote) with true.
    apply orb_true_r.
  - rewrite IH; [reflexivity | discriminate | exact Hv].
Qed.

Lemma at_end_blank (s : string) : Re.at_end s = true -> blank s = true.
Proof.
  unfold Re.at_end, Re.spaces. intros H.
  rewrite (span_app Py.is_space s).
  destruct (Re.span Py.is_space s).2 eqn:E; [| discriminate].
  rewrite append_nil_r, blank_forallb. apply span_all.
Qed.

(** A text that the pattern matches ends with the last character of the
    value, the closing quote and white space. *)
Lemma match_good_tail (s : string) (g : string * string * string * string) :
  Re.TRIG_ATOM_RE_match s = Some g -> good_tail s = true.
Proof.
  unfold Re.TRIG_ATOM_RE_match. intros H.
  apply bind_Some in H as ([dev r1] & E1 & H).
  apply bind_Some in H as (r2 & E2 & H).
  apply bind_Some in H as ([attr r3] & E3 & H).
  apply bind_Some in H as ([op r4] & E4 & H).
  apply bind_Some in H as (r5 & E5 & H).
  apply bind_Some in H as ([val r6] & E6 & H).
  apply bind_Some in H as (r7 & E7 & H).
  destruct (Re.at_end r7) eqn:E8; [| discriminate H].
  apply spaces_good_tail. rewrite (ident_app _ _ _ E1). apply good_tail_app.
  rewrite (lit_app _ _ _ E2). apply good_tail_app.
  rewrite (ident_app _ _ _ E3). apply good_tail_app.
  apply spaces_good_tail. rewrite (cmp_op_app _ _ _ E4). apply good_tail_app.
  apply spaces_good_tail. rewrite (lit_app _ _ _ E5). apply good_tail_app.
  unfold Re.quoted_body in E6.
  pose proof (span_app (fun c => negb (Py.is_quote c)) r5) as Hr5.
  pose proof (span_all (fun c => negb (Py.is_quote c)) r5) as Hall.
  destruct (Re.span (fun c => negb (Py.is_quote c)) r5) as [v r] eqn:Es.
  simpl in Hr5, Hall.
  destruct v as [| x v]; [discriminate |]. injection E6 as <- <-.
  rewrite Hr5, (lit_app _ _ _ E7).
  apply good_tail_intro; [discriminate | exact Hall | by apply at_end_blank].
Qed.

Lemma space_not_quote (c : ascii) :
  Py.is_space c = true -> Py.is_quote c = false.
Proof.
  destruct c as [[] [] [] [] [] [] [] []]; vm_compute;
    intros H; first [discriminate H | reflexivity].
Qed.

Lemma blank_no_good_tail (w : string) : blank w = true -> good_tail w = false.
Proof.
  induction w as [| c w IH]; [reflexivity |].
  cbn [blank good_tail]. intros H. apply andb_true_iff in H as [Hc Hw].
  rewrite (IH Hw). destruct w as [| q w]; [by rewrite andb_false_r |].
  cbn [blank] in Hw. apply andb_true_iff in Hw as [Hq _].
  rewrite (space_not_quote q Hq). by rewrite andb_false_r.
Qed.

Lemma blank_with_quote (a b : string) :
  blank (a +:+ Re.quote_lit +:+ b) = false.
Proof.
  induction a as [| c a IH].
  - reflexivity.
  - rewrite append_cons. cbn [blank]. rewrite IH. apply andb_false_r.
Qed.

(** A text that ends with two double quotes and then white space does not
    end as a matched text does. *)
Lemma two_quotes_no_good_tail (pre w : string) :
  blank w = true ->
  good_tail (pre +:+ Re.quote_lit +:+ Re.quote_lit +:+ w) = false.
Proof.
  intros Hw. induction pre as [| x pre IH].
  - rewrite append_nil_l. unfold Re.quote_lit.
    rewrite !append_cons, !append_nil_l. cbn [good_tail].
    rewrite (blank_no_good_tail w Hw).
    change (Py.is_quote Py.dquote) with true. simpl.
    destruct w; reflexivity.
  - rewrite append_cons. cbn [good_tail]. rewrite IH. cbn [orb].
    destruct pre as [| y pre].
    + rewrite append_nil_l. unfold Re.quote_lit at 1.
      rewrite append_cons, append_nil_l.
      pose proof (blank_with_quote EmptyString w) as Hb.
      rewrite append_nil_l in Hb. rewrite Hb. by rewrite !andb_false_r.
    + rewrite append_cons.
      rewrite (blank_with_quote pre (Re.quote_lit +:+ w)).
      by rewrite !andb_false_r.
Qed.

(** C10: the pattern of an atom asks for at least one character between
    the double quotes.  A text that ends with an opening and a closing double
    quote with nothing between them, followed by white space or nothing, is
    not matched, whatever comes before the quotes, so the texts of the form
    [device.attribute OP] followed by two double quotes are not; the check
    of a trigger atom and the check of an invariant each record their message
    of a bad atom for it, whatever the devices, the schema and the operators
    are. *)
Theorem empty_literal_is_rejected (pre w sid : string)
    (dev_map : gmap string string) (caps_devices : gmap string CapType)
    (ops : list string) (errs : list Diag) :
  blank w = true ->
  let atom := pre +:+ Re.quote_lit +:+ Re.quote_lit +:+ w in
  Re.TRIG_ATOM_RE_match atom = None /\
  validate_atom atom dev_map caps_devices ops errs =
    (Ret tt, errs ++ [BadTriggerAtom atom]) /\
  check_invariant dev_map caps_devices ops sid atom errs =
    (Ret tt, errs ++ [BadInvariantAtom sid atom]).
Proof.
  intros Hw atom.
  assert (Hnone : Re.TRIG_ATOM_RE_match atom = None).
  { destruct (Re.TRIG_ATOM_RE_match atom) as [g |] eqn:E; [| reflexivity].
    apply match_good_tail in E. unfold atom in E.
    by rewrite two_quotes_no_good_tail in E. }
  split; [exact Hnone |].
  unfold validate_atom, check_invariant. rewrite Hnone. by split.
Qed.

(** An atom of scenario A with nothing between the quotes. *)
Lemma empty_literal_is_rejected_witness :
  blank " " = true /\
  validate_atom (Py.dq "switch1.power == '' ") dev_map_A caps_devices_A
    ["=="; "!="] [] =
    (Ret tt, [BadTriggerAtom (Py.dq "switch1.power == '' ")]).
Proof.
  split; [reflexivity |].
  apply (empty_literal_is_rejected "switch1.power == " " " "Idle"
           dev_map_A caps_devices_A ["=="; "!="] []).
  reflexivity.
Defined.

(** ** Bundles that the validator accepts *)

Lemma clean_bind {A B} (m : M A) (k : A -> M B) (b : B) :
  (forall a, writes (fun _ => True) (k a)) ->
  clean (bind m k) b -> exists a, clean m a /\ clean (k a) b.
Proof.
  intros Hk. unfold clean, bind.
  destruct (m []) as [[a | e] errs'] eqn:Hm; [| discriminate].
  rewrite (run_writes _ (k a) errs' (Hk a)). intros [= Hout Herrs].
  apply app_eq_nil in Herrs as [-> Hemit]. exists a. split; [reflexivity |].
  rewrite (run_writes _ (k a) [] (Hk a)). by rewrite Hout, Hemit.
Qed.

Lemma clean_ret {A} (a b : A) : clean (ret a) b -> a = b.
Proof. unfold clean, ret. by intros [= ->]. Qed.

Lemma clean_err_if (c : bool) (e : Diag) (a : unit) :
  clean (err_if c e) a -> c = false.
Proof. destruct c; [discriminate | reflexivity]. Qed.

Lemma clean_for_each {A} (xs : list A) (body : A -> M unit) :
  (forall x, writes (fun _ => True) (body x)) ->
  clean (for_each xs body) tt -> Forall (fun x => clean (body x) tt) xs.
Proof.
  intros Hw. unfold for_each.
  induction xs as [| x xs IH]; [constructor |].
  cbn [for_fold]. intros H.
  apply clean_bind in H as ([] & Hx & Hrest);
    [| intros; apply writes_for_fold; intros; apply Hw].
  constructor; [exact Hx | by apply IH].
Qed.

Lemma validated_checks spec caps_root :
  validated spec caps_root -> clean (main_checks spec caps_root) tt.
Proof.
  unfold validated, main, clean, bind, get_errs, ret.
  destruct (main_checks spec caps_root []) as [[[] | e] errs];
    [| discriminate].
  by intros [= _ ->].
Qed.



Lemma tr_has_key_source tr :
  tr_has_key tr "source" = true -> is_Some (tr_source tr).
Proof. unfold tr_has_key. simpl. apply bool_decide_eq_true. Qed.

Lemma tr_has_key_target tr :
  tr_has_key tr "target" = true -> is_Some (tr_target tr).
Proof. unfold tr_has_key. simpl. apply bool_decide_eq_true. Qed.

Lemma tr_has_key_trigger tr :
  tr_has_key tr "trigger" = true -> is_Some (tr_trigger tr).
Proof. unfold tr_has_key. simpl. apply bool_decide_eq_true. Qed.

Lemma tr_has_key_action tr :
  tr_has_key tr "action" = true -> is_Some (tr_action tr).
Proof. unfold tr_has_key. simpl. apply bool_decide_eq_true. Qed.


Lemma enumerate_Forall {A} (P : A -> Prop) (Q : nat * A -> Prop)
    (n : nat) (xs : list A) :
  (forall i x, Q (i, x) -> P x) ->
  Forall Q (enumerate n xs) -> Forall P xs.
Proof.
  intros HQP. revert n. induction xs as [| x xs IH]; intros n H;
    [constructor |].
  cbn [enumerate] in H. inversion H as [| ? ? Hx Hxs]; subst.
  constructor; [by eapply HQP | by eapply IH].
Qed.





(** ** The generator on an accepted bundle *)

Lemma state_xmi_ids_ok (sts : list State) :
  Forall (fun s => is_Some (st_id s)) sts ->
  exists ids,
    Uml.state_xmi_ids sts = Ret ids /\
    forall sid, sid ∈ map Scheme.sid_of sts ->
                ids !! sid = Some (Scheme.state_ext_id sid).
Proof.
  induction 1 as [| s sts [sid Hsid] _ (ids & Hids & Hlook)].
  - exists ∅. split; [reflexivity |]. intros sid Hin. by apply elem_of_nil in Hin.
  - exists (<[sid := "s_" +:+ sid]> ids). split.
    + cbn [Uml.state_xmi_ids]. rewrite Hsid, Hids. reflexivity.
    + intros x Hx. cbn [map] in Hx. unfold Scheme.sid_of at 1 in Hx.
      rewrite Hsid in Hx. simpl in Hx.
      destruct (decide (x = sid)) as [-> | Hne].
      * by rewrite lookup_insert_eq.
      * rewrite lookup_insert_ne by done. apply Hlook.
        apply elem_of_cons in Hx as [Hx | Hx]; [done | exact Hx].
Qed.

Lemma collect_ret {A B} (xs : list A) (body : A -> result (list B))
    (f : A -> list B) :
  Forall (fun x => body x = Ret (f x)) xs ->
  Uml.collect xs body = Ret (List.concat (map f xs)).
Proof.
  induction 1 as [| x xs Hx _ IH]; [reflexivity |].
  cbn [Uml.collect map List.concat]. by rewrite Hx, IH.
Qed.

Lemma collect_enumerate_ret {A B} (xs : list A) (n : nat)
    (body : nat * A -> result (list B)) (f : nat -> A -> list B) :
  Forall (fun x => forall i, body (i, x) = Ret (f i x)) xs ->
  Uml.collect (enumerate n xs) body =
    Ret (List.concat (imap (fun k x => f (n + k) x) xs)).
Proof.
  intros H. revert n. induction H as [| x xs Hx _ IH]; intros n;
    [reflexivity |].
  cbn [enumerate Uml.collect imap List.concat]. rewrite Hx, (IH (S n)).
  cbn [Uml.rbind]. rewrite Nat.add_0_r. do 3 f_equal.
  apply imap_ext. intros k y _. simpl. by rewrite Nat.add_succ_r.
Qed.

Lemma collect_with_ret {A B} (xs : list A) (c : nat)
    (body : nat -> A -> result (list B * nat)) (f : nat -> A -> list B) :
  Forall (fun x => forall k, body k x = Ret (f k x, k + 1)) xs ->
  Uml.collect_with xs c body =
    Ret (List.concat (imap (fun k x => f (c + k) x) xs)).
Proof.
  intros H. revert c. induction H as [| x xs Hx _ IH]; intros c;
    [reflexivity |].
  cbn [Uml.collect_with imap List.concat]. rewrite Hx.
  cbn [Uml.rbind fst snd]. rewrite (IH (c + 1)).
  cbn [Uml.rbind]. rewrite Nat.add_0_r. do 3 f_equal.
  apply imap_ext. intros k y _. simpl. f_equal. lia.
Qed.

Lemma concat_imap_singleton {A B} (g : nat -> A -> B) (xs : list A) :
  List.concat (imap (fun k x => [g k x]) xs) = imap g xs.
Proof.
  revert g. induction xs as [| x xs IH]; intros g; [reflexivity |].
  cbn [imap List.concat]. rewrite <- IH. reflexivity.
Qed.

Lemma concat_map_singleton {A B} (g : A -> B) (xs : list A) :
  List.concat (map (fun x => [g x]) xs) = map g xs.
Proof. induction xs as [| x xs IH]; [reflexivity |]. simpl. by rewrite IH. Qed.

Section Accepted.

Context (states_ : list State) (trs : list Transition)
        (ids : gmap string string) (state_ids : gset string).
Hypothesis Hstates : Forall (fun s => is_Some (st_id s)) states_.
Hypothesis Hids : forall sid, sid ∈ map Scheme.sid_of states_ ->
                              ids !! sid = Some (Scheme.state_ext_id sid).
Hypothesis Hsub : forall x, x ∈ state_ids -> x ∈ map Scheme.sid_of states_.
Hypothesis Htrs : Forall (well_formed_transition state_ids) trs.

Lemma state_lookup (s : State) :
  s ∈ states_ ->
  st_id s = Some (Scheme.sid_of s) /\
  Uml.lookup_key ids (Scheme.sid_of s) =
    Ret (Scheme.state_ext_id (Scheme.sid_of s)).
Proof.
  intros Hin. rewrite Forall_forall in Hstates.
  destruct (Hstates s Hin) as [sid Hsid]. unfold Scheme.sid_of.
  rewrite Hsid. simpl. split; [reflexivity |].
  unfold Uml.lookup_key. rewrite Hids; [reflexivity |].
  apply list_elem_of_fmap. exists s. split; [| exact Hin].
  unfold Scheme.sid_of. by rewrite Hsid.
Qed.

Lemma make_state_nodes_ok :
  Uml.make_state_nodes states_ ids = Ret (Scheme.state_nodes states_).
Proof.
  unfold Uml.make_state_nodes, Scheme.state_nodes.
  erewrite collect_ret; cycle 1.
  { apply Forall_forall. intros s Hin.
    destruct (state_lookup s Hin) as [Hsid Hlook].
    rewrite Hsid. cbn [Uml.field Uml.rbind]. rewrite Hlook.
    cbn [Uml.rbind].
    instantiate (1 := fun s => [Uml.Subvertex "uml:State"
                                  (Scheme.state_ext_id (Scheme.sid_of s))
                                  (Some (Uml.h (Scheme.sid_of s)))]).
    reflexivity. }
  cbn [Uml.rbind]. by rewrite concat_map_singleton.
Qed.

Lemma transition_lookup (tr : Transition) :
  well_formed_transition state_ids tr ->
  tr_source tr = Some (Scheme.source_of tr) /\
  tr_target tr = Some (Scheme.target_of tr) /\
  tr_trigger tr = Some (Scheme.trigger_of tr) /\
  tr_action tr = Some (Scheme.action_of tr) /\
  Uml.lookup_key ids (Scheme.source_of tr) =
    Ret (Scheme.state_ext_id (Scheme.source_of tr)) /\
  Uml.lookup_key ids (Scheme.target_of tr) =
    Ret (Scheme.state_ext_id (Scheme.target_of tr)).
Proof.
  intros (src & tgt & trig & act & Es & Et & Eg & Ea & Hs & Ht).
  unfold Scheme.source_of, Scheme.target_of, Scheme.trigger_of,
    Scheme.action_of, Uml.lookup_key.
  rewrite Es, Et, Eg, Ea. simpl.
  rewrite (Hids src (Hsub src Hs)), (Hids tgt (Hsub tgt Ht)). done.
Qed.

Lemma make_transitions_ok (s0 : State) (rest : list State) :
  states_ = s0 :: rest ->
  Uml.make_transitions states_ trs ids = Ret (Scheme.transition_lines s0 trs).
Proof.
  intros Hs. unfold Uml.make_transitions, Scheme.transition_lines.
  destruct (state_lookup s0) as [Hsid Hlook]; [rewrite Hs; by left |].
  rewrite Hs. cbn [Uml.rbind]. rewrite Hsid. cbn [Uml.field Uml.rbind].
  rewrite Hlook. cbn [Uml.rbind].
  erewrite (collect_enumerate_ret trs 1 _
              (fun i tr => [Uml.TransitionEl (Scheme.transition_id i)
                              (Scheme.state_ext_id (Scheme.source_of tr))
                              (Scheme.state_ext_id (Scheme.target_of tr))])).
  - cbn [Uml.rbind]. by rewrite concat_imap_singleton.
  - eapply Forall_impl; [exact Htrs |]. intros tr Hwf i.
    destruct (transition_lookup tr Hwf) as (Es & Et & _ & _ & Hs1 & Ht1).
    cbn [fst snd]. rewrite Es, Et. cbn [Uml.field Uml.rbind].
    rewrite Hs1, Ht1. reflexivity.
Qed.

Lemma make_stereotypes_ok :
  Forall (fun s => is_Some (items_of (st_invariants s))) states_ ->
  Uml.make_stereotypes states_ trs ids = Ret (Scheme.annotations states_ trs).
Proof.
  intros Hinvs. unfold Uml.make_stereotypes, Scheme.annotations.
  erewrite (collect_with_ret states_ 1 _
              (fun k s =>
                 [Uml.StereoOpen "MDSSED:states" (Scheme.invariant_block_id k)
                    "base_State" (Scheme.state_ext_id (Scheme.sid_of s))]
                 ++ map (fun iv => Uml.StereoChild "state"
                                     (Uml.h (Uml.normalize_expr iv)))
                      (Scheme.invariants_of s)
                 ++ [Uml.StereoClose "MDSSED:states"])); cycle 1.
  { apply Forall_forall. intros s Hin k.
    destruct (state_lookup s Hin) as [Hsid Hlook].
    rewrite Hsid. cbn [Uml.field Uml.rbind]. rewrite Hlook.
    rewrite Forall_forall in Hinvs. destruct (Hinvs s Hin) as [invs Hs].
    unfold Uml.invariants_of, Scheme.invariants_of. rewrite Hs.
    reflexivity. }
  cbn [Uml.rbind].
  erewrite (collect_enumerate_ret trs 1 _
              (fun i tr =>
                 [Uml.StereoOpen "MDSSED:triggers"
                    (Scheme.trigger_annotation_id i) "base_Transition"
                    (Scheme.transition_id i);
                  Uml.StereoChild "trigger"
                    (Uml.h (Uml.normalize_expr (Scheme.trigger_of tr)));
                  Uml.StereoClose "MDSSED:triggers";
                  Uml.StereoOpen "MDSSED:actions"
                    (Scheme.action_annotation_id i) "base_Transition"
                    (Scheme.transition_id i);
                  Uml.StereoChild "action" (Uml.h (Scheme.action_of tr));
                  Uml.StereoClose "MDSSED:actions"])); cycle 1.
  { eapply Forall_impl; [exact Htrs |]. intros tr Hwf i.
    destruct (transition_lookup tr Hwf) as (_ & _ & Eg & Ea & _ & _).
    cbn [fst snd]. rewrite Eg, Ea. reflexivity. }
  reflexivity.
Qed.

End Accepted.

(** ** The ids of the scheme *)

Lemma digit_char_digit (k : nat) :
  k < 10 -> Py.between 48 57 (Py.digit_char k) = true.
Proof.
  intros Hk. do 10 (destruct k as [| k]; [reflexivity |]). lia.
Qed.

Lemma str_nat_aux_digits (fuel n : nat) (acc : string) :
  all_digits acc = true -> all_digits (Py.str_nat_aux fuel n acc) = true.
Proof.
  revert n acc. induction fuel as [| fuel IH]; intros n acc Hacc; [exact Hacc |].
  cbn [Py.str_nat_aux].
  assert (Hacc' : all_digits (String (Py.digit_char (n mod 10)) acc) = true).
  { unfold all_digits. cbn [list_ascii_of_string forallb].
    rewrite digit_char_digit by (apply Nat.mod_upper_bound; lia).
    exact Hacc. }
  destruct (n / 10); [exact Hacc' | by apply IH].
Qed.

Lemma str_nat_digits (n : nat) : all_digits (Py.str_nat n) = true.
Proof. apply str_nat_aux_digits. reflexivity. Qed.

Lemma transition_id_not_init (n : nat) :
  Scheme.transition_id n <> Scheme.init_transition_id.
Proof.
  unfold Scheme.transition_id, Scheme.init_transition_id. intros H.
  change ("t_" +:+ Py.str_nat n)
    with (String "t" (String "_" (Py.str_nat n))) in H.
  injection H as H. pose proof (str_nat_digits n) as Hd.
  rewrite H in Hd. discriminate Hd.
Qed.


Lemma Forall_concat_imap {A B} (P : B -> Prop) (f : nat -> A -> list B)
    (xs : list A) :
  (forall k x, Forall P (f k x)) -> Forall P (List.concat (imap f xs)).
Proof.
  revert f. induction xs as [| x xs IH]; intros f Hf; [constructor |].
  cbn [imap List.concat]. apply Forall_app. split; [apply Hf |].
  apply IH. intros k y. apply Hf.
Qed.





(** ** Where a run can raise *)

(** A loop whose body always returns, and keeps [I], returns and keeps [I]. *)
Lemma for_fold_returns {A S} (I : S -> Prop) (xs : list A) (s : S)
    (body : S -> A -> M S) :
  (forall s x, writes (fun _ => True) (body s x)) ->
  (forall s x, I s -> exists s', outcome (body s x) = Ret s' /\ I s') ->
  I s -> exists s', outcome (for_fold xs s body) = Ret s' /\ I s'.
Proof.
  intros Hw Hb. revert s. induction xs as [| x xs IH]; intros s Hs.
  - by exists s.
  - cbn [for_fold].
    rewrite outcome_bind; [| apply Hw | intros; by apply writes_for_fold].
    destruct (Hb s x Hs) as (s1 & -> & Hs1). by apply IH.
Qed.

Lemma bind_iterate {B} (x : section_ string) (l : list string)
    (f : list string -> M B) (errs : list Diag) :
  items_of x = Some l -> bind (iterate x) f errs = f l errs.
Proof. intros H. unfold bind, iterate. by rewrite H. Qed.

Lemma bind_iterate_raise {B} (x : section_ string)
    (f : list string -> M B) (errs : list Diag) :
  items_of x = None -> bind (iterate x) f errs = (Raise TypeError, errs).
Proof. intros H. unfold bind, iterate. by rewrite H. Qed.

Lemma accepted_inv cd d (k t : string) :
  accepted cd d = Some (k, t) ->
  d_id d = Some k /\ d_type d = Some t /\ d_attributes d <> Absent /\
  is_Some (cd !! t).
Proof.
  unfold accepted. destruct (d_id d) as [did |]; [| discriminate].
  destruct (d_type d) as [dtype |]; [| discriminate].
  destruct (d_attributes d) as [| items | attrs]; [discriminate | |];
    (destruct (has cd dtype) eqn:Hty; [| discriminate]);
    intros [= <- <-]; apply has_true in Hty; by repeat split.
Qed.

(** The body of the device loop raises on a device with its three keys, a
    type of the schema and attributes that cannot be iterated, after it has
    put the device in the map; on every other device it returns. *)
Lemma validate_device_outcome cd dev_map d :
  outcome (validate_device cd dev_map d) =
    if raising_device cd d then Raise TypeError
    else Ret (record_device cd dev_map d).
Proof.
  unfold validate_device, raising_device, record_device, accepted.
  destruct (d_id d) as [did |]; [| reflexivity].
  destruct (d_type d) as [dtype |]; [| reflexivity].
  destruct (d_attributes d) as [| [items |] | attrs] eqn:Hat;
    [reflexivity | | |];
    (destruct (has cd dtype) eqn:Hty; [| reflexivity]);
    apply has_true in Hty as [ct Hct]; cbn [negb items_of]; unfold outcome;
    rewrite bind_err_if, (bind_getitem _ _ _ _ _ Hct).
  - rewrite (bind_iterate _ items) by reflexivity. by rewrite bind_err_if.
  - by rewrite bind_iterate_raise.
  - rewrite (bind_iterate _ attrs) by reflexivity. by rewrite bind_err_if.
Qed.

Lemma record_device_consistent cd dev_map d :
  consistent dev_map cd -> consistent (record_device cd dev_map d) cd.
Proof.
  intros Hcons. unfold record_device.
  destruct (accepted cd d) as [[did dtype] |] eqn:Hacc; [| exact Hcons].
  apply accepted_inv in Hacc as (_ & _ & _ & Hct).
  by apply map_Forall_insert_2.
Qed.

Lemma device_map_consistent cd (ds : list Device) dev_map :
  consistent dev_map cd ->
  consistent (fold_left (record_device cd) ds dev_map) cd.
Proof.
  revert dev_map. induction ds as [| d ds IH]; intros dev_map Hcons;
    [exact Hcons |].
  cbn [fold_left]. by apply IH, record_device_consistent.
Qed.

(** The device loop raises [TypeError] when it reaches a device on which
    its body raises, and returns the map of all the devices otherwise. *)
Lemma device_loop_outcome cd (ds : list Device) (dm0 : gmap string string) :
  outcome (for_fold ds dm0 (validate_device cd)) =
    if existsb (raising_device cd) ds then Raise TypeError
    else Ret (fold_left (record_device cd) ds dm0).
Proof.
  revert dm0. induction ds as [| d ds IH]; intros dm0; [reflexivity |].
  cbn [for_fold existsb fold_left].
  rewrite outcome_bind;
    [| eapply writes_any, validate_device_writes
     | intros; apply writes_for_fold; intros;
       eapply writes_any, validate_device_writes].
  rewrite validate_device_outcome.
  destruct (raising_device cd d); [reflexivity | apply IH].
Qed.

(** The device check raises [TypeError] when the loop over a list of
    devices does, and returns otherwise. *)
Lemma validate_devices_outcome spec caps_root :
  outcome (validate_devices spec caps_root) =
    match devices spec with
    | Items ds =>
        let cd := default ∅ (caps_devices caps_root) in
        if existsb (raising_device cd) ds then Raise TypeError
        else Ret (device_map cd ds, cd)
    | _ => Ret (∅, ∅)
    end.
Proof.
  unfold validate_devices.
  destruct (devices spec) as [| | ds]; [reflexivity | reflexivity |].
  assert (Hreq : forall dm, writes (fun _ => True)
                   (for_each required_devices (required_check dm))).
  { intros. apply writes_for_each. intros.
    eapply writes_any, required_check_writes. }
  rewrite outcome_bind;
    [| apply writes_for_fold; intros;
       eapply writes_any, validate_device_writes
     | intros; apply writes_bind; [apply Hreq | intros; apply writes_ret]].
  rewrite device_loop_outcome. cbn zeta.
  destruct (existsb _ ds); [reflexivity |].
  rewrite outcome_bind; [| apply Hreq | intros; apply writes_ret].
  rewrite outcome_for_each; [reflexivity | |].
  - intros. eapply writes_any, required_check_writes.
  - intros. apply outcome_err_if.
Qed.

(** The map that the device check returns only names types of the
    schema. *)
Lemma validate_devices_consistent spec caps_root dev_map cd :
  outcome (validate_devices spec caps_root) = Ret (dev_map, cd) ->
  consistent dev_map cd.
Proof.
  rewrite validate_devices_outcome.
  destruct (devices spec) as [| | ds];
    [intros [= <- <-]; apply map_Forall_empty ..|].
  cbn zeta. destruct (existsb _ ds); [discriminate |].
  intros [= <- <-]. apply device_map_consistent, map_Forall_empty.
Qed.

(** The one exception of the device check. *)
Lemma validate_devices_raises spec caps_root e :
  outcome (validate_devices spec caps_root) = Raise e ->
  e = TypeError /\
  exists ds, devices spec = Items ds /\
    existsb (raising_device (default ∅ (caps_devices caps_root))) ds = true.
Proof.
  rewrite validate_devices_outcome.
  destruct (devices spec) as [| | ds]; [discriminate | discriminate |].
  cbn zeta. destruct (existsb _ ds) eqn:Hex; [| discriminate].
  intros [= <-]. split; [reflexivity |]. by exists ds.
Qed.

Lemma validate_action_returns act dev_map cd :
  consistent dev_map cd -> outcome (validate_action act dev_map cd) = Ret tt.
Proof.
  intros Hcons. unfold validate_action.
  destruct (Re.ACTION_RE_match act) as [[dev cmd] |]; [| reflexivity].
  destruct (has dev_map dev) eqn:Hdev; [| reflexivity].
  apply has_true in Hdev as [dtype Hdt].
  destruct (Hcons dev dtype Hdt) as [ct Hct].
  unfold outcome. cbn [negb].
  rewrite (bind_getitem _ _ _ _ _ Hdt), (bind_getitem _ _ _ _ _ Hct).
  apply outcome_err_if.
Qed.

Lemma validate_trigger_returns expr dev_map cd bool_ops ops :
  consistent dev_map cd ->
  outcome (validate_trigger expr dev_map cd bool_ops ops) = Ret tt.
Proof.
  intros Hcons. unfold validate_trigger.
  destruct (for_fold_returns (fun _ => True) (split_bool expr bool_ops) true
              (trigger_step dev_map cd bool_ops ops)) as (b & Hb & _).
  - intros. eapply writes_any, trigger_step_writes.
  - intros b tok _. exists (negb b). split; [| done].
    by apply trigger_step_returns.
  - done.
  - rewrite outcome_bind;
      [| apply writes_for_fold; intros; eapply writes_any, trigger_step_writes
       | intros; by apply writes_err_if].
    rewrite Hb. apply outcome_err_if.
Qed.

Lemma check_transition_returns dev_map cd bool_ops ops ids itr :
  consistent dev_map cd ->
  outcome (check_transition dev_map cd bool_ops ops ids itr) = Ret tt.
Proof.
  intros Hcons. destruct itr as [i tr]. unfold check_transition.
  assert (Hw3 : writes (fun _ => True)
            (validate_trigger (default EmptyString (tr_trigger tr))
               dev_map cd bool_ops ops ;;
             validate_action (default EmptyString (tr_action tr))
               dev_map cd)%M).
  { apply writes_bind; [eapply writes_any, validate_trigger_writes |].
    intros. eapply writes_any, validate_action_writes. }
  assert (Hw2 : forall c e, writes (fun _ => True)
            (err_if c e ;;
             validate_trigger (default EmptyString (tr_trigger tr))
               dev_map cd bool_ops ops ;;
             validate_action (default EmptyString (tr_action tr))
               dev_map cd)%M).
  { intros. apply writes_bind; [by apply writes_err_if | intros; exact Hw3]. }
  rewrite outcome_bind;
    [| apply writes_for_each; intros; by apply writes_err_if
     | intros; apply writes_bind; [by apply writes_err_if | intros; apply Hw2]].
  rewrite outcome_for_each;
    [| intros; by apply writes_err_if | intros; apply outcome_err_if].
  rewrite outcome_bind;
    [| by apply writes_err_if | intros; apply Hw2].
  rewrite outcome_err_if.
  rewrite outcome_bind; [| by apply writes_err_if | intros; exact Hw3].
  rewrite outcome_err_if.
  rewrite outcome_bind;
    [| eapply writes_any, validate_trigger_writes
     | intros; eapply writes_any, validate_action_writes].
  rewrite validate_trigger_returns by exact Hcons.
  by apply validate_action_returns.
Qed.

Lemma check_transitions_returns spec dev_map cd bool_ops ops ids :
  consistent dev_map cd ->
  outcome (check_transitions spec dev_map cd bool_ops ops ids) = Ret tt.
Proof.
  intros Hcons. unfold check_transitions.
  destruct (transitions spec) as [| | trs]; [reflexivity | reflexivity |].
  apply outcome_for_each.
  - intros. eapply writes_any, check_transition_writes.
  - intros. by apply check_transition_returns.
Qed.

Lemma returns_raises_only {A} (m : M A) (a : A) :
  outcome m = Ret a -> raises_only_unknown_attribute m.
Proof. intros H e He. rewrite H in He. discriminate He. Qed.

Lemma raises_only_bind {A B} (m : M A) (k : A -> M B) :
  writes (fun _ => True) m -> (forall a, writes (fun _ => True) (k a)) ->
  raises_only_unknown_attribute m ->
  (forall a, outcome m = Ret a -> raises_only_unknown_attribute (k a)) ->
  raises_only_unknown_attribute (bind m k).
Proof.
  intros Hm Hk Hrm Hrk e He.
  rewrite outcome_bind in He by done. rewrite emitted_bind by done.
  destruct (outcome m) as [a | e'] eqn:Hout.
  - destruct (Hrk a eq_refl e He) as (dev & attr & -> & Hin).
    exists dev, attr. split; [reflexivity |]. apply in_or_app. by right.
  - injection He as ->. destruct (Hrm e Hout) as (dev & attr & -> & Hin).
    exists dev, attr. split; [reflexivity |]. apply in_or_app. by left.
Qed.

Lemma raises_only_for_fold {A S} (xs : list A) (s : S) (body : S -> A -> M S) :
  (forall s x, writes (fun _ => True) (body s x)) ->
  (forall s x, raises_only_unknown_attribute (body s x)) ->
  raises_only_unknown_attribute (for_fold xs s body).
Proof.
  intros Hw Hb. revert s. induction xs as [| x xs IH]; intros s.
  - by apply (returns_raises_only _ s).
  - cbn [for_fold]. apply raises_only_bind.
    + apply Hw.
    + intros. by apply writes_for_fold.
    + apply Hb.
    + intros s' _. apply IH.
Qed.

Lemma check_invariant_raises_only dev_map cd ops sid iv :
  consistent dev_map cd ->
  raises_only_unknown_attribute (check_invariant dev_map cd ops sid iv).
Proof.
  intros Hcons. unfold check_invariant.
  destruct (Re.TRIG_ATOM_RE_match iv) as [[[[dev attr] op] val] |];
    [| by apply (returns_raises_only _ tt)].
  destruct (has dev_map dev) eqn:Hdev; [| by apply (returns_raises_only _ tt)].
  apply has_true in Hdev as [dtype Hdt].
  destruct (Hcons dev dtype Hdt) as [ct Hct]. cbn [negb].
  destruct (has (attributes ct) attr) eqn:Hattr.
  - pose proof (has_true _ _ Hattr) as [vals Hvals].
    apply (returns_raises_only _ tt). unfold outcome.
    rewrite (bind_getitem _ _ _ _ _ Hdt), (bind_getitem _ _ _ _ _ Hct).
    rewrite Hattr. cbn [negb].
    rewrite !bind_err_if, (bind_getitem _ _ _ _ _ Hct),
      (bind_getitem _ _ _ _ _ Hvals).
    destruct (negb (Py.mem val vals)); reflexivity.
  - pose proof (has_false _ _ Hattr) as Hnone. intros e He.
    unfold outcome in He. unfold emitted.
    rewrite (bind_getitem _ _ _ _ _ Hdt), (bind_getitem _ _ _ _ _ Hct) in He.
    rewrite (bind_getitem _ _ _ _ _ Hdt), (bind_getitem _ _ _ _ _ Hct).
    rewrite Hattr in *. cbn [negb] in *.
    rewrite !bind_err_if, (bind_getitem _ _ _ _ _ Hct) in He.
    rewrite !bind_err_if, (bind_getitem _ _ _ _ _ Hct).
    unfold bind, getitem in *. rewrite Hnone in *.
    unfold raise in *. cbn [fst snd] in *. injection He as <-.
    exists dev, attr. split; [reflexivity |].
    destruct (negb (Py.mem op ops)); simpl; auto.
Qed.

Lemma check_state_raises_only dev_map cd ops ids st :
  consistent dev_map cd ->
  raises_only_unknown_attribute (check_state dev_map cd ops ids st).
Proof.
  intros Hcons. unfold check_state.
  destruct (st_id st) as [sid |];
    [| by apply (returns_raises_only _ ids)].
  assert (Hinv : forall invs, writes (fun _ => True)
            (for_each invs (check_invariant dev_map cd ops sid))).
  { intros. apply writes_for_each. intros.
    eapply writes_any, check_invariant_writes. }
  apply raises_only_bind.
  - by apply writes_err_if.
  - intros _. destruct (st_invariants st); writes_auto.
    eapply writes_any, check_invariant_writes.
  - apply (returns_raises_only _ tt), outcome_err_if.
  - intros _ _. destruct (st_invariants st) as [| | invs].
    + by apply (returns_raises_only _ ({[sid]} ∪ ids)).
    + by apply (returns_raises_only _ ({[sid]} ∪ ids)).
    + apply raises_only_bind.
      * apply Hinv.
      * intros. apply writes_ret.
      * apply raises_only_for_fold.
        -- intros. eapply writes_any, check_invariant_writes.
        -- intros. by apply check_invariant_raises_only.
      * intros. by apply (returns_raises_only _ ({[sid]} ∪ ids)).
Qed.

Lemma check_states_raises_only spec dev_map cd ops :
  consistent dev_map cd ->
  raises_only_unknown_attribute (check_states spec dev_map cd ops).
Proof.
  intros Hcons. unfold check_states.
  destruct (states spec) as [| | sts];
    [by apply (returns_raises_only _ ∅) ..|].
  apply raises_only_for_fold.
  - intros. eapply writes_any, check_state_writes.
  - intros. by apply check_state_raises_only.
Qed.

(** The checks of [main] raise in two cases only: the device check raises
    [TypeError] on attributes that cannot be iterated, or a state invariant
    names a known device and an attribute that the type of the device does
    not have.  The trigger check and the action check never raise. *)
Lemma main_checks_raises_only spec caps_root (e : exn) :
  outcome (main_checks spec caps_root) = Raise e ->
  (e = TypeError /\
   outcome (validate_devices spec caps_root) = Raise TypeError) \/
  (exists dev attr,
     e = KeyError attr /\
     In (UnknownAttributeInv dev attr) (emitted (main_checks spec caps_root))).
Proof.
  destruct (outcome (validate_devices spec caps_root)) as [[dm0 cd0] | e0]
    eqn:Hdev; cycle 1.
  { intros He. left.
    destruct (validate_devices_raises _ _ _ Hdev) as [-> _].
    split; [| reflexivity]. revert He. unfold main_checks.
    rewrite outcome_bind;
      [| eapply writes_any, check_keys_writes
       | intros; apply writes_bind;
         [eapply writes_any, validate_devices_writes |];
         intros [dm cd]; apply writes_bind;
         [eapply writes_any, check_states_writes |];
         intros; eapply writes_any, check_transitions_writes].
    replace (outcome (check_keys spec)) with (@Ret unit tt)
      by (symmetry; apply outcome_for_each;
          [intros; by apply writes_err_if | intros; apply outcome_err_if]).
    rewrite outcome_bind;
      [| eapply writes_any, validate_devices_writes
       | intros [dm cd]; apply writes_bind;
         [eapply writes_any, check_states_writes |];
         intros; eapply writes_any, check_transitions_writes].
    rewrite Hdev. congruence. }
  pose proof (validate_devices_consistent _ _ _ _ Hdev) as Hcons0.
  intros He. right. revert e He.
  change (raises_only_unknown_attribute (main_checks spec caps_root)).
  unfold main_checks.
  assert (Hw2 : forall dm cd, writes (fun _ => True)
            (state_ids <- check_states spec dm cd
                            (default [] (caps_ops caps_root)) ;;
             check_transitions spec dm cd
               (default ["&&"; "||"] (caps_bool_ops caps_root))
               (default [] (caps_ops caps_root)) state_ids)%M).
  { intros. apply writes_bind; [eapply writes_any, check_states_writes |].
    intros. eapply writes_any, check_transitions_writes. }
  apply raises_only_bind.
  - eapply writes_any, check_keys_writes.
  - intros _. apply writes_bind; [eapply writes_any, validate_devices_writes |].
    intros [dm cd]. apply Hw2.
  - apply (returns_raises_only _ tt). apply outcome_for_each.
    + intros. by apply writes_err_if.
    + intros. apply outcome_err_if.
  - intros _ _. apply raises_only_bind.
    + eapply writes_any, validate_devices_writes.
    + intros [dm cd]. apply Hw2.
    + by apply (returns_raises_only _ (dm0, cd0)).
    + intros [dm cd] Hout.
      rewrite Hdev in Hout. injection Hout as <- <-.
      apply raises_only_bind.
      * eapply writes_any, check_states_writes.
      * intros. eapply writes_any, check_transitions_writes.
      * by apply check_states_raises_only.
      * intros ids _. apply (returns_raises_only _ tt).
        by apply check_transitions_returns.
Qed.

(** Every invariant with a known device and an attribute that
    the type of the device does not have: the invariant check raises after
    its message, where the check of a trigger atom returns after its own. *)
Lemma invariant_unknown_attribute_raises
    (iv dev attr op val dtype sid : string) (ct : CapType)
    (dev_map : gmap string string) (caps_devices : gmap string CapType)
    (ops : list string) (errs : list Diag) :
  Re.TRIG_ATOM_RE_match iv = Some (dev, attr, op, val) ->
  dev_map !! dev = Some dtype ->
  caps_devices !! dtype = Some ct ->
  attributes ct !! attr = None ->
  check_invariant dev_map caps_devices ops sid iv errs =
    (Raise (KeyError attr),
     (if negb (Py.mem op ops)
      then (errs ++ [UnknownAttributeInv dev attr]) ++ [InvalidOperatorInv op]
      else errs ++ [UnknownAttributeInv dev attr])) /\
  validate_atom iv dev_map caps_devices ops errs =
    (Ret tt, errs ++ [UnknownAttribute dev attr]).
Proof.
  intros Hm Hdev Hct Hattr.
  assert (Hhd : has dev_map dev = true)
    by (unfold has; rewrite Hdev; by apply bool_decide_eq_true).
  assert (Hha : has (attributes ct) attr = false).
  { unfold has. rewrite Hattr. apply bool_decide_eq_false. by intros [? ?]. }
  split.
  - unfold check_invariant. rewrite Hm, Hhd. cbn [negb].
    rewrite (bind_getitem _ _ _ _ _ Hdev), (bind_getitem _ _ _ _ _ Hct).
    rewrite Hha. cbn [negb].
    rewrite !bind_err_if, (bind_getitem _ _ _ _ _ Hct).
    unfold bind, getitem. rewrite Hattr. reflexivity.
  - unfold validate_atom. rewrite Hm, Hhd. cbn [negb].
    rewrite (bind_getitem _ _ _ _ _ Hdev), (bind_getitem _ _ _ _ _ Hct).
    by rewrite Hha.
Qed.

(** * Further properties of the code *)

(** ** The language of the two patterns *)

Lemma span_stop (p : ascii -> bool) (w r : string) :
  all_in p w = true -> stops p r = true -> Re.span p (w +:+ r) = (w, r).
Proof.
  intros Hw Hr. induction w as [| c w IH].
  - rewrite append_nil_l. destruct r as [| d r]; [reflexivity |].
    cbn [Re.span]. cbn [stops] in Hr. apply negb_true_iff in Hr.
    by rewrite Hr.
  - unfold all_in in Hw. cbn [list_ascii_of_string forallb] in Hw.
    apply andb_true_iff in Hw as [Hc Hw].
    rewrite append_cons. cbn [Re.span]. rewrite Hc, (IH Hw). reflexivity.
Qed.

Lemma blank_all_in (w : string) : blank w = all_in Py.is_space w.
Proof. apply blank_forallb. Qed.

Lemma spaces_stop (w r : string) :
  blank w = true -> stops Py.is_space r = true -> Re.spaces (w +:+ r) = r.
Proof.
  intros Hw Hr. unfold Re.spaces. rewrite span_stop; [reflexivity | | exact Hr].
  by rewrite <- blank_all_in.
Qed.

Lemma ident_stop (id r : string) :
  is_identifier id = true -> stops Py.is_word r = true ->
  Re.ident (id +:+ r) = Some (id, r).
Proof.
  intros Hid Hr. destruct id as [| c id]; [discriminate |].
  cbn [is_identifier] in Hid. apply andb_true_iff in Hid as [Hc Hid].
  rewrite append_cons. cbn [Re.ident]. rewrite Hc.
  by rewrite (span_stop _ _ _ Hid Hr).
Qed.

Lemma lit_prefix (p r : string) : Re.lit p (p +:+ r) = Some r.
Proof.
  induction p as [| a p IH]; [reflexivity |].
  rewrite append_cons. cbn [Re.lit]. by rewrite Ascii.eqb_refl.
Qed.

Lemma cmp_op_prefix (op r : string) :
  op = "==" \/ op = "!=" -> Re.cmp_op (op +:+ r) = Some (op, r).
Proof.
  intros [-> | ->]; unfold Re.cmp_op.
  - by rewrite lit_prefix.
  - rewrite lit_prefix. reflexivity.
Qed.

Lemma quoted_body_stop (v r : string) :
  is_value v = true ->
  Re.quoted_body (v +:+ Re.quote_lit +:+ r) = Some (v, Re.quote_lit +:+ r).
Proof.
  unfold is_value. intros H. apply andb_true_iff in H as [Hne Hv].
  unfold Re.quoted_body. rewrite (span_stop _ _ _ Hv); [| reflexivity].
  destruct v; [discriminate | reflexivity].
Qed.

Lemma at_end_of_blank (w : string) : blank w = true -> Re.at_end w = true.
Proof.
  intros Hw. unfold Re.at_end.
  rewrite <- (append_nil_r w). by rewrite spaces_stop.
Qed.

Lemma ident_start_not_space (c : ascii) :
  Py.is_ident_start c = true -> Py.is_space c = false.
Proof.
  destruct c as [[] [] [] [] [] [] [] []]; vm_compute;
    intros H; first [discriminate H | reflexivity].
Qed.

Lemma space_not_word (c : ascii) :
  Py.is_space c = true -> Py.is_word c = false.
Proof.
  destruct c as [[] [] [] [] [] [] [] []]; vm_compute;
    intros H; first [discriminate H | reflexivity].
Qed.

Lemma identifier_stops_space (id r : string) :
  is_identifier id = true -> stops Py.is_space (id +:+ r) = true.
Proof.
  destruct id as [| c id]; [discriminate |]. cbn [is_identifier].
  intros H. apply andb_true_iff in H as [Hc _].
  rewrite append_cons. cbn [stops]. by rewrite (ident_start_not_space c Hc).
Qed.

Lemma blank_then_stops_word (w r : string) :
  blank w = true -> stops Py.is_word r = true ->
  stops Py.is_word (w +:+ r) = true.
Proof.
  intros Hw Hr. destruct w as [| c w]; [exact Hr |].
  cbn [blank] in Hw. apply andb_true_iff in Hw as [Hc _].
  rewrite append_cons. cbn [stops]. by rewrite (space_not_word c Hc).
Qed.

Lemma op_stops (op r : string) :
  op = "==" \/ op = "!=" ->
  stops Py.is_word (op +:+ r) = true /\ stops Py.is_space (op +:+ r) = true.
Proof. intros [-> | ->]; split; reflexivity. Qed.

Lemma spaces_split (s : string) :
  exists w, blank w = true /\ s = w +:+ Re.spaces s.
Proof.
  exists (Re.span Py.is_space s).1. split.
  - rewrite blank_all_in. apply span_all.
  - apply span_app.
Qed.

Lemma ident_identifier (s w r : string) :
  Re.ident s = Some (w, r) -> is_identifier w = true.
Proof.
  destruct s as [| c s]; [discriminate |]. cbn [Re.ident].
  destruct (Py.is_ident_start c) eqn:Hc; [| discriminate].
  pose proof (span_all Py.is_word s) as Hall.
  destruct (Re.span Py.is_word s) as [w' r']. simpl in Hall.
  intros [= <- <-]. cbn [is_identifier]. by rewrite Hc.
Qed.

Lemma cmp_op_cases (s op r : string) :
  Re.cmp_op s = Some (op, r) -> op = "==" \/ op = "!=".
Proof.
  unfold Re.cmp_op. destruct (Re.lit "==" s); [intros [= <- _]; by left |].
  destruct (Re.lit "!=" s); [intros [= <- _]; by right | discriminate].
Qed.

Lemma quoted_body_value (s v r : string) :
  Re.quoted_body s = Some (v, r) -> is_value v = true /\ s = v +:+ r.
Proof.
  unfold Re.quoted_body.
  pose proof (span_app (fun c => negb (Py.is_quote c)) s) as Hs.
  pose proof (span_all (fun c => negb (Py.is_quote c)) s) as Hall.
  destruct (Re.span (fun c => negb (Py.is_quote c)) s) as [v' r'].
  simpl in Hs, Hall. destruct v' as [| x v']; [discriminate |].
  intros [= <- <-]. split; [| exact Hs].
  unfold is_value, all_in. by rewrite Hall.
Qed.

(** X1: the atom pattern accepts every text made of an identifier, a dot,
    an identifier, one of the two operators and a non-empty value without
    double quote between double quotes, with any white space before the
    device, around the operator and after the closing quote; the groups of
    the match are the four parts as written. *)
Theorem atom_text_is_matched (w0 dev attr w1 op w2 val w3 : string) :
  blank w0 = true -> blank w1 = true -> blank w2 = true -> blank w3 = true ->
  is_identifier dev = true -> is_identifier attr = true ->
  op = "==" \/ op = "!=" ->
  is_value val = true ->
  Re.TRIG_ATOM_RE_match (atom_text w0 dev attr w1 op w2 val w3) =
    Some (dev, attr, op, val).
Proof.
  intros H0 H1 H2 H3 Hdev Hattr Hop Hval.
  unfold Re.TRIG_ATOM_RE_match, atom_text.
  rewrite (spaces_stop w0) by (done || by apply identifier_stops_space).
  rewrite (ident_stop dev) by done. cbn [mbind option_bind].
  rewrite (lit_prefix "."). cbn [mbind option_bind].
  assert (Hstop : stops Py.is_word
                    (w1 +:+ op +:+ w2 +:+ Re.quote_lit +:+ val
                        +:+ Re.quote_lit +:+ w3) = true)
    by (apply blank_then_stops_word; [done | by apply op_stops]).
  rewrite (ident_stop attr _ Hattr Hstop). cbn [mbind option_bind].
  rewrite (spaces_stop w1) by (done || by apply op_stops).
  rewrite (cmp_op_prefix op) by done. cbn [mbind option_bind].
  rewrite (spaces_stop w2) by done.
  rewrite (lit_prefix Re.quote_lit). cbn [mbind option_bind].
  rewrite (quoted_body_stop val) by done. cbn [mbind option_bind].
  rewrite (lit_prefix Re.quote_lit). cbn [mbind option_bind].
  by rewrite (at_end_of_blank w3).
Qed.

(** An atom with tabs and spaces around its parts. *)
Lemma atom_text_is_matched_witness :
  Re.TRIG_ATOM_RE_match (Py.dq "	 switch1.power  !=	'o ff'  ") =
    Some ("switch1", "power", "!=", "o ff").
Proof.
  apply (atom_text_is_matched "	 " "switch1" "power" "  " "!=" "	" "o ff" "  ");
    first [reflexivity | by right].
Defined.

(** The parts of a text that the atom pattern matches. *)
Lemma atom_match_parts (s dev attr op val : string) :
  Re.TRIG_ATOM_RE_match s = Some (dev, attr, op, val) ->
  exists w0 w1 w2 w3,
    s = atom_text w0 dev attr w1 op w2 val w3 /\
    blank w0 = true /\ blank w1 = true /\ blank w2 = true /\
    blank w3 = true /\
    is_identifier dev = true /\ is_identifier attr = true /\
    (op = "==" \/ op = "!=") /\ is_value val = true.
Proof.
  unfold Re.TRIG_ATOM_RE_match. intros H.
  apply bind_Some in H as ([dev' r1] & E1 & H).
  apply bind_Some in H as (r2 & E2 & H).
  apply bind_Some in H as ([attr' r3] & E3 & H).
  apply bind_Some in H as ([op' r4] & E4 & H).
  apply bind_Some in H as (r5 & E5 & H).
  apply bind_Some in H as ([val' r6] & E6 & H).
  apply bind_Some in H as (r7 & E7 & H).
  destruct (Re.at_end r7) eqn:E8; [| discriminate H].
  injection H as -> -> -> ->.
  destruct (spaces_split s) as (w0 & Hw0 & Hs).
  destruct (spaces_split r3) as (w1 & Hw1 & Hr3).
  destruct (spaces_split r4) as (w2 & Hw2 & Hr4).
  apply quoted_body_value in E6 as [Hval Hr5].
  exists w0, w1, w2, r7. split.
  - unfold atom_text. rewrite Hs at 1. f_equal.
    rewrite (ident_app _ _ _ E1). f_equal.
    rewrite (lit_app _ _ _ E2). f_equal.
    rewrite (ident_app _ _ _ E3). f_equal.
    rewrite Hr3 at 1. f_equal.
    rewrite (cmp_op_app _ _ _ E4). f_equal.
    rewrite Hr4 at 1. f_equal.
    rewrite (lit_app _ _ _ E5). f_equal.
    rewrite Hr5. f_equal. by apply lit_app.
  - repeat split; try done.
    + by apply at_end_blank.
    + by eapply ident_identifier.
    + by eapply ident_identifier.
    + by eapply cmp_op_cases.
Qed.

(** X2: a text that the atom pattern matches is made of the four groups of
    the match as the pattern lays them out, with white space only before the
    device, around the operator and after the closing quote: the device and
    the attribute are identifiers joined by one dot with nothing else between
    them, the operator is [==] or [!=], and the value is not empty and has no
    double quote. *)
Theorem matched_text_is_atom (s dev attr op val : string) :
  Re.TRIG_ATOM_RE_match s = Some (dev, attr, op, val) ->
  exists w0 w1 w2 w3,
    s = atom_text w0 dev attr w1 op w2 val w3 /\
    blank w0 = true /\ blank w1 = true /\ blank w2 = true /\
    blank w3 = true /\
    is_identifier dev = true /\ is_identifier attr = true /\
    (op = "==" \/ op = "!=") /\ is_value val = true.
Proof. exact (atom_match_parts s dev attr op val). Qed.

(** The atom of scenario A, with its parts. *)
Lemma matched_text_is_atom_witness :
  exists w0 w1 w2 w3,
    Py.dq "switch1.power == 'off'" =
      atom_text w0 "switch1" "power" w1 "==" w2 "off" w3 /\
    blank w0 = true /\ blank w1 = true /\ blank w2 = true /\
    blank w3 = true.
Proof.
  destruct (matched_text_is_atom (Py.dq "switch1.power == 'off'")
              "switch1" "power" "==" "off" eq_refl)
    as (w0 & w1 & w2 & w3 & Hs & H0 & H1 & H2 & H3 & _).
  by exists w0, w1, w2, w3.
Defined.

(** X3: the action pattern accepts every text made of an identifier, a
    dot, an identifier and an empty pair of parentheses, with any white
    space before and after; the groups are the device and the command. *)
Theorem action_text_is_matched (w0 dev cmd w1 : string) :
  blank w0 = true -> blank w1 = true ->
  is_identifier dev = true -> is_identifier cmd = true ->
  Re.ACTION_RE_match (action_text w0 dev cmd w1) = Some (dev, cmd).
Proof.
  intros H0 H1 Hdev Hcmd. unfold Re.ACTION_RE_match, action_text.
  rewrite (spaces_stop w0) by (done || by apply identifier_stops_space).
  rewrite (ident_stop dev) by done. cbn [mbind option_bind].
  rewrite (lit_prefix "."). cbn [mbind option_bind].
  rewrite (ident_stop cmd) by done. cbn [mbind option_bind].
  rewrite (lit_prefix "()"). cbn [mbind option_bind].
  by rewrite (at_end_of_blank w1).
Qed.

(** The action of scenario A between spaces. *)
Lemma action_text_is_matched_witness :
  Re.ACTION_RE_match " switch1.toggle()  " = Some ("switch1", "toggle").
Proof.
  apply (action_text_is_matched " " "switch1" "toggle" "  "); reflexivity.
Defined.

(** X4: a text that the action pattern matches is the device, a dot, the
    command and an empty pair of parentheses, with white space only before
    the device and after the closing parenthesis; both groups are
    identifiers, so an action with arguments, or with a space before the
    parentheses, is not matched. *)
Theorem matched_text_is_action (s dev cmd : string) :
  Re.ACTION_RE_match s = Some (dev, cmd) ->
  exists w0 w1,
    s = action_text w0 dev cmd w1 /\
    blank w0 = true /\ blank w1 = true /\
    is_identifier dev = true /\ is_identifier cmd = true.
Proof.
  unfold Re.ACTION_RE_match. intros H.
  apply bind_Some in H as ([dev' r1] & E1 & H).
  apply bind_Some in H as (r2 & E2 & H).
  apply bind_Some in H as ([cmd' r3] & E3 & H).
  apply bind_Some in H as (r4 & E4 & H).
  destruct (Re.at_end r4) eqn:E5; [| discriminate H].
  injection H as -> ->.
  destruct (spaces_split s) as (w0 & Hw0 & Hs).
  exists w0, r4. split.
  - unfold action_text. rewrite Hs at 1. f_equal.
    rewrite (ident_app _ _ _ E1). f_equal.
    rewrite (lit_app _ _ _ E2). f_equal.
    rewrite (ident_app _ _ _ E3). f_equal. by apply lit_app.
  - repeat split; try done.
    + by apply at_end_blank.
    + by eapply ident_identifier.
    + by eapply ident_identifier.
Qed.

(** The action of scenario A, with its parts. *)
Lemma matched_text_is_action_witness :
  exists w0 w1,
    "switch1.toggle()" = action_text w0 "switch1" "toggle" w1 /\
    blank w0 = true /\ blank w1 = true.
Proof.
  destruct (matched_text_is_action "switch1.toggle()" "switch1" "toggle"
              eq_refl) as (w0 & w1 & Hs & H0 & H1 & _).
  by exists w0, w1.
Defined.

(** ** The message of a misplaced operator *)

Lemma validate_atom_no_bool_op atom dev_map cd ops :
  writes (fun e => is_expected_bool_op e = false)
    (validate_atom atom dev_map cd ops).
Proof.
  unfold validate_atom.
  destruct (Re.TRIG_ATOM_RE_match atom) as [[[[dev attr] op] val] |];
    writes_auto.
Qed.

Lemma is_conn_mem (c : string) (bool_ops : list string) :
  Py.mem "&&" bool_ops = true -> Py.mem "||" bool_ops = true ->
  is_conn c -> Py.mem c bool_ops = true.
Proof. by intros H1 H2 [-> | ->]. Qed.

Section NoMisplaced.

Context (dev_map : gmap string string) (cd : gmap string CapType)
        (bool_ops ops : list string).
Hypothesis Hand : Py.mem "&&" bool_ops = true.
Hypothesis Hor : Py.mem "||" bool_ops = true.

Local Abbreviation step := (trigger_step dev_map cd bool_ops ops).
Local Abbreviation quiet_msg :=
  (Forall (fun e => is_expected_bool_op e = false)).

Lemma walk_atom_quiet (a : string) :
  quiet_msg (emitted (for_fold [a] true step)) /\
  forall b, outcome (for_fold [a] true step) = Ret b -> b = false.
Proof.
  unfold emitted, outcome. cbn [for_fold]. unfold trigger_step, bind, ret.
  pose proof (proj2 (validate_atom_no_bool_op a dev_map cd ops)) as Hq.
  unfold emitted in Hq.
  destruct (validate_atom a dev_map cd ops []) as [[[] | e] errs'];
    simpl in *.
  - split; [exact Hq | by intros b [= <-]].
  - split; [exact Hq | intros b H; discriminate H].
Qed.

Lemma walk_pair_quiet (a c : string) :
  is_conn c ->
  quiet_msg (emitted (for_fold [a; c] true step)) /\
  forall b, outcome (for_fold [a; c] true step) = Ret b -> b = true.
Proof.
  intros Hc. pose proof (is_conn_mem c bool_ops Hand Hor Hc) as Hmem.
  unfold emitted, outcome. cbn [for_fold]. unfold trigger_step, bind, ret.
  pose proof (proj2 (validate_atom_no_bool_op a dev_map cd ops)) as Hq.
  unfold emitted in Hq.
  destruct (validate_atom a dev_map cd ops []) as [[[] | e] errs'];
    simpl in *.
  - rewrite Hmem. simpl. split; [exact Hq | by intros b [= <-]].
  - split; [exact Hq | intros b H; discriminate H].
Qed.

Lemma walk_paired_quiet (toks : list string) :
  paired toks ->
  quiet_msg (emitted (for_fold toks true step)) /\
  forall b, outcome (for_fold toks true step) = Ret b -> b = true.
Proof.
  induction 1 as [| toks a c _ [IHq IHb] Hc].
  - split; [constructor |]. by intros b [= <-].
  - rewrite walk_app_emitted, walk_app_outcome.
    destruct (outcome (for_fold toks true step)) as [b' | e] eqn:Hout.
    + rewrite (IHb b' eq_refl).
      destruct (walk_pair_quiet a c Hc) as [Hq Hb].
      split; [| exact Hb]. apply Forall_app. by split.
    + rewrite app_nil_r. by split.
Qed.

Lemma walk_tokens_quiet (expr : string) :
  quiet_msg (emitted (for_fold (split_bool expr bool_ops) true step)).
Proof.
  destruct (split_bool_shape expr bool_ops)
    as [Hp | (toks & a & -> & Hp & _)].
  - by apply walk_paired_quiet.
  - destruct (walk_paired_quiet toks Hp) as [Hq Hb].
    rewrite walk_app_emitted.
    destruct (outcome (for_fold toks true step)) as [b' | e] eqn:Hout.
    + rewrite (Hb b' eq_refl). apply Forall_app. split; [exact Hq |].
      apply walk_atom_quiet.
    + by rewrite app_nil_r.
Qed.

End NoMisplaced.

(** X5: when the schema lists both [&&] and [||] among its boolean
    operators, the check of a trigger never records the message of a
    misplaced operator ([Expected boolean op between atoms]), whatever the
    expression is: the tokenizer only puts connectives in the operator
    positions, so that message can only appear when the schema leaves out a
    connective that the tokenizer splits on. *)
Theorem no_misplaced_operator_message (expr : string)
    (dev_map : gmap string string) (caps_devices : gmap string CapType)
    (bool_ops ops : list string) :
  Py.mem "&&" bool_ops = true ->
  Py.mem "||" bool_ops = true ->
  Forall (fun e => is_expected_bool_op e = false)
    (emitted (validate_trigger expr dev_map caps_devices bool_ops ops)).
Proof.
  intros Hand Hor. unfold validate_trigger.
  rewrite emitted_bind;
    [| apply walk_writes | intros; by apply writes_err_if].
  apply Forall_app. split; [by apply walk_tokens_quiet |].
  destruct (outcome _) as [b | e]; [| constructor].
  destruct (negb (bool_decide (split_bool expr bool_ops = [])) && b);
    repeat constructor.
Qed.

(** Three connectives in a row, with the connectives of [caps.json]. *)
Lemma no_misplaced_operator_message_witness :
  Forall (fun e => is_expected_bool_op e = false)
    (emitted (validate_trigger "&& || &&" dev_map_A caps_devices_A
                ["&&"; "||"] ["=="; "!="])).
Proof.
  apply (no_misplaced_operator_message "&& || &&" dev_map_A caps_devices_A
           ["&&"; "||"] ["=="; "!="]); reflexivity.
Defined.

(** The message does appear when the schema lists [&&] only. *)
Example misplaced_operator_ex :
  emitted (validate_trigger (Py.dq "switch1.power == 'on' || switch1.power == 'off'")
             dev_map_A caps_devices_A ["&&"] ["=="; "!="]) =
    [ExpectedBoolOp "||"].
Proof. reflexivity. Qed.

(** ** The device check *)

Lemma has_insert {V} (d : gmap string V) (i k : string) (v : V) :
  has (<[i := v]> d) k = String.eqb i k || has d k.
Proof.
  unfold has. destruct (String.eqb_spec i k) as [-> | Hne].
  - rewrite lookup_insert_eq. reflexivity.
  - rewrite lookup_insert_ne by done. reflexivity.
Qed.

Lemma device_map_app cd (ds : list Device) (d : Device) :
  device_map cd (ds ++ [d]) = record_device cd (device_map cd ds) d.
Proof. unfold device_map. by rewrite fold_left_app. Qed.

(** The map of the device loop: the last accepted device of an id wins. *)
Lemma device_map_spec (cd : gmap string CapType) (ds : list Device)
    (k t : string) :
  device_map cd ds !! k = Some t <->
  exists ds1 d ds2,
    ds = ds1 ++ d :: ds2 /\ accepted cd d = Some (k, t) /\
    Forall (fun d' => declares cd k d' = false) ds2.
Proof.
  revert k t. induction ds as [| d ds IH] using rev_ind; intros k t.
  - split.
    + unfold device_map. cbn [fold_left]. by rewrite lookup_empty.
    + intros (ds1 & d & ds2 & H & _). by destruct ds1.
  - rewrite device_map_app. unfold record_device.
    pose proof (IH k t) as Hdm.
    destruct (accepted cd d) as [[did dtype] |] eqn:Hacc.
    + destruct (decide (did = k)) as [-> | Hne].
      * rewrite lookup_insert_eq. split.
        -- intros [= ->]. exists ds, d, []. by repeat split.
        -- intros (ds1 & d' & ds2 & Heq & Hacc' & Hlast).
           destruct ds2 as [| x ds2 _] using rev_ind.
           ++ apply app_inj_tail in Heq as [_ <-]. congruence.
           ++ rewrite app_comm_cons, app_assoc in Heq.
              apply app_inj_tail in Heq as [_ <-].
              apply Forall_app in Hlast as [_ Hx].
              inversion Hx as [| ? ? Hd _]; subst.
              unfold declares in Hd. rewrite Hacc in Hd.
              by rewrite String.eqb_refl in Hd.
      * rewrite lookup_insert_ne by done. rewrite Hdm. split.
        -- intros (ds1 & d' & ds2 & -> & Hacc' & Hlast).
           exists ds1, d', (ds2 ++ [d]). split; [by rewrite <- app_assoc |].
           split; [exact Hacc' |]. apply Forall_app. split; [exact Hlast |].
           constructor; [| constructor]. unfold declares. rewrite Hacc.
           by apply String.eqb_neq.
        -- intros (ds1 & d' & ds2 & Heq & Hacc' & Hlast).
           destruct ds2 as [| x ds2 _] using rev_ind.
           ++ apply app_inj_tail in Heq as [_ <-]. congruence.
           ++ rewrite app_comm_cons, app_assoc in Heq.
              apply app_inj_tail in Heq as [-> <-].
              apply Forall_app in Hlast as [Hlast _].
              by exists ds1, d', ds2.
    + rewrite Hdm. split.
      * intros (ds1 & d' & ds2 & -> & Hacc' & Hlast).
        exists ds1, d', (ds2 ++ [d]). split; [by rewrite <- app_assoc |].
        split; [exact Hacc' |]. apply Forall_app. split; [exact Hlast |].
        constructor; [| constructor]. unfold declares. by rewrite Hacc.
      * intros (ds1 & d' & ds2 & Heq & Hacc' & Hlast).
        destruct ds2 as [| x ds2 _] using rev_ind.
        -- apply app_inj_tail in Heq as [_ <-]. congruence.
        -- rewrite app_comm_cons, app_assoc in Heq.
           apply app_inj_tail in Heq as [-> <-].
           apply Forall_app in Hlast as [Hlast _].
           by exists ds1, d', ds2.
Qed.

(** X6: on a list of devices, the device check raises [TypeError] when
    the list holds a device with its three keys and a type of the schema
    whose attributes cannot be iterated ([null], a number or a boolean), and
    returns otherwise.  The map it returns gives to an id the type of the
    last accepted device that declares the id: a device with its three keys
    and a type of the schema overrides the earlier ones with the same id,
    and a device without a key or with an unknown type leaves the map as it
    is. *)
Theorem device_map_last_wins (spec : Spec) (caps_root : Caps)
    (ds : list Device) :
  devices spec = Items ds ->
  let cd := default ∅ (caps_devices caps_root) in
  (existsb (raising_device cd) ds = true ->
   outcome (validate_devices spec caps_root) = Raise TypeError) /\
  (existsb (raising_device cd) ds = false ->
   exists dm,
     outcome (validate_devices spec caps_root) = Ret (dm, cd) /\
     forall k t,
       dm !! k = Some t <->
       exists ds1 d ds2,
         ds = ds1 ++ d :: ds2 /\ accepted cd d = Some (k, t) /\
         Forall (fun d' => declares cd k d' = false) ds2).
Proof.
  intros Hds cd. rewrite validate_devices_outcome, Hds. cbn zeta. fold cd.
  split; intros ->; [reflexivity |].
  exists (device_map cd ds). split; [reflexivity |]. apply device_map_spec.
Qed.

(** Scenario D: the id [sensor1] is resolved to the type of the second
    device.  With [null] for the attributes of its device, the check of
    scenario A raises. *)
Lemma device_map_last_wins_witness :
  (exists dm,
     outcome (validate_devices spec_D caps_D) =
       Ret (dm, default ∅ (caps_devices caps_D)) /\
     dm !! "sensor1" = Some "motion") /\
  outcome (validate_devices spec_null_attributes caps_A) = Raise TypeError.
Proof.
  split.
  - destruct (device_map_last_wins spec_D caps_D
                [sensor1_presence; sensor1_motion] eq_refl) as [_ Hret].
    destruct (Hret eq_refl) as (dm & Hout & Hdm).
    exists dm. split; [exact Hout |]. apply Hdm.
    exists [sensor1_presence], sensor1_motion, [].
    repeat split. constructor.
  - by apply (device_map_last_wins spec_null_attributes caps_A
                [switch1_null] eq_refl).
Defined.

(** With the text [power] for the attributes of the device of scenario A
    the check compares each character with the attributes of the type. *)
Example attributes_text_is_iterated :
  validate_device (default ∅ (caps_devices caps_A)) ∅
    {| d_id := Some "switch1"; d_type := Some "switch";
       d_attributes := NotAList (Some ["p"; "o"; "w"; "e"; "r"]) |} [] =
    (Ret {[ "switch1" := "switch" ]},
     [DeviceAttributesInvalid "switch1" ["e"; "o"; "p"; "r"; "w"]]).
Proof. vm_compute. reflexivity. Qed.

(** The ids in the map of the device loop are those that an accepted
    device declares. *)
Lemma record_device_has cd (dm : gmap string string) (d : Device)
    (k : string) :
  has (record_device cd dm d) k = declares cd k d || has dm k.
Proof.
  unfold record_device, declares.
  destruct (accepted cd d) as [[did dtype] |]; [apply has_insert | done].
Qed.

Lemma device_map_has cd (ds : list Device) (k : string) :
  has (device_map cd ds) k = existsb (declares cd k) ds.
Proof.
  induction ds as [| d ds IH] using rev_ind; [reflexivity |].
  rewrite device_map_app, record_device_has, existsb_app, IH.
  cbn [existsb]. rewrite orb_false_r. apply orb_comm.
Qed.

Lemma validate_device_no_required cd dev_map d :
  writes (fun e => is_required_missing e = false)
    (validate_device cd dev_map d).
Proof. unfold validate_device. writes_auto. Qed.

Lemma emitted_required (dm : gmap string string) :
  emitted (for_each required_devices (required_check dm)) =
    List.concat
      (map (fun must => if has dm must then []
                        else [RequiredDeviceMissing must])
         required_devices).
Proof.
  unfold emitted, for_each, required_devices, required_check.
  cbn [for_fold map List.concat]. unfold bind.
  destruct (has dm "presenceSensor"), (has dm "motionSensor"),
    (has dm "switch"); reflexivity.
Qed.

(** X7: the message [Required device missing] is recorded for an id
    exactly when the loop over the devices returns, the id is one of
    [presenceSensor], [motionSensor] and [switch], and no accepted device
    declares it; a device of that name with an unknown type, or without one
    of its three keys, does not count. *)
Theorem required_device_message (spec : Spec) (caps_root : Caps)
    (ds : list Device) (must : string) :
  devices spec = Items ds ->
  In (RequiredDeviceMissing must) (emitted (validate_devices spec caps_root))
  <->
  existsb (raising_device (default ∅ (caps_devices caps_root))) ds = false /\
  In must required_devices /\
  existsb (declares (default ∅ (caps_devices caps_root)) must) ds = false.
Proof.
  intros Hds. rewrite device_messages_spec. unfold device_messages.
  rewrite Hds. set (cd := default ∅ (caps_devices caps_root)).
  rewrite device_loop_outcome. fold (device_map cd ds).
  set (dm := device_map cd ds).
  assert (Hloop : ~ In (RequiredDeviceMissing must)
                      (List.concat (per_item ds ∅ (validate_device cd)))).
  { rewrite <- emitted_for_fold
      by (intros; eapply writes_any, validate_device_writes).
    intros Hin.
    pose proof (proj2 (writes_for_fold _ ds ∅ _
                  (fun s x => validate_device_no_required cd s x))) as Hall.
    rewrite List.Forall_forall in Hall. by apply Hall in Hin. }
  assert (Hhas : forall k, has dm k = existsb (declares cd k) ds)
    by (intros; apply device_map_has).
  rewrite in_app_iff.
  destruct (existsb (raising_device cd) ds);
    [split; [by intros [Hin | []] | by intros [? _]] |].
  rewrite <- emitted_for_each
    by (intros; eapply writes_any, required_check_writes).
  rewrite emitted_required. split.
  - intros [Hin | Hin]; [contradiction |].
    apply in_concat in Hin as (l & Hl & Hin).
    apply in_map_iff in Hl as (m & <- & Hm).
    rewrite Hhas in Hin.
    destruct (existsb (declares cd m) ds) eqn:E; [contradiction |].
    destruct Hin as [[= <-] | []]. by repeat split.
  - intros (_ & Hm & E). right. apply in_concat.
    exists [RequiredDeviceMissing must]. split; [| by left].
    apply in_map_iff. exists must. split; [| exact Hm].
    by rewrite Hhas, E.
Qed.

(** Scenario D declares none of the three required devices. *)
Lemma required_device_message_witness :
  In (RequiredDeviceMissing "switch") (emitted (validate_devices spec_D caps_D)).
Proof.
  apply (required_device_message spec_D caps_D
           [sensor1_presence; sensor1_motion] "switch" eq_refl).
  split; [reflexivity | split; [simpl; auto | reflexivity]].
Defined.

Lemma sorted_set_nil (l : list string) : Py.sorted_set l = [] <-> l = [].
Proof.
  split; [| by intros ->]. destruct l as [| x l]; [done |]. intros H.
  exfalso. assert (Hin : In x (Py.sorted_set (x :: l)))
    by (apply sorted_set_In; by left).
  rewrite H in Hin. inversion Hin.
Qed.

Lemma forallb_filter_nil {A} (f : A -> bool) (l : list A) :
  forallb f l = true <-> List.filter (fun a => negb (f a)) l = [].
Proof.
  induction l as [| x l IH]; [done |]. simpl.
  destruct (f x); simpl; [exact IH | split; discriminate].
Qed.

(** What the body of the device loop records for an accepted device. *)
Lemma validate_device_emitted cd dev_map d did dtype attrs ct :
  d_id d = Some did -> d_type d = Some dtype ->
  d_attributes d <> Absent -> items_of (d_attributes d) = Some attrs ->
  cd !! dtype = Some ct ->
  emitted (validate_device cd dev_map d) =
    (if has dev_map did then [DuplicateDeviceId did] else []) ++
    match Py.sorted_set
            (List.filter (fun a => negb (has (attributes ct) a)) attrs) with
    | [] => []
    | invalid => [DeviceAttributesInvalid did invalid]
    end.
Proof.
  intros Hid Hty Hpres Hat Hct.
  assert (Hhas : has cd dtype = true)
    by (unfold has; rewrite Hct; by apply bool_decide_eq_true).
  assert (Hbody : validate_device cd dev_map d [] =
            (err_if (has dev_map did) (DuplicateDeviceId did) ;;
             ct <- getitem cd dtype ;;
             got_attrs <- iterate (d_attributes d) ;;
             err_if (negb (forallb (has (attributes ct)) got_attrs))
               (DeviceAttributesInvalid did
                  (Py.sorted_set
                     (List.filter (fun a => negb (has (attributes ct) a))
                        got_attrs))) ;;
             ret (<[did := dtype]> dev_map))%M []).
  { unfold validate_device. rewrite Hid, Hty, Hhas.
    by destruct (d_attributes d). }
  unfold emitted. rewrite Hbody.
  rewrite bind_err_if, (bind_getitem _ _ _ _ _ Hct),
    (bind_iterate _ attrs) by exact Hat.
  rewrite bind_err_if.
  destruct (forallb (has (attributes ct)) attrs) eqn:Hall.
  - pose proof (proj1 (forallb_filter_nil _ _) Hall) as Hnil.
    rewrite Hnil. cbn [negb Py.sorted_set fold_right ret].
    destruct (has dev_map did); reflexivity.
  - cbn [negb ret].
    destruct (Py.sorted_set
                (List.filter (fun a => negb (has (attributes ct) a)) attrs))
      as [| x l] eqn:Hs.
    + apply sorted_set_nil, forallb_filter_nil in Hs. congruence.
    + destruct (has dev_map did); reflexivity.
Qed.

(** X8: for a device with its three keys and a type of the schema, the
    message [Device ... attributes invalid] is recorded exactly when the
    device lists an attribute that its type does not have; the list in the
    message is in increasing order and holds each such attribute once, and
    nothing else.  The attributes that the device lists are the items that
    iterating the value of the key yields. *)
Theorem invalid_attributes_are_listed (cd : gmap string CapType)
    (dev_map : gmap string string) (d : Device)
    (did dtype : string) (attrs : list string) (ct : CapType) :
  d_id d = Some did -> d_type d = Some dtype ->
  d_attributes d <> Absent -> items_of (d_attributes d) = Some attrs ->
  cd !! dtype = Some ct ->
  exists invalid,
    emitted (validate_device cd dev_map d) =
      (if has dev_map did then [DuplicateDeviceId did] else []) ++
      match invalid with
      | [] => []
      | _ => [DeviceAttributesInvalid did invalid]
      end /\
    StronglySorted String_as_OT.lt invalid /\
    forall a, In a invalid <-> In a attrs /\ attributes ct !! a = None.
Proof.
  intros Hid Hty Hpres Hat Hct.
  exists (Py.sorted_set
            (List.filter (fun a => negb (has (attributes ct) a)) attrs)).
  split.
  { rewrite (validate_device_emitted cd dev_map d did dtype attrs ct)
      by done.
    by destruct (Py.sorted_set _). }
  split; [apply sorted_set_sorted |].
  intros a. rewrite sorted_set_In, filter_In. split.
  - intros [Hin Hno]. split; [exact Hin |].
    apply negb_true_iff in Hno. by apply has_false.
  - intros [Hin Hno]. split; [exact Hin |].
    apply negb_true_iff. unfold has. rewrite Hno.
    apply bool_decide_eq_false. by intros [? ?].
Qed.

(** The second device of scenario D lists two attributes that its type
    does not have, one of them twice. *)
Lemma invalid_attributes_are_listed_witness :
  exists invalid,
    emitted (validate_device (default ∅ (caps_devices caps_D))
               {[ "sensor1" := "presence" ]} sensor1_motion) =
      [DuplicateDeviceId "sensor1"] ++
      match invalid with
      | [] => []
      | _ => [DeviceAttributesInvalid "sensor1" invalid]
      end /\
    StronglySorted String_as_OT.lt invalid /\
    In "battery" invalid /\ In "colour" invalid /\ ~ In "motion" invalid.
Proof.
  assert (Hpres : d_attributes sensor1_motion <> Absent) by discriminate.
  destruct (invalid_attributes_are_listed (default ∅ (caps_devices caps_D))
              {[ "sensor1" := "presence" ]} sensor1_motion
              "sensor1" "motion" ["motion"; "battery"; "colour"; "battery"]
              {| attributes := {[ "motion" := ["active"; "inactive"] ]};
                 actions := [] |}
              eq_refl eq_refl Hpres eq_refl eq_refl)
    as (invalid & Hemit & Hsorted & Hin).
  exists invalid. split; [exact Hemit |]. split; [exact Hsorted |].
  split; [| split].
  - apply Hin. split; [simpl; auto | reflexivity].
  - apply Hin. split; [simpl; auto | reflexivity].
  - intros H. apply Hin in H as [_ H]. discriminate H.
Defined.

Lemma emitted_for_fold_app {A S} (xs ys : list A) (s : S)
    (body : S -> A -> M S) :
  (forall s x, writes (fun _ => True) (body s x)) ->
  emitted (for_fold (xs ++ ys) s body) =
    emitted (for_fold xs s body) ++
    match outcome (for_fold xs s body) with
    | Ret s' => emitted (for_fold ys s' body)
    | Raise _ => []
    end.
Proof.
  intros Hw. unfold emitted at 1. rewrite for_fold_app.
  apply (emitted_bind (for_fold xs s body) (fun s' => for_fold ys s' body));
    [by apply writes_for_fold | intros; by apply writes_for_fold].
Qed.

Lemma emitted_for_fold_one {A S} (x : A) (s : S) (body : S -> A -> M S) :
  (forall s x, writes (fun _ => True) (body s x)) ->
  emitted (for_fold [x] s body) = emitted (body s x).
Proof.
  intros Hw. cbn [for_fold]. apply (emitted_bind_ret (body s x) (fun s' => s')).
  apply Hw.
Qed.

Lemma existsb_filter {A} (f : A -> bool) (l : list A) :
  existsb f l = match List.filter f l with [] => false | _ => true end.
Proof.
  induction l as [| x l IH]; [reflexivity |]. simpl.
  destruct (f x); [reflexivity | exact IH].
Qed.

Lemma validate_device_emitted_raise cd dev_map d did dtype ct :
  d_id d = Some did -> d_type d = Some dtype ->
  items_of (d_attributes d) = None -> cd !! dtype = Some ct ->
  emitted (validate_device cd dev_map d) =
    if has dev_map did then [DuplicateDeviceId did] else [].
Proof.
  intros Hid Hty Hat Hct.
  assert (Hhas : has cd dtype = true)
    by (unfold has; rewrite Hct; by apply bool_decide_eq_true).
  unfold validate_device, emitted. rewrite Hid, Hty, Hhas. cbn [negb].
  destruct (d_attributes d) as [| items | attrs] eqn:Hd; [discriminate Hat | |];
    rewrite bind_err_if, (bind_getitem _ _ _ _ _ Hct), bind_iterate_raise
      by exact Hat;
    by destruct (has dev_map did).
Qed.

Lemma validate_device_dups cd dev_map d (k : string) :
  List.length
    (List.filter (is_duplicate_of k) (emitted (validate_device cd dev_map d))) =
    if declares cd k d && has dev_map k then 1 else 0.
Proof.
  unfold declares.
  destruct (accepted cd d) as [[did dtype] |] eqn:Hacc; cycle 1.
  { assert (Hw : writes (fun e => is_duplicate_of k e = false)
                   (validate_device cd dev_map d)).
    { revert Hacc. unfold validate_device, accepted.
      destruct (d_id d) as [did |]; [| intros; writes_auto].
      destruct (d_type d) as [dtype |]; [| intros; writes_auto].
      destruct (d_attributes d) as [| items | attrs]; [intros; writes_auto | |];
        (destruct (has cd dtype); [discriminate | intros; writes_auto]). }
    destruct Hw as [_ Hall]. cbn [andb].
    induction Hall as [| e l He _ IH]; [reflexivity |].
    cbn [List.filter]. by rewrite He. }
  apply accepted_inv in Hacc as (Hid & Hty & Hpres & [ct Hct]).
  assert (Hattr : forall l,
            List.filter (is_duplicate_of k)
              match l with
              | [] => []
              | _ => [DeviceAttributesInvalid did l]
              end = []) by (by intros [| ? ?]).
  destruct (items_of (d_attributes d)) as [attrs |] eqn:Hat.
  - rewrite (validate_device_emitted cd dev_map d did dtype attrs ct) by done.
    rewrite List.filter_app, length_app.
    destruct (String.eqb_spec did k) as [-> | Hne].
    + destruct (has dev_map k); simpl.
      * rewrite String.eqb_refl.
        by destruct (Py.sorted_set _).
      * by destruct (Py.sorted_set _).
    + apply String.eqb_neq in Hne.
      destruct (has dev_map did); simpl; rewrite ?Hne;
        by destruct (Py.sorted_set _).
  - rewrite (validate_device_emitted_raise cd dev_map d did dtype ct) by done.
    destruct (String.eqb_spec did k) as [-> | Hne].
    + destruct (has dev_map k); simpl; [by rewrite String.eqb_refl | done].
    + apply String.eqb_neq in Hne.
      destruct (has dev_map did); simpl; by rewrite ?Hne.
Qed.

(** The duplicates that the device loop records from a map [dm0] on. *)
Lemma device_loop_dups cd (ds : list Device) (dm0 : gmap string string)
    (k : string) :
  List.length
    (List.filter (is_duplicate_of k)
       (emitted (for_fold ds dm0 (validate_device cd)))) =
    if has dm0 k
    then List.length (List.filter (declares cd k) (reached cd ds))
    else pred (List.length (List.filter (declares cd k) (reached cd ds))).
Proof.
  assert (Hw : forall s x, writes (fun _ => True) (validate_device cd s x))
    by (intros; eapply writes_any, validate_device_writes).
  revert dm0. induction ds as [| d ds IH]; intros dm0;
    [by destruct (has dm0 k) |].
  cbn [for_fold reached].
  rewrite emitted_bind; [| apply Hw | intros; by apply writes_for_fold].
  rewrite validate_device_outcome, List.filter_app, length_app,
    validate_device_dups.
  cbn [List.filter].
  destruct (raising_device cd d).
  - cbn [List.filter List.length].
    destruct (declares cd k d), (has dm0 k); reflexivity.
  - rewrite IH, record_device_has.
    destruct (declares cd k d), (has dm0 k); cbn [orb andb List.length];
      try reflexivity;
      destruct (List.filter (declares cd k) (reached cd ds)); simpl; lia.
Qed.

Lemma reached_all cd (ds : list Device) :
  existsb (raising_device cd) ds = false -> reached cd ds = ds.
Proof.
  induction ds as [| d ds IH]; [reflexivity |]. cbn [existsb reached].
  destruct (raising_device cd d); [discriminate |].
  intros H. by rewrite IH.
Qed.

Lemma required_no_dups (dm : gmap string string) (k : string) :
  List.filter (is_duplicate_of k)
    (emitted (for_each required_devices (required_check dm))) = [].
Proof.
  rewrite emitted_required. unfold required_devices.
  cbn [map List.concat].
  destruct (has dm "presenceSensor"), (has dm "motionSensor"),
    (has dm "switch"); reflexivity.
Qed.

(** X9: the number of messages [Duplicate device id] that the device check
    records for an id is one less than the number of accepted devices that
    declare the id (and none when no device does), among the devices that
    the loop reaches: each accepted device after the first one with the same
    id is flagged once, and the devices that are not accepted are not
    counted.  The loop reaches every device of the list when it raises on
    none. *)
Theorem duplicate_device_messages (spec : Spec) (caps_root : Caps)
    (ds : list Device) (k : string) :
  devices spec = Items ds ->
  List.length
    (List.filter (is_duplicate_of k)
       (emitted (validate_devices spec caps_root))) =
    pred (List.length
            (List.filter (declares (default ∅ (caps_devices caps_root)) k)
               (reached (default ∅ (caps_devices caps_root)) ds))) /\
  (existsb (raising_device (default ∅ (caps_devices caps_root))) ds = false ->
   reached (default ∅ (caps_devices caps_root)) ds = ds).
Proof.
  intros Hds. split; [| apply reached_all].
  rewrite device_messages_spec. unfold device_messages.
  rewrite Hds. set (cd := default ∅ (caps_devices caps_root)).
  rewrite <- emitted_for_fold
    by (intros; eapply writes_any, validate_device_writes).
  rewrite List.filter_app, length_app, (device_loop_dups cd ds ∅ k).
  replace (has (∅ : gmap string string) k) with false by reflexivity.
  destruct (outcome _) as [dm | e]; [| cbn [List.filter List.length]; lia].
  rewrite <- emitted_for_each
    by (intros; eapply writes_any, required_check_writes).
  rewrite required_no_dups. cbn [List.length]. lia.
Qed.

(** Scenario D: one message for the two devices with the id [sensor1]. *)
Lemma duplicate_device_messages_witness :
  List.length
    (List.filter (is_duplicate_of "sensor1")
       (emitted (validate_devices spec_D caps_D))) = 1.
Proof.
  exact (proj1 (duplicate_device_messages spec_D caps_D
                  [sensor1_presence; sensor1_motion] "sensor1" eq_refl)).
Defined.

(** ** What the atom check and the trigger check accept *)

Lemma has_lookup {V} (d : gmap string V) (k : string) :
  has d k = match d !! k with Some _ => true | None => false end.
Proof.
  unfold has. destruct (d !! k).
  - by apply bool_decide_eq_true.
  - apply bool_decide_eq_false. by intros [? ?].
Qed.

Lemma validate_atom_clean s dev_map cd ops :
  clean (validate_atom s dev_map cd ops) tt <->
  atom_accepted dev_map cd ops s = true.
Proof.
  unfold validate_atom, atom_accepted, clean.
  destruct (Re.TRIG_ATOM_RE_match s) as [[[[dev attr] op] val] |];
    [| by split].
  rewrite has_lookup. cbn [atom_known].
  destruct (dev_map !! dev) as [dtype |] eqn:Hdt; cbn [negb]; [| by split].
  rewrite (bind_getitem _ _ _ _ _ Hdt).
  destruct (cd !! dtype) as [ct |] eqn:Hct.
  - rewrite (bind_getitem _ _ _ _ _ Hct), has_lookup.
    destruct (attributes ct !! attr) as [vals |] eqn:Hv; cbn [negb];
      [| by split].
    rewrite bind_err_if, (bind_getitem _ _ _ _ _ Hct),
      (bind_getitem _ _ _ _ _ Hv).
    destruct (Py.mem op ops), (Py.mem val vals); by split.
  - unfold bind, getitem. rewrite Hct. by split.
Qed.

Lemma check_invariant_clean s sid dev_map cd ops :
  clean (check_invariant dev_map cd ops sid s) tt <->
  atom_accepted dev_map cd ops s = true.
Proof.
  unfold check_invariant, atom_accepted, clean.
  destruct (Re.TRIG_ATOM_RE_match s) as [[[[dev attr] op] val] |];
    [| by split].
  rewrite has_lookup. cbn [atom_known].
  destruct (dev_map !! dev) as [dtype |] eqn:Hdt; cbn [negb]; [| by split].
  rewrite (bind_getitem _ _ _ _ _ Hdt).
  destruct (cd !! dtype) as [ct |] eqn:Hct.
  - rewrite (bind_getitem _ _ _ _ _ Hct), has_lookup, !bind_err_if,
      (bind_getitem _ _ _ _ _ Hct).
    destruct (attributes ct !! attr) as [vals |] eqn:Hv; cbn [negb].
    + rewrite (bind_getitem _ _ _ _ _ Hv).
      destruct (Py.mem op ops), (Py.mem val vals); by split.
    + unfold bind, getitem. rewrite Hv.
      destruct (negb (Py.mem op ops)); by split.
  - unfold bind, getitem. rewrite Hct. by split.
Qed.

(** X10: a text passes the check of a state invariant (nothing recorded,
    no exception) exactly when it passes the check of a trigger atom, and
    that is exactly when the atom pattern matches it with a declared device,
    an attribute of the type of the device, an operator of [ops] and a value
    of the attribute: the two checks differ in their messages and in the
    exception of the invariant check, not in what they accept. *)
Theorem invariant_and_atom_accept_alike (s sid : string)
    (dev_map : gmap string string) (caps_devices : gmap string CapType)
    (ops : list string) :
  (clean (check_invariant dev_map caps_devices ops sid s) tt <->
   clean (validate_atom s dev_map caps_devices ops) tt) /\
  (clean (validate_atom s dev_map caps_devices ops) tt <->
   exists g, Re.TRIG_ATOM_RE_match s = Some g /\
             atom_known dev_map caps_devices ops g = true).
Proof.
  rewrite check_invariant_clean, validate_atom_clean. split; [done |].
  unfold atom_accepted.
  destruct (Re.TRIG_ATOM_RE_match s) as [g |].
  - split; [intros H; by exists g | by intros (g' & [= <-] & H)].
  - split; [discriminate | by intros (g' & [=] & _)].
Qed.

Lemma clean_bind_intro {A B} (m : M A) (k : A -> M B) (a : A) (b : B) :
  clean m a -> clean (k a) b -> clean (bind m k) b.
Proof. unfold clean, bind. by intros -> ->. Qed.

Lemma trigger_step_clean dev_map cd bool_ops ops (b b' : bool) tok :
  clean (trigger_step dev_map cd bool_ops ops b tok) b' <->
  b' = negb b /\
  (if b then atom_accepted dev_map cd ops tok
   else Py.mem tok bool_ops) = true.
Proof.
  unfold trigger_step. destruct b; cbn [negb].
  - rewrite <- validate_atom_clean. split.
    + intros H. apply clean_bind in H as ([] & Ha & Hr);
        [| intros; apply writes_ret].
      apply clean_ret in Hr. by split.
    + intros [-> Ha]. by apply (clean_bind_intro _ _ tt).
  - unfold clean. rewrite bind_err_if. unfold ret.
    destruct (Py.mem tok bool_ops); cbn [negb].
    + split; [by intros [= <-] | by intros [-> _]].
    + split; [discriminate | by intros [_ ?]].
Qed.

Lemma walk_clean dev_map cd bool_ops ops (toks : list string) :
  (clean (for_fold toks true (trigger_step dev_map cd bool_ops ops)) false <->
   chain (atom_accepted dev_map cd ops) bool_ops toks) /\
  (clean (for_fold toks false (trigger_step dev_map cd bool_ops ops)) false <->
   toks = [] \/
   exists op rest, toks = op :: rest /\ Py.mem op bool_ops = true /\
                   chain (atom_accepted dev_map cd ops) bool_ops rest).
Proof.
  assert (Hw : forall s, writes (fun _ => True)
            (for_fold s.1 s.2 (trigger_step dev_map cd bool_ops ops))).
  { intros. apply writes_for_fold. intros.
    eapply writes_any, trigger_step_writes. }
  induction toks as [| tok toks [IHt IHf]].
  - split.
    + split; [discriminate | inversion 1].
    + split; [by left | done].
  - split.
    + cbn [for_fold]. split.
      * intros H. apply clean_bind in H as (b' & Hs & Hr);
          [| intros b; apply (Hw (toks, b))].
        apply trigger_step_clean in Hs as [-> Hok]. cbn [negb] in Hr.
        apply IHf in Hr as [-> | (op & rest & -> & Hop & Hc)].
        -- by constructor.
        -- by constructor.
      * intros H. apply (clean_bind_intro _ _ false).
        -- apply trigger_step_clean. split; [done |]. by inversion H.
        -- apply IHf. inversion H as [| ? op rest ? Hop Hc]; subst;
             [by left | right; by exists op, rest].
    + cbn [for_fold]. split.
      * intros H. apply clean_bind in H as (b' & Hs & Hr);
          [| intros b; apply (Hw (toks, b))].
        apply trigger_step_clean in Hs as [-> Hok]. cbn [negb] in Hr.
        right. exists tok, toks. split; [done |]. split; [done |].
        by apply IHt.
      * intros [H | (op & rest & [= <- <-] & Hop & Hc)]; [discriminate H |].
        apply (clean_bind_intro _ _ true).
        -- apply trigger_step_clean. by split.
        -- by apply IHt.
Qed.

Lemma validate_trigger_clean (expr : string)
    (dev_map : gmap string string) (caps_devices : gmap string CapType)
    (bool_ops ops : list string) :
  clean (validate_trigger expr dev_map caps_devices bool_ops ops) tt <->
  split_bool expr bool_ops = [] \/
  chain (atom_accepted dev_map caps_devices ops) bool_ops
    (split_bool expr bool_ops).
Proof.
  unfold validate_trigger.
  set (toks := split_bool expr bool_ops).
  destruct (walk_clean dev_map caps_devices bool_ops ops toks) as [Ht _].
  split.
  - intros H. apply clean_bind in H as (e & Hw & He);
      [| intros; by apply writes_err_if].
    apply clean_err_if in He.
    destruct toks as [| tok toks'] eqn:Htoks; [by left | right].
    rewrite bool_decide_eq_false_2 in He by done. cbn [negb andb] in He.
    subst e. by apply Ht.
  - intros [Hnil | Hc].
    + rewrite Hnil. reflexivity.
    + apply (clean_bind_intro _ _ false); [by apply Ht |].
      by rewrite andb_false_r.
Qed.

(** X11: the trigger check passes (nothing recorded, no exception) exactly
    when the token list of the expression is empty or follows the pattern
    of the docstring, an accepted atom followed by any number of pairs of an
    operator of [bool_ops] and an accepted atom. *)
Theorem trigger_accepted_iff_chain (expr : string)
    (dev_map : gmap string string) (caps_devices : gmap string CapType)
    (bool_ops ops : list string) :
  clean (validate_trigger expr dev_map caps_devices bool_ops ops) tt <->
  split_bool expr bool_ops = [] \/
  chain (atom_accepted dev_map caps_devices ops) bool_ops
    (split_bool expr bool_ops).
Proof. apply validate_trigger_clean. Qed.

(** ** A connective inside the value of an atom *)

Lemma quiet_app (a b r : string) :
  quiet (a +:+ b) r = quiet a (b +:+ r) && quiet b r.
Proof.
  induction a as [| c a IH]; [by rewrite !append_nil_l |].
  rewrite append_cons. cbn [quiet].
  by rewrite IH, !append_cons, append_assoc, andb_assoc.
Qed.

Lemma starts_conn_char (c : ascii) (r : string) :
  is_conn_char c = false -> starts_conn (String c r) = false.
Proof.
  unfold is_conn_char. intros H. apply orb_false_iff in H as [Ha Hb].
  destruct r as [| c2 r]; [apply starts_conn_single |].
  by rewrite starts_conn_cons, Ha, Hb.
Qed.

Lemma no_conn_char_quiet (a r : string) :
  all_in (fun c => negb (is_conn_char c)) a = true -> quiet a r = true.
Proof.
  unfold all_in. induction a as [| c a IH]; [reflexivity |].
  cbn [list_ascii_of_string forallb quiet]. intros H.
  apply andb_true_iff in H as [Hc Ha]. apply negb_true_iff in Hc.
  by rewrite append_cons, (starts_conn_char c _ Hc), (IH Ha).
Qed.

Lemma all_in_app (p : ascii -> bool) (a b : string) :
  all_in p (a +:+ b) = all_in p a && all_in p b.
Proof.
  unfold all_in. induction a as [| c a IH]; [reflexivity |].
  rewrite append_cons. cbn [list_ascii_of_string forallb].
  by rewrite IH, andb_assoc.
Qed.

Lemma all_in_impl (p q : ascii -> bool) (a : string) :
  (forall c, p c = true -> q c = true) ->
  all_in p a = true -> all_in q a = true.
Proof.
  intros Hpq. unfold all_in. induction a as [| c a IH]; [reflexivity |].
  cbn [list_ascii_of_string forallb]. intros H.
  apply andb_true_iff in H as [Hc Ha]. by rewrite (Hpq c Hc), (IH Ha).
Qed.

Lemma space_no_conn_char (c : ascii) :
  Py.is_space c = true -> negb (is_conn_char c) = true.
Proof.
  intros H. unfold is_conn_char.
  by rewrite (space_not_amp c H), (space_not_bar c H).
Qed.

Lemma word_no_conn_char (c : ascii) :
  Py.is_word c = true -> negb (is_conn_char c) = true.
Proof.
  destruct c as [[] [] [] [] [] [] [] []]; vm_compute;
    intros H; first [discriminate H | reflexivity].
Qed.

Lemma ident_start_word (c : ascii) :
  Py.is_ident_start c = true -> Py.is_word c = true.
Proof.
  destruct c as [[] [] [] [] [] [] [] []]; vm_compute;
    intros H; first [discriminate H | reflexivity].
Qed.

Lemma identifier_no_conn_char (id : string) :
  is_identifier id = true ->
  all_in (fun c => negb (is_conn_char c)) id = true.
Proof.
  destruct id as [| c id]; [discriminate |]. cbn [is_identifier].
  intros H. apply andb_true_iff in H as [Hc Hid].
  unfold all_in. cbn [list_ascii_of_string forallb].
  rewrite (word_no_conn_char c (ident_start_word c Hc)).
  by apply (all_in_impl Py.is_word); [apply word_no_conn_char |].
Qed.

Lemma blank_no_conn_char (w : string) :
  blank w = true -> all_in (fun c => negb (is_conn_char c)) w = true.
Proof.
  rewrite blank_all_in. apply all_in_impl, space_no_conn_char.
Qed.

(** The first place of a text where a connective starts. *)
Lemma first_conn (a r : string) :
  quiet a r = false ->
  exists v1 c a',
    a = v1 +:+ String c a' /\
    quiet v1 (String c a' +:+ r) = true /\
    starts_conn (String c a' +:+ r) = true.
Proof.
  induction a as [| c a IH]; [discriminate |].
  cbn [quiet]. destruct (starts_conn (String c a +:+ r)) eqn:Hc.
  - intros _. by exists EmptyString, c, a.
  - cbn [negb andb]. intros Hq.
    destruct (IH Hq) as (v1 & c0 & a' & -> & Hv & Hs).
    exists (String c v1), c0, a'. split; [reflexivity |].
    split; [| exact Hs]. cbn [quiet].
    rewrite append_cons, append_assoc in Hc. rewrite append_cons.
    by rewrite Hc, Hv.
Qed.

Lemma split_loop_conn (c : ascii) (r buf : string) (toks : list string) :
  starts_conn (String c r) = true ->
  exists c2 r2,
    r = String c2 r2 /\
    split_loop (String c r) buf toks =
      split_loop r2 EmptyString
        (toks ++ [Py.strip buf; String c (String c2 EmptyString)]).
Proof.
  intros Hc. destruct r as [| c2 r2];
    [by rewrite starts_conn_single in Hc |].
  exists c2, r2. split; [reflexivity |].
  cbn [split_loop]. unfold starts_conn in Hc. by rewrite Hc.
Qed.

(** The scan only appends to the tokens it is given. *)
Lemma split_loop_tokens (expr buf : string) (t1 t2 : list string) :
  split_loop expr buf (t1 ++ t2) =
    (t1 ++ (split_loop expr buf t2).1, (split_loop expr buf t2).2).
Proof.
  remember (String.length expr) as n eqn:Hn.
  revert expr Hn buf t2.
  induction n as [n IH] using lt_wf_ind.
  intros expr Hn buf t2.
  destruct expr as [| c rest]; [reflexivity |].
  destruct (starts_conn (String c rest)) eqn:Hc.
  - destruct (split_loop_conn c rest buf (t1 ++ t2) Hc) as (c2 & r2 & -> & ->).
    destruct (split_loop_conn c (String c2 r2) buf t2 Hc)
      as (c2' & r2' & [= <- <-] & ->).
    rewrite <- app_assoc. apply (IH (String.length r2)); [| reflexivity].
    subst n. simpl. lia.
  - rewrite !split_loop_step by exact Hc.
    apply (IH (String.length rest)); [| reflexivity].
    subst n. simpl. lia.
Qed.

Lemma rstrip_cons (c : ascii) (s : string) :
  Py.is_space c = false -> Py.rstrip (String c s) = String c (Py.rstrip s).
Proof.
  intros Hc. cbn [Py.rstrip]. destruct (Py.rstrip s); [by rewrite Hc | done].
Qed.

Lemma rstrip_app (a b : string) :
  Py.rstrip b <> EmptyString -> Py.rstrip (a +:+ b) = a +:+ Py.rstrip b.
Proof.
  intros Hb. induction a as [| c a IH]; [reflexivity |].
  rewrite !append_cons. cbn [Py.rstrip]. rewrite IH.
  destruct (a +:+ Py.rstrip b) eqn:E; [| reflexivity].
  destruct a; [| discriminate]. by rewrite append_nil_l in E.
Qed.

Lemma rstrip_all_in (p : ascii -> bool) (s : string) :
  all_in p s = true -> all_in p (Py.rstrip s) = true.
Proof.
  unfold all_in. induction s as [| c s IH]; [reflexivity |].
  cbn [list_ascii_of_string forallb Py.rstrip]. intros H.
  apply andb_true_iff in H as [Hc Hs]. specialize (IH Hs).
  destruct (Py.rstrip s) as [| d r].
  - destruct (Py.is_space c); [reflexivity |].
    cbn [list_ascii_of_string forallb]. by rewrite Hc.
  - cbn [list_ascii_of_string forallb] in *. by rewrite Hc.
Qed.

Lemma lstrip_app (w s : string) :
  blank w = true -> stops Py.is_space s = true -> Py.lstrip (w +:+ s) = s.
Proof.
  intros Hw Hs. induction w as [| c w IH].
  - rewrite append_nil_l. destruct s as [| d s]; [reflexivity |].
    cbn [stops] in Hs. apply negb_true_iff in Hs. cbn [Py.lstrip].
    by rewrite Hs.
  - cbn [blank] in Hw. apply andb_true_iff in Hw as [Hc Hw].
    rewrite append_cons. cbn [Py.lstrip]. rewrite Hc. by apply IH.
Qed.

(** An atom cut inside its value: the text up to there is no atom. *)
Lemma cut_atom_no_match (dev attr w1 op w2 v : string) :
  blank w1 = true -> blank w2 = true ->
  is_identifier dev = true -> is_identifier attr = true ->
  op = "==" \/ op = "!=" ->
  all_in (fun c => negb (Py.is_quote c)) v = true ->
  Re.TRIG_ATOM_RE_match
    (dev +:+ "." +:+ attr +:+ w1 +:+ op +:+ w2 +:+ Re.quote_lit +:+ v) = None.
Proof.
  intros H1 H2 Hdev Hattr Hop Hv. unfold Re.TRIG_ATOM_RE_match.
  assert (E0 : forall r, Re.spaces (dev +:+ r) = dev +:+ r)
    by (intros r; apply (spaces_stop EmptyString);
        [done | by apply identifier_stops_space]).
  rewrite E0.
  rewrite (ident_stop dev) by done. cbn [mbind option_bind].
  rewrite (lit_prefix "."). cbn [mbind option_bind].
  assert (Hstop : stops Py.is_word
                    (w1 +:+ op +:+ w2 +:+ Re.quote_lit +:+ v) = true)
    by (apply blank_then_stops_word; [done | by apply op_stops]).
  rewrite (ident_stop attr _ Hattr Hstop). cbn [mbind option_bind].
  rewrite (spaces_stop w1) by (done || by apply op_stops).
  rewrite (cmp_op_prefix op) by done. cbn [mbind option_bind].
  rewrite (spaces_stop w2) by done.
  rewrite (lit_prefix Re.quote_lit). cbn [mbind option_bind].
  unfold Re.quoted_body.
  rewrite <- (append_nil_r v) at 1.
  rewrite (span_stop _ _ _ Hv) by reflexivity.
  destruct v; reflexivity.
Qed.

Lemma emitted_bind_head {A B} (m : M A) (k : A -> M B) (e : Diag) :
  writes (fun _ => True) m -> (forall a, writes (fun _ => True) (k a)) ->
  (exists l, emitted m = e :: l) -> exists l, emitted (bind m k) = e :: l.
Proof.
  intros Hm Hk [l Hl]. rewrite emitted_bind, Hl by done. eauto.
Qed.

Lemma strip_cut (w0 a v : string) :
  blank w0 = true -> stops Py.is_space (a +:+ Re.quote_lit +:+ v) = true ->
  Py.strip (w0 +:+ a +:+ Re.quote_lit +:+ v) =
    a +:+ Re.quote_lit +:+ Py.rstrip v.
Proof.
  intros Hw Hs. unfold Py.strip. rewrite lstrip_app by done.
  assert (Hq : Py.rstrip (Re.quote_lit +:+ v) = Re.quote_lit +:+ Py.rstrip v)
    by (unfold Re.quote_lit; rewrite !append_cons, !append_nil_l;
        by apply rstrip_cons).
  rewrite rstrip_app; rewrite Hq; [reflexivity | discriminate].
Qed.

(** X12: a text that the atom pattern matches and in which a connective
    occurs (it can only be in the value, between the quotes) is never
    accepted as a trigger: the tokenizer cuts it at the connective, quotes or
    not, and the first message of the trigger check is the bad-atom message
    for the text up to the connective, which the pattern does not match.
    The same text can be an accepted invariant, which is not tokenized. *)
Theorem connective_in_value_is_split (s : string)
    (g : string * string * string * string)
    (dev_map : gmap string string) (caps_devices : gmap string CapType)
    (bool_ops ops : list string) :
  Re.TRIG_ATOM_RE_match s = Some g ->
  quiet s EmptyString = false ->
  exists t rest,
    Re.TRIG_ATOM_RE_match t = None /\
    hd_error (split_bool s bool_ops) = Some t /\
    emitted (validate_trigger s dev_map caps_devices bool_ops ops) =
      BadTriggerAtom t :: rest.
Proof.
  destruct g as [[[dev attr] op] val]. intros Hm Hq.
  destruct (atom_match_parts s dev attr op val Hm)
    as (w0 & w1 & w2 & w3 & -> & H0 & H1 & H2 & H3 & Hdev & Hattr & Hop & Hval).
  clear Hm. unfold atom_text in *.
  set (A := dev +:+ "." +:+ attr +:+ w1 +:+ op +:+ w2).
  assert (HA : forall r,
            dev +:+ "." +:+ attr +:+ w1 +:+ op +:+ w2 +:+ r = A +:+ r)
    by (intros r; unfold A; by rewrite !append_assoc).
  assert (HqA : forall r, quiet A r = true).
  { intros r. apply no_conn_char_quiet. unfold A.
    rewrite !all_in_app, (identifier_no_conn_char dev Hdev),
      (identifier_no_conn_char attr Hattr), (blank_no_conn_char w1 H1),
      (blank_no_conn_char w2 H2).
    destruct Hop as [-> | ->]; reflexivity. }
  assert (Hqq : forall r, quiet Re.quote_lit r = true)
    by (intros r; by apply no_conn_char_quiet).
  rewrite HA in Hq |- *.
  assert (Hval' : quiet val (Re.quote_lit +:+ w3) = false).
  { rewrite !quiet_app, (blank_quiet w0), (blank_quiet w3), HqA, !Hqq in Hq
      by done.
    rewrite !append_nil_r in Hq. cbn [andb] in Hq.
    by rewrite andb_true_r in Hq. }
  destruct (first_conn _ _ Hval') as (v1 & c & a' & -> & Hv1 & Hc).
  unfold is_value in Hval. apply andb_true_iff in Hval as [_ Hval].
  rewrite all_in_app in Hval. apply andb_true_iff in Hval as [Hnq _].
  set (t := A +:+ Re.quote_lit +:+ Py.rstrip v1).
  assert (Hstrip : Py.strip (w0 +:+ A +:+ Re.quote_lit +:+ v1) = t).
  { apply strip_cut; [done |]. rewrite <- HA.
    by apply identifier_stops_space. }
  set (r := a' +:+ Re.quote_lit +:+ w3) in *.
  assert (Htext : w0 +:+ A +:+ Re.quote_lit +:+ (v1 +:+ String c a')
                     +:+ Re.quote_lit +:+ w3 =
                  (w0 +:+ A +:+ Re.quote_lit +:+ v1) +:+ String c r)
    by (unfold r; rewrite !append_assoc; reflexivity).
  assert (Htoks : exists more, split_bool
            (w0 +:+ A +:+ Re.quote_lit +:+ (v1 +:+ String c a')
                +:+ Re.quote_lit +:+ w3) bool_ops = t :: more).
  { unfold split_bool. rewrite Htext, split_loop_quiet.
    - rewrite append_nil_l.
      destruct (split_loop_conn c r (w0 +:+ A +:+ Re.quote_lit +:+ v1) [] Hc)
        as (c2 & r2 & Hr & ->).
      cbn [app]. rewrite Hstrip.
      pose proof (split_loop_tokens r2 EmptyString
                    [t; String c (String c2 EmptyString)] []) as E.
      rewrite app_nil_r in E. rewrite E.
      destruct (split_loop r2 EmptyString []) as [more buf]. cbn [fst snd app].
      destruct (Py.truthy (Py.strip buf)); eauto.
    - rewrite !quiet_app, (blank_quiet w0), HqA, Hqq by done.
      cbn [andb]. exact Hv1. }
  destruct Htoks as (more & Htoks).
  assert (Hno : Re.TRIG_ATOM_RE_match t = None).
  { unfold t. rewrite <- HA.
    apply cut_atom_no_match; try done. by apply rstrip_all_in. }
  unfold validate_trigger. rewrite Htoks.
  destruct (emitted_bind_head
              (for_fold (t :: more) true
                 (trigger_step dev_map caps_devices bool_ops ops))
              (fun expect_atom =>
                 err_if (negb (bool_decide (t :: more = [])) && expect_atom)
                   EndsWithOperator)
              (BadTriggerAtom t)) as (rest & Hrest).
  - apply writes_for_fold. intros.
    eapply writes_any, trigger_step_writes.
  - intros. by apply writes_err_if.
  - cbn [for_fold]. apply emitted_bind_head.
    + eapply writes_any, trigger_step_writes.
    + intros. apply writes_for_fold. intros.
      eapply writes_any, trigger_step_writes.
    + exists []. unfold trigger_step, validate_atom. by rewrite Hno.
  - exists t, rest. by rewrite Hrest.
Qed.

(** An atom that compares with the value [a||b]: the first token is the
    text up to the connective. *)
Lemma connective_in_value_is_split_witness :
  exists t rest,
    Re.TRIG_ATOM_RE_match t = None /\
    hd_error (split_bool (Py.dq "switch1.power == 'a||b'") ["&&"; "||"]) =
      Some t /\
    emitted (validate_trigger (Py.dq "switch1.power == 'a||b'")
               dev_map_A caps_devices_A ["&&"; "||"] ["=="; "!="]) =
      BadTriggerAtom t :: rest.
Proof.
  apply (connective_in_value_is_split (Py.dq "switch1.power == 'a||b'")
           ("switch1", "power", "==", "a||b")); reflexivity.
Defined.

(** ** The messages of the transitions *)

Lemma per_item_returns {A} (xs : list A) (body : A -> M unit) :
  (forall x, outcome (body x) = Ret tt) ->
  per_item xs tt (fun _ => body) = map (fun x => emitted (body x)) xs.
Proof.
  intros Hb. induction xs as [| x xs IH]; [reflexivity |].
  cbn [per_item map]. by rewrite Hb, IH.
Qed.

Lemma emitted_for_each_returns {A} (xs : list A) (body : A -> M unit) :
  (forall x, writes (fun _ => True) (body x)) ->
  (forall x, outcome (body x) = Ret tt) ->
  emitted (for_each xs body) = List.concat (map (fun x => emitted (body x)) xs).
Proof.
  intros Hw Hb. by rewrite emitted_for_each, per_item_returns.
Qed.

Lemma concat_map_if {A B} (c : A -> bool) (f : A -> B) (l : list A) :
  List.concat (map (fun x => if c x then [] else [f x]) l) =
    map f (List.filter (fun x => negb (c x)) l).
Proof.
  induction l as [| x l IH]; [reflexivity |].
  cbn [map List.concat List.filter]. rewrite IH. by destruct (c x).
Qed.

Lemma emitted_err_if (c : bool) (e : Diag) :
  emitted (err_if c e) = if c then [e] else [].
Proof. by destruct c. Qed.

Lemma validate_trigger_grammar expr dev_map cd bool_ops ops :
  writes (fun e => is_trigger_message e = true)
    (validate_trigger expr dev_map cd bool_ops ops).
Proof.
  unfold validate_trigger. apply writes_bind.
  - apply writes_for_fold. intros b tok. unfold trigger_step, validate_atom.
    destruct b; [| writes_auto].
    destruct (Re.TRIG_ATOM_RE_match tok) as [[[[dev attr] op] val] |];
      writes_auto.
  - intros b. by apply writes_err_if.
Qed.

Lemma validate_action_grammar act dev_map cd :
  writes (fun e => is_grammar_message e = true /\ is_trigger_message e = false)
    (validate_action act dev_map cd).
Proof.
  unfold validate_action.
  destruct (Re.ACTION_RE_match act) as [[dev cmd] |]; writes_auto.
Qed.

(** The messages of one transition: the missing keys, the two references,
    the trigger and the action, each check whatever the others find. *)
Lemma check_transition_emitted dev_map cd bool_ops ops ids i tr :
  consistent dev_map cd ->
  emitted (check_transition dev_map cd bool_ops ops ids (i, tr)) =
    map (TransitionMissing i)
      (List.filter (fun k => negb (tr_has_key tr k)) transition_keys) ++
    (if known_state ids (tr_source tr) then []
     else [TransitionUnknownSource i (tr_source tr)]) ++
    (if known_state ids (tr_target tr) then []
     else [TransitionUnknownTarget i (tr_target tr)]) ++
    emitted (validate_trigger (default EmptyString (tr_trigger tr))
               dev_map cd bool_ops ops) ++
    emitted (validate_action (default EmptyString (tr_action tr)) dev_map cd).
Proof.
  intros Hcons. unfold check_transition.
  assert (Hw3 : writes (fun _ => True)
            (validate_trigger (default EmptyString (tr_trigger tr))
               dev_map cd bool_ops ops ;;
             validate_action (default EmptyString (tr_action tr))
               dev_map cd)%M).
  { apply writes_bind; [eapply writes_any, validate_trigger_writes |].
    intros. eapply writes_any, validate_action_writes. }
  assert (Hw2 : forall c e, writes (fun _ => True)
            (err_if c e ;;
             validate_trigger (default EmptyString (tr_trigger tr))
               dev_map cd bool_ops ops ;;
             validate_action (default EmptyString (tr_action tr))
               dev_map cd)%M).
  { intros. apply writes_bind; [by apply writes_err_if | intros; exact Hw3]. }
  rewrite emitted_bind;
    [| apply writes_for_each; intros; by apply writes_err_if
     | intros; apply writes_bind; [by apply writes_err_if | intros; apply Hw2]].
  rewrite outcome_for_each;
    [| intros; by apply writes_err_if | intros; apply outcome_err_if].
  rewrite emitted_for_each_returns;
    [| intros; by apply writes_err_if | intros; apply outcome_err_if].
  rewrite emitted_bind; [| by apply writes_err_if | intros; apply Hw2].
  rewrite outcome_err_if.
  rewrite emitted_bind; [| by apply writes_err_if | intros; exact Hw3].
  rewrite outcome_err_if.
  rewrite emitted_bind;
    [| eapply writes_any, validate_trigger_writes
     | intros; eapply writes_any, validate_action_writes].
  rewrite validate_trigger_returns by exact Hcons.
  rewrite !emitted_err_if. f_equal; [| f_equal; [| f_equal]].
  - rewrite <- concat_map_if. f_equal. apply map_ext. intros k.
    rewrite emitted_err_if. by destruct (tr_has_key tr k).
  - by destruct (known_state ids (tr_source tr)).
  - by destruct (known_state ids (tr_target tr)).
Qed.

Lemma check_transitions_emitted spec dev_map cd bool_ops ops ids trs e :
  consistent dev_map cd -> transitions spec = Items trs ->
  In e (emitted (check_transitions spec dev_map cd bool_ops ops ids)) <->
  exists i tr,
    In (i, tr) (enumerate 1 trs) /\
    In e (emitted (check_transition dev_map cd bool_ops ops ids (i, tr))).
Proof.
  intros Hcons Htrs. unfold check_transitions. rewrite Htrs.
  rewrite emitted_for_each_returns;
    [| intros; eapply writes_any, check_transition_writes
     | intros; by apply check_transition_returns].
  rewrite in_concat. split.
  - intros (l & Hl & He). apply in_map_iff in Hl as ([i tr] & <- & Hin).
    by exists i, tr.
  - intros (i & tr & Hin & He). eexists. split; [| exact He].
    apply in_map_iff. by exists (i, tr).
Qed.

Lemma grammar_not_in {A} (m : M A) (e : Diag) :
  writes (fun e => is_grammar_message e = true) m ->
  is_grammar_message e = false -> ~ In e (emitted m).
Proof.
  intros [_ Hall] He Hin. rewrite List.Forall_forall in Hall.
  apply Hall in Hin. congruence.
Qed.

Lemma trigger_is_grammar (e : Diag) :
  is_trigger_message e = true -> is_grammar_message e = true.
Proof. by destruct e. Qed.

Lemma transition_message_in dev_map cd bool_ops ops ids i tr e :
  consistent dev_map cd -> is_grammar_message e = false ->
  In e (emitted (check_transition dev_map cd bool_ops ops ids (i, tr))) <->
  (exists k, e = TransitionMissing i k /\ In k transition_keys /\
             tr_has_key tr k = false) \/
  (e = TransitionUnknownSource i (tr_source tr) /\
   known_state ids (tr_source tr) = false) \/
  (e = TransitionUnknownTarget i (tr_target tr) /\
   known_state ids (tr_target tr) = false).
Proof.
  intros Hcons He. rewrite check_transition_emitted by exact Hcons.
  rewrite !in_app_iff, in_map_iff. split.
  - intros [(k & <- & Hk) | [H | [H | [H | H]]]].
    + left. exists k. split; [done |].
      apply filter_In in Hk as [Hk Hc]. by apply negb_true_iff in Hc.
    + right. left. destruct (known_state ids (tr_source tr));
        [by destruct H | destruct H as [<- | []]; by split].
    + right. right. destruct (known_state ids (tr_target tr));
        [by destruct H | destruct H as [<- | []]; by split].
    + exfalso. revert H. apply grammar_not_in; [| exact He].
      eapply writes_weaken; [| apply validate_trigger_grammar].
      apply trigger_is_grammar.
    + exfalso. revert H. apply grammar_not_in; [| exact He].
      eapply writes_weaken; [| apply validate_action_grammar]. by intros ? [? _].
  - intros [(k & -> & Hk & Hc) | [[-> Hc] | [-> Hc]]].
    + left. exists k. split; [done |]. apply filter_In. by rewrite Hc.
    + right. left. rewrite Hc. by left.
    + right. right. left. rewrite Hc. by left.
Qed.

(** X13: with a device map that only names types of the schema, the loop
    over the transitions records [Transition i unknown source: src] exactly
    when the [i]-th transition (counted from 1) has the source [src] and
    [src] is not the id of a state seen by the state loop; a transition
    without the key gets the message with [None], after the message of the
    missing key.  The same holds for the target, and [Transition i missing k]
    is recorded exactly for the keys that the [i]-th transition lacks. *)
Theorem unknown_reference_messages (spec : Spec)
    (dev_map : gmap string string) (caps_devices : gmap string CapType)
    (bool_ops ops : list string) (state_ids : gset string)
    (trs : list Transition) :
  consistent dev_map caps_devices -> transitions spec = Items trs ->
  let E := emitted (check_transitions spec dev_map caps_devices bool_ops ops
                      state_ids) in
  (forall i src,
     In (TransitionUnknownSource i src) E <->
     exists tr, In (i, tr) (enumerate 1 trs) /\ tr_source tr = src /\
                known_state state_ids src = false) /\
  (forall i tgt,
     In (TransitionUnknownTarget i tgt) E <->
     exists tr, In (i, tr) (enumerate 1 trs) /\ tr_target tr = tgt /\
                known_state state_ids tgt = false) /\
  (forall i k,
     In (TransitionMissing i k) E <->
     exists tr, In (i, tr) (enumerate 1 trs) /\ In k transition_keys /\
                tr_has_key tr k = false).
Proof.
  intros Hcons Htrs E. subst E. repeat split.
  - intros H.
    apply (check_transitions_emitted _ _ _ _ _ _ trs) in H
      as (j & tr & Hin & H); [| done | done].
    apply transition_message_in in H
      as [(k & [=] & _) | [[[= Hi Hs] Hc] | [[=] _]]]; [| done | done].
    subst j. exists tr. by rewrite Hs.
  - intros (tr & Hin & <- & Hc).
    apply (check_transitions_emitted _ _ _ _ _ _ trs); [done | done |].
    exists i, tr. split; [done |].
    apply transition_message_in; [done | done |]. right. by left.
  - intros H.
    apply (check_transitions_emitted _ _ _ _ _ _ trs) in H
      as (j & tr & Hin & H); [| done | done].
    apply transition_message_in in H
      as [(k & [=] & _) | [[[=] _] | [[= Hi Hs] Hc]]]; [| done | done].
    subst j. exists tr. by rewrite Hs.
  - intros (tr & Hin & <- & Hc).
    apply (check_transitions_emitted _ _ _ _ _ _ trs); [done | done |].
    exists i, tr. split; [done |].
    apply transition_message_in; [done | done |]. right. by right.
  - intros H.
    apply (check_transitions_emitted _ _ _ _ _ _ trs) in H
      as (j & tr & Hin & H); [| done | done].
    apply transition_message_in in H
      as [(k' & [= Hi Hk'] & Hk & Hc) | [[[=] _] | [[=] _]]]; [| done | done].
    subst j k'. by exists tr.
  - intros (tr & Hin & Hk & Hc).
    apply (check_transitions_emitted _ _ _ _ _ _ trs); [done | done |].
    exists i, tr. split; [done |].
    apply transition_message_in; [done | done |]. left. by exists k.
Qed.

(** A transition without the key [source]: the message names [None]. *)
Lemma unknown_reference_messages_witness :
  In (TransitionUnknownSource 1 None)
    (emitted (check_transitions spec_target_only dev_map_A caps_devices_A
                ["&&"; "||"] ["=="; "!="] {[ "Idle"; "On" ]})).
Proof.
  destruct (unknown_reference_messages spec_target_only dev_map_A
              caps_devices_A ["&&"; "||"] ["=="; "!="] {[ "Idle"; "On" ]}
              [tr_target_only] consistent_A eq_refl) as (Hs & _ & _).
  apply Hs. exists tr_target_only. split; [by left |]. by split.
Defined.

(** X14: for a transition without the key [trigger] the trigger check runs
    on the empty text and records nothing, so the missing-key message is the
    only one about the trigger; for a transition without the key [action]
    the action check runs on the empty text, which the action pattern does
    not match, and records [Bad action syntax: ] with nothing after the
    colon, after the missing-key message. *)
Theorem missing_trigger_and_action
    (dev_map : gmap string string) (caps_devices : gmap string CapType)
    (bool_ops ops : list string) (state_ids : gset string)
    (i : nat) (tr : Transition) :
  consistent dev_map caps_devices ->
  let E := emitted (check_transition dev_map caps_devices bool_ops ops
                      state_ids (i, tr)) in
  (tr_trigger tr = None ->
   In (TransitionMissing i "trigger") E /\
   Forall (fun e => is_trigger_message e = false) E) /\
  (tr_action tr = None ->
   In (TransitionMissing i "action") E /\
   exists pre, E = pre ++ [BadActionSyntax EmptyString] /\
               In (TransitionMissing i "action") pre).
Proof.
  intros Hcons E. subst E. split.
  - intros Ht. split.
    + apply transition_message_in; [done | done |]. left.
      exists "trigger". split; [done |]. split; [cbn; tauto |].
      unfold tr_has_key. simpl. rewrite Ht.
      apply bool_decide_eq_false. by intros [? ?].
    + rewrite check_transition_emitted by done. rewrite Ht. cbn [default].
      rewrite !Forall_app. repeat split.
      * apply Forall_map, List.Forall_forall. by intros.
      * by destruct (known_state state_ids (tr_source tr)); repeat constructor.
      * by destruct (known_state state_ids (tr_target tr)); repeat constructor.
      * constructor.
      * eapply List.Forall_impl;
          [| apply (validate_action_grammar
                      (default EmptyString (tr_action tr)) dev_map
                      caps_devices)].
        by intros e [_ He].
  - intros Ha.
    assert (Hin : In (TransitionMissing i "action")
                    (map (TransitionMissing i)
                       (List.filter (fun k => negb (tr_has_key tr k))
                          transition_keys))).
    { apply in_map, filter_In. split; [cbn; tauto |].
      unfold tr_has_key. simpl. rewrite Ha.
      apply negb_true_iff, bool_decide_eq_false. by intros [? ?]. }
    rewrite check_transition_emitted by done. rewrite Ha. cbn [default].
    change (emitted (validate_action EmptyString dev_map caps_devices))
      with [BadActionSyntax EmptyString].
    split; [apply in_or_app; by left |].
    eexists. rewrite !app_assoc. split; [reflexivity |].
    rewrite <- !app_assoc. apply in_or_app. by left.
Qed.

(** The transition with a target only: no trigger message, and the
    bad-action message at the end. *)
Lemma missing_trigger_and_action_witness :
  let E := emitted (check_transition dev_map_A caps_devices_A ["&&"; "||"]
                      ["=="; "!="] {[ "Idle"; "On" ]} (1, tr_target_only)) in
  Forall (fun e => is_trigger_message e = false) E /\
  exists pre, E = pre ++ [BadActionSyntax EmptyString].
Proof.
  intros E. subst E.
  destruct (missing_trigger_and_action dev_map_A caps_devices_A ["&&"; "||"]
              ["=="; "!="] {[ "Idle"; "On" ]} 1 tr_target_only consistent_A)
    as [Ht Ha].
  destruct (Ht eq_refl) as [_ Hall].
  destruct (Ha eq_refl) as [_ (pre & Hpre & _)].
  split; [exact Hall | by exists pre].
Defined.

(** ** The ids that the state loop collects *)

Lemma check_state_outcome dev_map cd ops ids st ids' :
  outcome (check_state dev_map cd ops ids st) = Ret ids' ->
  ids' = match st_id st with Some sid => {[sid]} ∪ ids | None => ids end.
Proof.
  unfold check_state. destruct (st_id st) as [sid |];
    [| by intros [= <-]].
  rewrite outcome_bind.
  - rewrite outcome_err_if. destruct (st_invariants st) as [| | invs];
      [by intros [= <-] | by intros [= <-] |].
    rewrite outcome_bind.
    + destruct (outcome (for_each invs _)); [by intros [= <-] | discriminate].
    + apply writes_for_each. intros.
      eapply writes_any, check_invariant_writes.
    + intros. apply writes_ret.
  - by apply writes_err_if.
  - intros _. destruct (st_invariants st); writes_auto.
    eapply writes_any, check_invariant_writes.
Qed.

Lemma state_loop_ids dev_map cd ops (sts : list State) (ids0 ids : gset string) :
  outcome (for_fold sts ids0 (check_state dev_map cd ops)) = Ret ids ->
  forall x, x ∈ ids <-> x ∈ ids0 \/ exists st, In st sts /\ st_id st = Some x.
Proof.
  revert ids0. induction sts as [| st sts IH]; intros ids0 Hout x.
  - injection Hout as <-. split; [by left | by intros [? | (? & [] & _)]].
  - cbn [for_fold] in Hout. rewrite outcome_bind in Hout.
    + destruct (outcome (check_state dev_map cd ops ids0 st)) as [ids1 |] eqn:H1;
        [| discriminate].
      apply check_state_outcome in H1. rewrite (IH _ Hout x). subst ids1.
      split.
      * intros [Hx | (st' & Hin & Hid)].
        -- destruct (st_id st) as [sid |] eqn:Hsid; [| by left].
           apply elem_of_union in Hx as [Hx | Hx]; [| by left].
           apply elem_of_singleton in Hx as ->. right. exists st.
           split; [by left | done].
        -- right. exists st'. split; [by right | done].
      * intros [Hx | (st' & [<- | Hin] & Hid)].
        -- left. destruct (st_id st); [| done].
           apply elem_of_union. by right.
        -- left. rewrite Hid. apply elem_of_union. left.
           by apply elem_of_singleton.
        -- right. by exists st'.
    + eapply writes_any, check_state_writes.
    + intros. apply writes_for_fold. intros.
      eapply writes_any, check_state_writes.
Qed.

(** X15: when the state loop returns, the set of state ids that the
    transition check reads holds exactly the ids of the states that have
    one: a state with a duplicate id, with invariants that are not a list or
    with rejected invariants still counts, and a state without id adds
    nothing. *)
Theorem state_ids_are_declared_ids (spec : Spec)
    (dev_map : gmap string string) (caps_devices : gmap string CapType)
    (ops : list string) (sts : list State) (state_ids : gset string) :
  states spec = Items sts ->
  outcome (check_states spec dev_map caps_devices ops) = Ret state_ids ->
  forall x, x ∈ state_ids <-> exists st, In st sts /\ st_id st = Some x.
Proof.
  intros Hsts Hout x. unfold check_states in Hout. rewrite Hsts in Hout.
  rewrite (state_loop_ids _ _ _ _ _ _ Hout x). split.
  - intros [Hx | H]; [by apply not_elem_of_empty in Hx | exact H].
  - intros H. by right.
Qed.

(** The two states of scenario A: [Idle] is among the ids. *)
Lemma state_ids_are_declared_ids_witness :
  "Idle" ∈ ({[ "On" ]} ∪ ({[ "Idle" ]} ∪ ∅) : gset string) <->
  exists st, In st (match states spec_A with
                    | Items sts => sts
                    | _ => []
                    end) /\ st_id st = Some "Idle".
Proof.
  apply (state_ids_are_declared_ids spec_A dev_map_A caps_devices_A
           ["=="; "!="]); reflexivity.
Defined.

(** ** When the generator returns *)

Lemma declared_ids_elem (sts : list State) (x : string) :
  x ∈ declared_ids sts <-> exists s, s ∈ sts /\ st_id s = Some x.
Proof.
  unfold declared_ids. by rewrite elem_of_list_to_set, list_elem_of_omap.
Qed.

Lemma state_xmi_ids_inv (sts : list State) (ids : gmap string string) :
  Uml.state_xmi_ids sts = Ret ids ->
  Forall (fun s => is_Some (st_id s)) sts /\
  forall x, is_Some (ids !! x) <-> x ∈ declared_ids sts.
Proof.
  revert ids. induction sts as [| s sts IH]; intros ids.
  - intros [= <-]. split; [constructor |]. intros x.
    rewrite lookup_empty, declared_ids_elem. split.
    + by intros [? ?].
    + intros (s & Hs & _). by apply elem_of_nil in Hs.
  - cbn [Uml.state_xmi_ids]. destruct (st_id s) as [sid |] eqn:Hsid;
      [| discriminate].
    cbn [Uml.field Uml.rbind].
    destruct (Uml.state_xmi_ids sts) as [ids' |]; [| discriminate].
    cbn [Uml.rbind]. intros [= <-].
    destruct (IH ids' eq_refl) as [Hall Hdom]. split.
    + constructor; [by rewrite Hsid | exact Hall].
    + intros x. rewrite declared_ids_elem.
      destruct (decide (x = sid)) as [-> | Hne].
      * rewrite lookup_insert_eq. split; [| by eauto].
        intros _. exists s. split; [by left | done].
      * rewrite lookup_insert_ne by done. rewrite Hdom, declared_ids_elem.
        split.
        -- intros (s' & Hin & Hid). exists s'. split; [by right | done].
        -- intros (s' & Hin & Hid).
           apply elem_of_cons in Hin as [-> | Hin]; [congruence |].
           by exists s'.
Qed.

Lemma collect_inv {A B} (xs : list A) (body : A -> result (list B))
    (l : list B) :
  Uml.collect xs body = Ret l ->
  Forall (fun x => exists y, body x = Ret y) xs.
Proof.
  revert l. induction xs as [| x xs IH]; intros l; [constructor |].
  cbn [Uml.collect]. destruct (body x) as [y |] eqn:Hx; [| discriminate].
  cbn [Uml.rbind]. destruct (Uml.collect xs body) as [rest |];
    [| discriminate].
  intros _. constructor; [by exists y | by eapply IH].
Qed.

Lemma collect_raises {A B} (P : exn -> Prop) (xs : list A)
    (body : A -> result (list B)) (e : exn) :
  (forall x e, body x = Raise e -> P e) ->
  Uml.collect xs body = Raise e -> P e.
Proof.
  intros Hb. induction xs as [| x xs IH]; [discriminate |].
  cbn [Uml.collect]. destruct (body x) as [y |] eqn:Hx.
  - cbn [Uml.rbind]. destruct (Uml.collect xs body) as [rest |];
      [discriminate |].
    cbn [Uml.rbind]. intros [= <-]. by apply IH.
  - cbn [Uml.rbind]. intros [= <-]. by eapply Hb.
Qed.

Lemma collect_with_raises {A B S} (P : exn -> Prop) (xs : list A) (st : S)
    (body : S -> A -> result (list B * S)) (e : exn) :
  (forall st x e, body st x = Raise e -> P e) ->
  Uml.collect_with xs st body = Raise e -> P e.
Proof.
  intros Hb. revert st. induction xs as [| x xs IH]; intros st;
    [discriminate |].
  cbn [Uml.collect_with]. destruct (body st x) as [y |] eqn:Hx.
  - cbn [Uml.rbind]. destruct (Uml.collect_with xs y.2 body) as [rest |] eqn:Hr;
      [discriminate |].
    cbn [Uml.rbind]. intros [= <-]. by eapply IH.
  - cbn [Uml.rbind]. intros [= <-]. by eapply Hb.
Qed.

Lemma collect_with_inv {A B S} (xs : list A) (st : S)
    (body : S -> A -> result (list B * S)) (l : list B) :
  Uml.collect_with xs st body = Ret l ->
  Forall (fun x => exists st' y, body st' x = Ret y) xs.
Proof.
  revert st l. induction xs as [| x xs IH]; intros st l; [constructor |].
  cbn [Uml.collect_with]. destruct (body st x) as [y |] eqn:Hx;
    [| discriminate].
  cbn [Uml.rbind]. destruct (Uml.collect_with xs y.2 body) as [rest |] eqn:Hr;
    [| discriminate].
  intros _. constructor; [by exists st, y | by eapply IH].
Qed.

Lemma collect_with_raise_inv {A B S} (xs : list A) (st : S)
    (body : S -> A -> result (list B * S)) (e : exn) :
  Uml.collect_with xs st body = Raise e ->
  Exists (fun x => exists st', body st' x = Raise e) xs.
Proof.
  revert st. induction xs as [| x xs IH]; intros st; [discriminate |].
  cbn [Uml.collect_with]. destruct (body st x) as [y |] eqn:Hx.
  - cbn [Uml.rbind].
    destruct (Uml.collect_with xs y.2 body) as [rest |] eqn:Hr;
      [discriminate |].
    cbn [Uml.rbind]. intros [= <-]. apply Exists_cons_tl. by eapply IH.
  - cbn [Uml.rbind]. intros [= <-]. apply Exists_cons_hd. by exists st.
Qed.

Lemma collect_with_raise {A B S} (xs : list A) (st : S)
    (body : S -> A -> result (list B * S)) (e : exn) :
  Forall (fun x => forall st', (exists y, body st' x = Ret y) \/
                               body st' x = Raise e) xs ->
  Exists (fun x => forall st', body st' x = Raise e) xs ->
  Uml.collect_with xs st body = Raise e.
Proof.
  intros Hall. revert st. induction Hall as [| x xs Hx _ IH]; intros st Hex.
  - inversion Hex.
  - cbn [Uml.collect_with].
    destruct (Hx st) as [[y Hy] | Hr]; [| by rewrite Hr].
    rewrite Hy. cbn [Uml.rbind].
    inversion Hex as [? ? Hhd | ? ? Htl]; subst; [by rewrite Hhd in Hy |].
    by rewrite (IH y.2 Htl).
Qed.

Lemma field_raises {V} (k : string) (x : option V) (e : exn) :
  Uml.field k x = Raise e -> key_error e.
Proof. destruct x; [discriminate | intros [= <-]; by exists k]. Qed.

Lemma lookup_key_raises {V} (d : gmap string V) (k : string) (e : exn) :
  Uml.lookup_key d k = Raise e -> key_error e.
Proof.
  unfold Uml.lookup_key.
  destruct (d !! k); [discriminate | intros [= <-]; by exists k].
Qed.

Lemma rbind_raises {A B} (P : exn -> Prop) (m : result A)
    (k : A -> result B) (e : exn) :
  (m = Raise e -> P e) -> (forall a, k a = Raise e -> P e) ->
  Uml.rbind m k = Raise e -> P e.
Proof.
  intros Hm Hk. destruct m as [a | e']; cbn [Uml.rbind].
  - apply Hk.
  - intros [= ->]. by apply Hm.
Qed.

Lemma state_xmi_ids_raises (sts : list State) (e : exn) :
  Uml.state_xmi_ids sts = Raise e -> key_error e.
Proof.
  induction sts as [| s sts IH]; [discriminate |].
  cbn [Uml.state_xmi_ids]. apply (rbind_raises key_error);
    [apply field_raises |].
  intros sid. apply (rbind_raises key_error); [exact IH | discriminate].
Qed.

Lemma make_state_nodes_raises sts ids (e : exn) :
  Uml.make_state_nodes sts ids = Raise e -> key_error e.
Proof.
  unfold Uml.make_state_nodes. apply (rbind_raises key_error);
    [| discriminate].
  apply (collect_raises key_error). intros s e'.
  apply (rbind_raises key_error); [apply field_raises |]. intros sid.
  apply (rbind_raises key_error); [apply lookup_key_raises | discriminate].
Qed.

Lemma make_transitions_raises s sts trs ids (e : exn) :
  Uml.make_transitions (s :: sts) trs ids = Raise e -> key_error e.
Proof.
  unfold Uml.make_transitions. cbn [Uml.rbind].
  apply (rbind_raises key_error); [apply field_raises |]. intros sid.
  apply (rbind_raises key_error); [apply lookup_key_raises |]. intros xid.
  apply (rbind_raises key_error); [| discriminate].
  apply (collect_raises key_error). intros itr e'.
  apply (rbind_raises key_error); [apply field_raises |]. intros src.
  apply (rbind_raises key_error); [apply lookup_key_raises |]. intros src'.
  apply (rbind_raises key_error); [apply field_raises |]. intros tgt.
  apply (rbind_raises key_error); [apply lookup_key_raises | discriminate].
Qed.

Lemma invariants_of_raises (s : State) (e : exn) :
  Uml.invariants_of s = Raise e ->
  e = TypeError /\ items_of (st_invariants s) = None.
Proof.
  unfold Uml.invariants_of.
  destruct (items_of (st_invariants s)); [discriminate | by intros [= <-]].
Qed.

Lemma stereo_pairs_raises (trs : list Transition) (e : exn) :
  Uml.collect (enumerate 1 trs) (fun itr =>
    Uml.rbind (Uml.field "trigger" (tr_trigger itr.2)) (fun trigger =>
      Uml.rbind (Uml.field "action" (tr_action itr.2)) (fun action =>
        Ret [Uml.StereoOpen "MDSSED:triggers" ("trig_" +:+ Py.str_nat itr.1)
               "base_Transition" ("t_" +:+ Py.str_nat itr.1);
             Uml.StereoChild "trigger" (Uml.h (Uml.normalize_expr trigger));
             Uml.StereoClose "MDSSED:triggers";
             Uml.StereoOpen "MDSSED:actions" ("act_" +:+ Py.str_nat itr.1)
               "base_Transition" ("t_" +:+ Py.str_nat itr.1);
             Uml.StereoChild "action" (Uml.h action);
             Uml.StereoClose "MDSSED:actions"]))) = Raise e ->
  key_error e.
Proof.
  apply (collect_raises key_error). intros itr e'.
  apply (rbind_raises key_error); [apply field_raises |]. intros trig.
  apply (rbind_raises key_error); [apply field_raises | discriminate].
Qed.

Lemma make_stereotypes_raises sts trs ids (e : exn) :
  Uml.make_stereotypes sts trs ids = Raise e ->
  key_error e \/
  (e = TypeError /\ Exists (fun s => items_of (st_invariants s) = None) sts).
Proof.
  unfold Uml.make_stereotypes.
  destruct (Uml.collect_with sts 1 _) as [blocks | e'] eqn:Hb;
    cbn [Uml.rbind].
  - intros H. left. revert H.
    apply (rbind_raises key_error); [| discriminate].
    apply stereo_pairs_raises.
  - intros [= ->]. apply collect_with_raise_inv in Hb.
    assert (Hcase : forall s,
              (exists c : nat,
                 Uml.rbind (Uml.field "id" (st_id s)) (fun sid =>
                   Uml.rbind (Uml.lookup_key ids sid) (fun base =>
                     Uml.rbind (Uml.invariants_of s) (fun invs =>
                       Ret ([Uml.StereoOpen "MDSSED:states"
                               ("stinv_" +:+ Py.str_nat c) "base_State" base]
                            ++ map (fun iv => Uml.StereoChild "state"
                                      (Uml.h (Uml.normalize_expr iv))) invs
                            ++ [Uml.StereoClose "MDSSED:states"], c + 1))))
                 = Raise e) ->
              key_error e \/
              (e = TypeError /\ items_of (st_invariants s) = None)).
    { intros s [c Hc]. revert Hc.
      apply (rbind_raises
               (fun e => key_error e \/
                  (e = TypeError /\ items_of (st_invariants s) = None)));
        [intros H; left; by eapply field_raises |]. intros sid.
      apply (rbind_raises
               (fun e => key_error e \/
                  (e = TypeError /\ items_of (st_invariants s) = None)));
        [intros H; left; by eapply lookup_key_raises |]. intros base.
      apply (rbind_raises
               (fun e => key_error e \/
                  (e = TypeError /\ items_of (st_invariants s) = None)));
        [intros H; right; by apply invariants_of_raises | discriminate]. }
    apply List.Exists_exists in Hb as (s & Hin & Hs).
    destruct (Hcase s Hs) as [Hk | [-> Hnone]]; [by left |].
    right. split; [reflexivity |]. apply List.Exists_exists. by exists s.
Qed.

Lemma transition_line_inv ids (itr : nat * Transition) (y : list Uml.Line) :
  Uml.rbind (Uml.field "source" (tr_source itr.2)) (fun source =>
    Uml.rbind (Uml.lookup_key ids source) (fun src =>
      Uml.rbind (Uml.field "target" (tr_target itr.2)) (fun target =>
        Uml.rbind (Uml.lookup_key ids target) (fun tgt =>
          Ret [Uml.TransitionEl ("t_" +:+ Py.str_nat itr.1) src tgt])))) =
    Ret y ->
  exists src tgt,
    tr_source itr.2 = Some src /\ tr_target itr.2 = Some tgt /\
    is_Some (ids !! src) /\ is_Some (ids !! tgt).
Proof.
  destruct (tr_source itr.2) as [src |]; [| discriminate].
  cbn [Uml.field Uml.rbind]. unfold Uml.lookup_key at 1.
  destruct (ids !! src) as [xs |] eqn:Hs; [| discriminate].
  cbn [Uml.rbind].
  destruct (tr_target itr.2) as [tgt |]; [| discriminate].
  cbn [Uml.field Uml.rbind]. unfold Uml.lookup_key.
  destruct (ids !! tgt) as [xt |] eqn:Ht; [| discriminate].
  intros _. exists src, tgt. rewrite Hs. by eauto.
Qed.

(** When [make_transitions] returns there is a first state, and the source
    and the target of every transition are keys of the id map. *)
Lemma make_transitions_inv sts trs ids (tl : list Uml.Line) :
  Uml.make_transitions sts trs ids = Ret tl ->
  sts <> [] /\
  Forall (fun tr => exists src tgt,
            tr_source tr = Some src /\ tr_target tr = Some tgt /\
            is_Some (ids !! src) /\ is_Some (ids !! tgt)) trs.
Proof.
  unfold Uml.make_transitions. intros Ht.
  destruct sts as [| s0 rest]; [discriminate |]. split; [done |].
  cbn [Uml.rbind] in Ht.
  destruct (Uml.field "id" (st_id s0)) as [sid |]; [| discriminate].
  cbn [Uml.rbind] in Ht.
  destruct (Uml.lookup_key ids sid) as [xid |]; [| discriminate].
  cbn [Uml.rbind] in Ht.
  destruct (Uml.collect (enumerate 1 trs) _) as [user |] eqn:Hu in Ht;
    [| discriminate].
  apply collect_inv in Hu.
  eapply enumerate_Forall; [| exact Hu].
  intros i tr [y Hy]. cbn beta in Hy.
  by apply transition_line_inv in Hy.
Qed.

Lemma sections_inv (sts : list State) (trs : list Transition)
    (secs : Uml.Sections) :
  Uml.sections sts trs = Ret secs ->
  sts <> [] /\ Forall (fun s => is_Some (st_id s)) sts /\
  Forall (fun s => is_Some (items_of (st_invariants s))) sts /\
  Forall (well_formed_transition (declared_ids sts)) trs.
Proof.
  intros H. unfold Uml.sections in H.
  destruct (Uml.state_xmi_ids sts) as [ids |] eqn:Hids; [| discriminate].
  cbn [Uml.rbind] in H.
  destruct (Uml.make_state_nodes sts ids) as [nodes |]; [| discriminate].
  cbn [Uml.rbind] in H.
  destruct (Uml.make_transitions sts trs ids) as [tl |] eqn:Ht;
    [| discriminate].
  cbn [Uml.rbind] in H.
  destruct (Uml.make_stereotypes sts trs ids) as [sl |] eqn:Hs;
    [| discriminate].
  clear H. apply state_xmi_ids_inv in Hids as [Hall Hdom].
  apply make_transitions_inv in Ht as [Hne Hu].
  unfold Uml.make_stereotypes in Hs.
  destruct (Uml.collect_with sts 1 _) as [blocks |] eqn:Hb in Hs;
    [| discriminate].
  cbn [Uml.rbind] in Hs.
  destruct (Uml.collect (enumerate 1 trs) _) as [pairs |] eqn:Hp in Hs;
    [| discriminate].
  apply collect_inv in Hp. apply collect_with_inv in Hb.
  split; [exact Hne |]. split; [exact Hall |]. split.
  - eapply Forall_impl; [exact Hb |]. intros s (c & y & Hy). cbn beta in Hy.
    destruct (Uml.field "id" (st_id s)) as [sid |]; [| discriminate].
    cbn [Uml.rbind] in Hy.
    destruct (Uml.lookup_key ids sid) as [base |]; [| discriminate].
    cbn [Uml.rbind] in Hy. unfold Uml.invariants_of in Hy.
    destruct (items_of (st_invariants s)); [by eexists | discriminate].
  - assert (Hp' : Forall (fun tr => is_Some (tr_trigger tr) /\
                                     is_Some (tr_action tr)) trs).
    { eapply enumerate_Forall; [| exact Hp].
      intros i tr [z Hz]. cbn [fst snd] in Hz.
      destruct (tr_trigger tr); [| discriminate].
      destruct (tr_action tr); [| discriminate]. split; by eexists. }
    pose proof (proj2 (Forall_and _ _) (conj Hu Hp')) as Hboth.
    eapply Forall_impl; [exact Hboth |].
    intros tr [(src & tgt & Es & Et & Hsrc & Htgt) [[trig Eg] [act Ea]]].
    exists src, tgt, trig, act. repeat split; try done; by apply Hdom.
Qed.

Lemma sections_ok (s0 : State) (rest : list State) (trs : list Transition) :
  Forall (fun s => is_Some (st_id s)) (s0 :: rest) ->
  Forall (fun s => is_Some (items_of (st_invariants s))) (s0 :: rest) ->
  Forall (well_formed_transition (declared_ids (s0 :: rest))) trs ->
  Uml.sections (s0 :: rest) trs =
    Ret {| Uml.state_xml := Scheme.state_nodes (s0 :: rest);
           Uml.trans_xml := Scheme.transition_lines s0 trs;
           Uml.stereo_xml := Scheme.annotations (s0 :: rest) trs |}.
Proof.
  intros Hall Hinvs Hwf.
  destruct (state_xmi_ids_ok _ Hall) as (ids & Hids & Hlook).
  assert (Hsub : forall x, x ∈ declared_ids (s0 :: rest) ->
                           x ∈ map Scheme.sid_of (s0 :: rest)).
  { intros x Hx. apply declared_ids_elem in Hx as (s & Hin & Hid).
    apply list_elem_of_fmap. exists s. split; [| exact Hin].
    unfold Scheme.sid_of. by rewrite Hid. }
  unfold Uml.sections. rewrite Hids. cbn [Uml.rbind].
  rewrite (make_state_nodes_ok (s0 :: rest) ids Hall Hlook).
  cbn [Uml.rbind].
  rewrite (make_transitions_ok (s0 :: rest) trs ids _ Hall Hlook
             Hsub Hwf s0 rest eq_refl). cbn [Uml.rbind].
  rewrite (make_stereotypes_ok (s0 :: rest) trs ids _ Hall Hlook
             Hsub Hwf Hinvs).
  reflexivity.
Qed.

(** With a first state, ids for all the states and linked transitions,
    the generator gets as far as the invariants of the states. *)
Lemma sections_type_error (s0 : State) (rest : list State)
    (trs : list Transition) :
  Forall (fun s => is_Some (st_id s)) (s0 :: rest) ->
  Forall (linked (declared_ids (s0 :: rest))) trs ->
  Exists (fun s => items_of (st_invariants s) = None) (s0 :: rest) ->
  Uml.sections (s0 :: rest) trs = Raise TypeError.
Proof.
  intros Hall Hlinked Hex.
  destruct (state_xmi_ids_ok _ Hall) as (ids & Hids & Hlook).
  assert (Hsub : forall x, x ∈ declared_ids (s0 :: rest) ->
                           x ∈ map Scheme.sid_of (s0 :: rest)).
  { intros x Hx. apply declared_ids_elem in Hx as (s & Hin & Hid).
    apply list_elem_of_fmap. exists s. split; [| exact Hin].
    unfold Scheme.sid_of. by rewrite Hid. }
  unfold Uml.sections. rewrite Hids. cbn [Uml.rbind].
  rewrite (make_state_nodes_ok (s0 :: rest) ids Hall Hlook).
  cbn [Uml.rbind].
  assert (Ht : exists tl, Uml.make_transitions (s0 :: rest) trs ids = Ret tl).
  { unfold Uml.make_transitions. cbn [Uml.rbind].
    destruct (state_lookup (s0 :: rest) ids Hall Hlook s0) as [Hsid Hl];
      [by left |].
    rewrite Hsid. cbn [Uml.field Uml.rbind]. rewrite Hl. cbn [Uml.rbind].
    erewrite (collect_enumerate_ret trs 1 _
                (fun i tr => [Uml.TransitionEl (Scheme.transition_id i)
                                (Scheme.state_ext_id (Scheme.source_of tr))
                                (Scheme.state_ext_id (Scheme.target_of tr))]));
      [by eexists |].
    eapply Forall_impl; [exact Hlinked |].
    intros tr (src & tgt & Es & Et & Hs & Ht) i. cbn [fst snd].
    unfold Scheme.source_of, Scheme.target_of, Uml.lookup_key.
    rewrite Es, Et. cbn [Uml.field Uml.rbind default].
    rewrite (Hlook src (Hsub src Hs)). cbn [Uml.rbind].
    by rewrite (Hlook tgt (Hsub tgt Ht)). }
  destruct Ht as [tl ->]. cbn [Uml.rbind].
  unfold Uml.make_stereotypes.
  rewrite (collect_with_raise (s0 :: rest) 1 _ TypeError); [reflexivity | |].
  - apply Forall_forall. intros s Hin c.
    destruct (state_lookup (s0 :: rest) ids Hall Hlook s Hin) as [Hsid Hl].
    rewrite Hsid. cbn [Uml.field Uml.rbind]. rewrite Hl. cbn [Uml.rbind].
    unfold Uml.invariants_of.
    destruct (items_of (st_invariants s)); [left; by eexists | by right].
  - apply List.Exists_exists in Hex as (s & Hin & Hnone).
    apply List.Exists_exists. exists s. split; [exact Hin |]. intros c.
    apply list_elem_of_In in Hin.
    destruct (state_lookup (s0 :: rest) ids Hall Hlook s Hin) as [Hsid Hl].
    rewrite Hsid. cbn [Uml.field Uml.rbind]. rewrite Hl. cbn [Uml.rbind].
    unfold Uml.invariants_of. by rewrite Hnone.
Qed.

Lemma sections_type_error_inv (sts : list State) (trs : list Transition) :
  Uml.sections sts trs = Raise TypeError ->
  sts <> [] /\ Forall (fun s => is_Some (st_id s)) sts /\
  Forall (linked (declared_ids sts)) trs /\
  Exists (fun s => items_of (st_invariants s) = None) sts.
Proof.
  assert (Hno : forall e, key_error e -> e <> TypeError)
    by (intros e [k ->]; discriminate).
  unfold Uml.sections. intros H.
  destruct (Uml.state_xmi_ids sts) as [ids | e] eqn:Hids; cycle 1.
  { injection H as ->. by apply state_xmi_ids_raises, Hno in Hids. }
  cbn [Uml.rbind] in H.
  destruct (Uml.make_state_nodes sts ids) as [nodes | e] eqn:Hn; cycle 1.
  { injection H as ->. by apply make_state_nodes_raises, Hno in Hn. }
  cbn [Uml.rbind] in H.
  destruct (Uml.make_transitions sts trs ids) as [tl | e] eqn:Ht; cycle 1.
  { injection H as ->. destruct sts as [| s0 rest]; [discriminate Ht |].
    by apply make_transitions_raises, Hno in Ht. }
  cbn [Uml.rbind] in H.
  destruct (Uml.make_stereotypes sts trs ids) as [sl | e] eqn:Hs;
    [discriminate |].
  injection H as ->.
  apply state_xmi_ids_inv in Hids as [Hall Hdom].
  apply make_transitions_inv in Ht as [Hne Hu].
  apply make_stereotypes_raises in Hs as [Hk | [_ Hex]];
    [by apply Hno in Hk |].
  repeat split; try done.
  eapply Forall_impl; [exact Hu |].
  intros tr (src & tgt & Es & Et & Hsrc & Htgt).
  exists src, tgt. repeat split; try done; by apply Hdom.
Qed.

(** X16: the generator returns its three sections exactly when the
    document has at least one state, every state has an id and invariants
    that can be iterated (no key, a list, a string or an object), and every
    transition has its four keys with a source and a target that are ids of
    states; it does not ask that the document was validated.  It raises
    [IndexError] exactly when the list of states is empty (whatever the
    transitions are).  It raises [TypeError] exactly when there is a state,
    every state has an id, the source and the target of every transition
    are ids of states, and the invariants of some state cannot be iterated
    ([null], a number or a boolean).  In all other cases where it does not
    return it raises [KeyError]. *)
Theorem generator_returns_iff (sts : list State) (trs : list Transition) :
  ((exists secs, Uml.sections sts trs = Ret secs) <->
   sts <> [] /\ Forall (fun s => is_Some (st_id s)) sts /\
   Forall (fun s => is_Some (items_of (st_invariants s))) sts /\
   Forall (well_formed_transition (declared_ids sts)) trs) /\
  (Uml.sections sts trs = Raise IndexError <-> sts = []) /\
  (Uml.sections sts trs = Raise TypeError <->
   sts <> [] /\ Forall (fun s => is_Some (st_id s)) sts /\
   Forall (linked (declared_ids sts)) trs /\
   Exists (fun s => items_of (st_invariants s) = None) sts).
Proof.
  split; [split | split; split].
  - intros [secs H]. by apply sections_inv in H.
  - intros (Hne & Hall & Hinvs & Hwf).
    destruct sts as [| s0 rest]; [done |].
    eexists. by apply sections_ok.
  - destruct sts as [| s0 rest]; [done |]. intros H.
    assert (Hno : forall e, key_error e \/ e = TypeError -> e <> IndexError)
      by (intros e [[k ->] | ->]; discriminate).
    assert (Hcontra : IndexError <> IndexError); [| done].
    apply Hno. revert H. unfold Uml.sections.
    apply (rbind_raises (fun e => key_error e \/ e = TypeError));
      [intros H; left; by eapply state_xmi_ids_raises | intros ids].
    apply (rbind_raises (fun e => key_error e \/ e = TypeError));
      [intros H; left; by eapply make_state_nodes_raises | intros nodes].
    apply (rbind_raises (fun e => key_error e \/ e = TypeError));
      [intros H; left; by eapply make_transitions_raises | intros tl].
    apply (rbind_raises (fun e => key_error e \/ e = TypeError));
      [| discriminate].
    intros H. apply make_stereotypes_raises in H as [H | [H _]];
      [by left | by right].
  - by intros ->.
  - apply sections_type_error_inv.
  - intros (Hne & Hall & Hlinked & Hex).
    destruct sts as [| s0 rest]; [done |]. by apply sections_type_error.
Qed.

(** With the text [ab] for the invariants of a state the generator writes
    one line for each character; with [null] or a number it raises. *)
Example invariants_text_is_iterated :
  Uml.sections
    [ {| st_id := Some "Idle"; st_invariants := NotAList (Some ["a"; "b"]) |} ]
    [] =
    Ret {| Uml.state_xml :=
             [Uml.Subvertex "uml:Pseudostate" "init_1" None;
              Uml.Subvertex "uml:State" "s_Idle" (Some "Idle");
              Uml.Subvertex "uml:FinalState" "final_1" None];
           Uml.trans_xml := [Uml.TransitionEl "t_init" "init_1" "s_Idle"];
           Uml.stereo_xml :=
             [Uml.StereoOpen "MDSSED:states" "stinv_1" "base_State" "s_Idle";
              Uml.StereoChild "state" "a";
              Uml.StereoChild "state" "b";
              Uml.StereoClose "MDSSED:states"] |}.
Proof. vm_compute. reflexivity. Qed.

Example invariants_number_raises :
  Uml.sections
    [ {| st_id := Some "Idle"; st_invariants := NotAList None |} ] [] =
    Raise TypeError.
Proof. vm_compute. reflexivity. Qed.

(** ** The escaping of the generator *)

Lemma escape_char_plain (c : ascii) :
  is_escaped_char c = false -> Uml.escape_char c = String c EmptyString.
Proof.
  destruct c as [[] [] [] [] [] [] [] []]; vm_compute;
    intros H; first [discriminate H | reflexivity].
Qed.

Lemma escape_char_entity (c : ascii) :
  is_escaped_char c = true ->
  (c = "&"%char /\ Uml.escape_char c = "&amp;") \/
  (c = "<"%char /\ Uml.escape_char c = "&lt;") \/
  (c = ">"%char /\ Uml.escape_char c = "&gt;") \/
  (c = Py.dquote /\ Uml.escape_char c = "&quot;") \/
  (c = "'"%char /\ Uml.escape_char c = "&#x27;").
Proof.
  destruct c as [[] [] [] [] [] [] [] []]; vm_compute;
    intros H; first [discriminate H | tauto].
Qed.

Lemma escape_char_no_markup (c : ascii) :
  all_in (fun c => negb (is_markup_char c)) (Uml.escape_char c) = true.
Proof. destruct c as [[] [] [] [] [] [] [] []]; reflexivity. Qed.

Lemma h_app (a b : string) : Uml.h (a +:+ b) = Uml.h a +:+ Uml.h b.
Proof.
  induction a as [| c a IH]; [reflexivity |].
  rewrite append_cons. cbn [Uml.h]. by rewrite IH, append_assoc.
Qed.

(** X17: the escaping of the generator works character by character: the
    escape of a concatenation is the concatenation of the escapes, a text
    without the five characters is left as it is, and no escaped text holds
    an angle bracket, a double quote or an apostrophe.  The generator
    escapes the names of the states and the texts of the invariants, the
    triggers and the actions; the ids that it writes in [xmi:id], [source],
    [target] and [base_State] are not escaped. *)
Theorem escape_is_markup_free (a b : string) :
  Uml.h (a +:+ b) = Uml.h a +:+ Uml.h b /\
  (all_in (fun c => negb (is_escaped_char c)) a = true -> Uml.h a = a) /\
  all_in (fun c => negb (is_markup_char c)) (Uml.h a) = true.
Proof.
  split; [apply h_app |]. split.
  - unfold all_in. induction a as [| c a IH]; [reflexivity |].
    cbn [list_ascii_of_string forallb Uml.h]. intros H.
    apply andb_true_iff in H as [Hc Ha]. apply negb_true_iff in Hc.
    by rewrite (escape_char_plain c Hc), (IH Ha).
  - induction a as [| c a IH]; [reflexivity |].
    cbn [Uml.h]. by rewrite all_in_app, escape_char_no_markup, IH.
Qed.

(** The id of a state of scenario A. *)
Lemma escape_is_markup_free_witness : Uml.h "Idle" = "Idle".
Proof. apply (escape_is_markup_free "Idle" EmptyString). reflexivity. Defined.

Lemma h_inj (x y : string) : Uml.h x = Uml.h y -> x = y.
Proof.
  revert y. induction x as [| c x IH]; intros [| d y]; cbn [Uml.h].
  - done.
  - destruct (is_escaped_char d) eqn:Hd.
    + by destruct (escape_char_entity d Hd)
        as [[_ ->] | [[_ ->] | [[_ ->] | [[_ ->] | [_ ->]]]]].
    + by rewrite (escape_char_plain d Hd).
  - destruct (is_escaped_char c) eqn:Hc.
    + by destruct (escape_char_entity c Hc)
        as [[_ ->] | [[_ ->] | [[_ ->] | [[_ ->] | [_ ->]]]]].
    + by rewrite (escape_char_plain c Hc).
  - intros H.
    destruct (is_escaped_char c) eqn:Hc, (is_escaped_char d) eqn:Hd.
    + destruct (escape_char_entity c Hc)
        as [[-> Ec] | [[-> Ec] | [[-> Ec] | [[-> Ec] | [-> Ec]]]]];
      destruct (escape_char_entity d Hd)
        as [[-> Ed] | [[-> Ed] | [[-> Ed] | [[-> Ed] | [-> Ed]]]]];
      rewrite ?Ec, ?Ed in H; rewrite ?append_cons, ?append_nil_l in H;
      first [discriminate H | injection H as H; f_equal; by apply IH].
    + rewrite (escape_char_plain d Hd) in H.
      destruct (escape_char_entity c Hc)
        as [[-> Ec] | [[-> Ec] | [[-> Ec] | [[-> Ec] | [-> Ec]]]]];
      rewrite Ec in H; rewrite ?append_cons, ?append_nil_l in H;
      injection H as <- _; discriminate Hd.
    + rewrite (escape_char_plain c Hc) in H.
      destruct (escape_char_entity d Hd)
        as [[-> Ed] | [[-> Ed] | [[-> Ed] | [[-> Ed] | [-> Ed]]]]];
      rewrite Ed in H; rewrite ?append_cons, ?append_nil_l in H;
      injection H as -> _; discriminate Hc.
    + rewrite (escape_char_plain c Hc), (escape_char_plain d Hd) in H.
      rewrite !append_cons, !append_nil_l in H.
      injection H as -> H. f_equal. by apply IH.
Qed.

(** X18: the escaping loses nothing: two different texts have different
    escapes, so that two states with different ids keep different names in
    the generated model, and a text that holds an entity written out is not
    mixed up with the text that holds the character. *)
Theorem escape_is_injective (x y : string) : x <> y -> Uml.h x <> Uml.h y.
Proof. intros Hne H. by apply Hne, h_inj. Qed.

(** A text with an angle bracket and the text of its escape. *)
Lemma escape_is_injective_witness :
  Uml.h "a<b" = "a&lt;b" /\ Uml.h "a<b" <> Uml.h "a&lt;b".
Proof.
  split; [reflexivity |].
  apply (escape_is_injective "a<b" "a&lt;b"). discriminate.
Defined.

(** ** The normalization of the generator *)

Lemma notpresent_match_parts (op s g r : string) :
  Uml.notpresent_match op s = Some (g, r) ->
  s = g +:+ Py.dq "'notpresent'" +:+ r /\
  exists g', g = String "p" g'.
Proof.
  unfold Uml.notpresent_match. intros H.
  apply bind_Some in H as (r1 & E1 & H).
  pose proof (span_app Py.is_space r1) as Hs1.
  destruct (Re.span Py.is_space r1) as [w1 r2]. cbn [fst snd] in Hs1.
  apply bind_Some in H as (r3 & E3 & H).
  pose proof (span_app Py.is_space r3) as Hs3.
  destruct (Re.span Py.is_space r3) as [w2 r4]. cbn [fst snd] in Hs3.
  apply bind_Some in H as (r5 & E5 & H).
  injection H as <- <-. split; [| by eexists].
  rewrite (lit_app _ _ _ E1), Hs1, (lit_app _ _ _ E3), Hs3,
    (lit_app _ _ _ E5).
  by rewrite !append_assoc.
Qed.

Lemma string_length_app (a b : string) :
  String.length (a +:+ b) = String.length a + String.length b.
Proof.
  induction a as [| c a IH]; [reflexivity |].
  rewrite append_cons. simpl. by rewrite IH.
Qed.

Lemma sub_skip (op t r : string) :
  Uml.sub_notpresent op (String.length t) (t +:+ r) =
    Uml.sub_notpresent op 0 r.
Proof.
  induction t as [| c t IH]; [by rewrite append_nil_l |].
  rewrite append_cons. exact IH.
Qed.

(** At a match the replacement is written and the scan goes on after the
    match. *)
Lemma sub_match (op s g r : string) :
  Uml.notpresent_match op s = Some (g, r) ->
  Uml.sub_notpresent op 0 s =
    g +:+ Py.dq "'not present'" +:+ Uml.sub_notpresent op 0 r.
Proof.
  intros Hm. destruct (notpresent_match_parts _ _ _ _ Hm) as [Hs [g' Hg]].
  destruct s as [| c s']; [by subst g |].
  cbn [Uml.sub_notpresent]. rewrite Hm. do 2 f_equal.
  subst g. rewrite append_cons in Hs. injection Hs as _ ->.
  rewrite <- append_assoc.
  replace (String.length (String "p" g') + 11)
    with (String.length (g' +:+ Py.dq "'notpresent'"))
    by (rewrite string_length_app; simpl; lia).
  apply sub_skip.
Qed.

Lemma sub_free (op a rest : string) :
  free op a rest = true ->
  Uml.sub_notpresent op 0 (a +:+ rest) = a +:+ Uml.sub_notpresent op 0 rest.
Proof.
  induction a as [| c a IH]; [by rewrite !append_nil_l |].
  cbn [free]. destruct (Uml.notpresent_match op _) eqn:Hm; [discriminate |].
  intros Hf. rewrite !append_cons in *. cbn [Uml.sub_notpresent].
  by rewrite Hm, (IH Hf).
Qed.

Lemma sub_nil (op : string) : Uml.sub_notpresent op 0 EmptyString = EmptyString.
Proof. reflexivity. Qed.

Lemma contains_tail (p s : string) (c : ascii) :
  Py.contains p (String c s) = false -> Py.contains p s = false.
Proof. cbn [Py.contains]. intros H. by apply orb_false_iff in H as [_ H]. Qed.

Lemma free_without_literal (op s : string) :
  Py.contains (Py.dq "'notpresent'") s = false -> free op s EmptyString = true.
Proof.
  induction s as [| c s IH]; [reflexivity |]. intros Hc.
  cbn [free]. rewrite append_nil_r.
  destruct (Uml.notpresent_match op (String c s)) as [[g r] |] eqn:Hm.
  - apply notpresent_match_parts in Hm as [Hs _].
    rewrite Hs, contains_app in Hc. discriminate Hc.
  - apply IH. by eapply contains_tail.
Qed.

(** X19: the normalization changes only texts that hold the value
    [notpresent] between double quotes: every other text, and so every
    trigger and invariant that does not compare with that value, is written
    to the model as it is in the document. *)
Theorem normalize_without_literal (expr : string) :
  Py.contains (Py.dq "'notpresent'") expr = false ->
  Uml.normalize_expr expr = expr.
Proof.
  intros Hc. unfold Uml.normalize_expr.
  pose proof (sub_free "==" expr EmptyString (free_without_literal _ _ Hc))
    as H1.
  pose proof (sub_free "!=" expr EmptyString (free_without_literal _ _ Hc))
    as H2.
  rewrite sub_nil, !append_nil_r in H1, H2. by rewrite H1, H2.
Qed.

(** The invariant of scenario A. *)
Lemma normalize_without_literal_witness :
  Uml.normalize_expr (Py.dq "switch1.power == 'off'") =
    Py.dq "switch1.power == 'off'".
Proof.
  apply (normalize_without_literal (Py.dq "switch1.power == 'off'")).
  reflexivity.
Defined.

Lemma free_app (op a b rest : string) :
  free op (a +:+ b) rest = free op a (b +:+ rest) && free op b rest.
Proof.
  induction a as [| c a IH]; [by rewrite !append_nil_l |].
  rewrite append_cons. cbn [free].
  rewrite !append_cons, append_assoc.
  destruct (Uml.notpresent_match op _); [reflexivity | exact IH].
Qed.

Lemma no_match_head (op s : string) (c : ascii) :
  Ascii.eqb "p" c = false -> Uml.notpresent_match op (String c s) = None.
Proof. intros Hc. unfold Uml.notpresent_match. cbn [Re.lit]. by rewrite Hc. Qed.

Lemma free_no_p (op a rest : string) :
  all_in (fun c => negb (Ascii.eqb "p" c)) a = true -> free op a rest = true.
Proof.
  unfold all_in. induction a as [| c a IH]; [reflexivity |].
  cbn [list_ascii_of_string forallb free]. intros H.
  apply andb_true_iff in H as [Hc Ha]. apply negb_true_iff in Hc.
  by rewrite append_cons, (no_match_head _ _ _ Hc), (IH Ha).
Qed.

Lemma space_not_p (c : ascii) :
  Py.is_space c = true -> negb (Ascii.eqb "p" c) = true.
Proof.
  destruct c as [[] [] [] [] [] [] [] []]; vm_compute;
    intros H; first [discriminate H | reflexivity].
Qed.

Lemma space_not_S (c : ascii) :
  Py.is_space c = true -> Ascii.eqb "S" c = false.
Proof.
  destruct c as [[] [] [] [] [] [] [] []]; vm_compute;
    intros H; first [discriminate H | reflexivity].
Qed.

Lemma free_blank (op w rest : string) :
  blank w = true -> free op w rest = true.
Proof.
  intros Hw. apply free_no_p. rewrite blank_all_in in Hw.
  revert Hw. apply all_in_impl, space_not_p.
Qed.

(** The pattern for [op] matches where the atom starts. *)
Lemma match_here (op w1 w2 r : string) :
  blank w1 = true -> blank w2 = true -> op = "==" \/ op = "!=" ->
  Uml.notpresent_match op
    ("presenceSensor.presence" +:+ w1 +:+ op +:+ w2
       +:+ Py.dq "'notpresent'" +:+ r) =
    Some ("presenceSensor.presence" +:+ w1 +:+ op +:+ w2, r).
Proof.
  intros H1 H2 Hop. unfold Uml.notpresent_match.
  rewrite lit_prefix. cbn [mbind option_bind].
  rewrite span_stop;
    [| by rewrite <- blank_all_in | by apply op_stops].
  rewrite lit_prefix. cbn [mbind option_bind].
  rewrite span_stop; [| by rewrite <- blank_all_in | reflexivity].
  by rewrite lit_prefix.
Qed.

(** The pattern for the other operator does not match there. *)
Lemma no_match_other (op op' w1 r : string) :
  blank w1 = true ->
  (op = "==" /\ op' = "!=") \/ (op = "!=" /\ op' = "==") ->
  Uml.notpresent_match op'
    ("presenceSensor.presence" +:+ w1 +:+ op +:+ r) = None.
Proof.
  intros H1 Hop. unfold Uml.notpresent_match.
  rewrite lit_prefix. cbn [mbind option_bind].
  rewrite span_stop;
    [| by rewrite <- blank_all_in
     | destruct Hop as [[-> _] | [-> _]]; reflexivity].
  by destruct Hop as [[-> ->] | [-> ->]].
Qed.

Lemma lit_cancel (a p s : string) :
  Re.lit (a +:+ p) (a +:+ s) = Re.lit p s.
Proof.
  induction a as [| c a IH]; [reflexivity |].
  rewrite !append_cons. cbn [Re.lit]. by rewrite Ascii.eqb_refl.
Qed.

Lemma lit_head_ne (a c : ascii) (p s : string) :
  Ascii.eqb a c = false -> Re.lit (String a p) (String c s) = None.
Proof. intros H. cbn [Re.lit]. by rewrite H. Qed.

(** Nor inside the name of the attribute. *)
Lemma no_match_inside (op op' w1 r : string) :
  blank w1 = true -> op = "==" \/ op = "!=" ->
  Uml.notpresent_match op' ("presence" +:+ w1 +:+ op +:+ r) = None.
Proof.
  intros H1 Hop. unfold Uml.notpresent_match.
  change "presenceSensor.presence" with ("presence" +:+ "Sensor.presence").
  rewrite lit_cancel.
  destruct w1 as [| c w1].
  - by destruct Hop as [-> | ->].
  - cbn [blank] in H1. apply andb_true_iff in H1 as [Hc _].
    rewrite (append_cons c). by rewrite (lit_head_ne _ _ _ _ (space_not_S c Hc)).
Qed.

Lemma other_pass (op op' w0 w1 w2 w3 : string) (spaced : bool) :
  blank w0 = true -> blank w1 = true -> blank w2 = true -> blank w3 = true ->
  (op = "==" /\ op' = "!=") \/ (op = "!=" /\ op' = "==") ->
  let X := if spaced then Py.dq "'not present'" else Py.dq "'notpresent'" in
  Uml.sub_notpresent op' 0
    (w0 +:+ "presenceSensor.presence" +:+ w1 +:+ op +:+ w2 +:+ X +:+ w3) =
    w0 +:+ "presenceSensor.presence" +:+ w1 +:+ op +:+ w2 +:+ X +:+ w3.
Proof.
  intros H0 H1 H2 H3 Hop X.
  assert (Hop1 : op = "==" \/ op = "!=") by (destruct Hop as [[? _] | [? _]]; auto).
  set (T := w0 +:+ "presenceSensor.presence" +:+ w1 +:+ op +:+ w2 +:+ X +:+ w3).
  rewrite <- (append_nil_r T) at 1.
  rewrite sub_free; [by rewrite sub_nil, append_nil_r |].
  assert (HX : exists X1 X2,
             X = X1 +:+ "p" +:+ X2 /\
             all_in (fun c => negb (Ascii.eqb "p" c)) X1 = true /\
             all_in (fun c => negb (Ascii.eqb "p" c)) X2 = true /\
             forall r, Uml.notpresent_match op' ("p" +:+ X2 +:+ r) = None).
  { subst X. destruct spaced.
    - exists (Py.dq "'not "), (Py.dq "resent'"). by repeat split.
    - exists (Py.dq "'not"), (Py.dq "resent'"). by repeat split. }
  destruct HX as (X1 & X2 & HX & HX1 & HX2 & HXp). subst T. rewrite HX.
  change ("presenceSensor.presence" +:+ w1 +:+ op +:+ w2 +:+
            (X1 +:+ "p" +:+ X2) +:+ w3)
    with ("p" +:+ "resenceSensor." +:+ "p" +:+ "resence" +:+ w1 +:+ op +:+ w2
            +:+ (X1 +:+ "p" +:+ X2) +:+ w3).
  rewrite !free_app, !append_nil_r.
  rewrite (free_blank op' w0), (free_blank op' w1), (free_blank op' w2),
    (free_blank op' w3) by done.
  rewrite (free_no_p op' "resenceSensor."), (free_no_p op' "resence"),
    (free_no_p op' X1), (free_no_p op' X2), (free_no_p op' op);
    [| by destruct Hop1 as [-> | ->] | done | done | done | done].
  cbn [free andb].
  change ("p" +:+ "resenceSensor." +:+ "p" +:+ "resence" +:+ w1 +:+ op +:+ w2
            +:+ (X1 +:+ "p" +:+ X2) +:+ w3)
    with ("presenceSensor.presence" +:+ w1 +:+ op +:+ w2
            +:+ (X1 +:+ "p" +:+ X2) +:+ w3).
  rewrite (no_match_other op op') by done.
  change ("p" +:+ "resence" +:+ w1 +:+ op +:+ w2
            +:+ (X1 +:+ "p" +:+ X2) +:+ w3)
    with ("presence" +:+ w1 +:+ op +:+ w2 +:+ (X1 +:+ "p" +:+ X2) +:+ w3).
  rewrite (no_match_inside op op') by done.
  by rewrite HXp.
Qed.

Lemma rewrite_pass (op w0 w1 w2 w3 : string) :
  blank w0 = true -> blank w1 = true -> blank w2 = true -> blank w3 = true ->
  op = "==" \/ op = "!=" ->
  Uml.sub_notpresent op 0
    (w0 +:+ "presenceSensor.presence" +:+ w1 +:+ op +:+ w2
        +:+ Py.dq "'notpresent'" +:+ w3) =
    w0 +:+ "presenceSensor.presence" +:+ w1 +:+ op +:+ w2
       +:+ Py.dq "'not present'" +:+ w3.
Proof.
  intros H0 H1 H2 H3 Hop.
  rewrite sub_free by (by apply free_blank). f_equal.
  rewrite (sub_match _ _ _ _ (match_here op w1 w2 w3 H1 H2 Hop)).
  rewrite !append_assoc. do 5 f_equal.
  rewrite <- (append_nil_r w3) at 1.
  rewrite sub_free by (by apply free_blank).
  by rewrite sub_nil, append_nil_r.
Qed.

(** X20: an atom that compares the attribute [presence] of the device
    [presenceSensor] with the value [notpresent], with [==] or with [!=] and
    with any white space around its parts, is written to the model with the
    value [not present]; nothing else of the atom changes. *)
Theorem notpresent_atom_is_normalized (w0 w1 op w2 w3 : string) :
  blank w0 = true -> blank w1 = true -> blank w2 = true -> blank w3 = true ->
  op = "==" \/ op = "!=" ->
  Uml.normalize_expr
    (atom_text w0 "presenceSensor" "presence" w1 op w2 "notpresent" w3) =
    atom_text w0 "presenceSensor" "presence" w1 op w2 "not present" w3.
Proof.
  intros H0 H1 H2 H3 Hop. unfold Uml.normalize_expr.
  change (atom_text w0 "presenceSensor" "presence" w1 op w2 "notpresent" w3)
    with (w0 +:+ "presenceSensor.presence" +:+ w1 +:+ op +:+ w2
             +:+ Py.dq "'notpresent'" +:+ w3).
  change (atom_text w0 "presenceSensor" "presence" w1 op w2 "not present" w3)
    with (w0 +:+ "presenceSensor.presence" +:+ w1 +:+ op +:+ w2
             +:+ Py.dq "'not present'" +:+ w3).
  destruct Hop as [-> | ->].
  - rewrite rewrite_pass by auto.
    apply (other_pass "==" "!=" w0 w1 w2 w3 true); auto.
  - rewrite (other_pass "!=" "==" w0 w1 w2 w3 false) by auto.
    apply rewrite_pass; auto.
Qed.

(** The atom with [!=], a tab and two spaces. *)
Lemma notpresent_atom_is_normalized_witness :
  Uml.normalize_expr (Py.dq " presenceSensor.presence	!=  'notpresent'") =
    Py.dq " presenceSensor.presence	!=  'not present'".
Proof.
  apply (notpresent_atom_is_normalized " " "	" "!=" "  " EmptyString);
    first [reflexivity | by right].
Defined.

(** ** The documents that the validator accepts *)

Local Set Warnings "-clear-no-such-hyp".

Lemma clean_bind_iff {A B} (m : M A) (k : A -> M B) (b : B) :
  (forall a, writes (fun _ => True) (k a)) ->
  clean (bind m k) b <-> exists a, clean m a /\ clean (k a) b.
Proof.
  intros Hk. split; [by apply clean_bind |].
  intros (a & Hm & Ha). by apply (clean_bind_intro _ _ a).
Qed.

Lemma clean_ret_iff {A} (a b : A) : clean (ret a) b <-> a = b.
Proof. split; [apply clean_ret | by intros ->]. Qed.

Lemma clean_err_if_iff (c : bool) (e : Diag) :
  clean (err_if c e) tt <-> c = false.
Proof. split; [apply clean_err_if | by intros ->]. Qed.

Lemma clean_err {A} (e : Diag) (k : unit -> M A) (a : A) :
  writes (fun _ => True) (k tt) -> ~ clean (bind (err e) k) a.
Proof.
  intros Hk H. apply clean_bind in H as ([] & H & _); [discriminate H |].
  by intros [].
Qed.

Lemma clean_for_each_iff {A} (xs : list A) (body : A -> M unit) :
  (forall x, writes (fun _ => True) (body x)) ->
  clean (for_each xs body) tt <-> Forall (fun x => clean (body x) tt) xs.
Proof.
  intros Hw. split; [by apply clean_for_each |].
  unfold for_each. induction 1 as [| x xs Hx _ IH]; [reflexivity |].
  cbn [for_fold]. by apply (clean_bind_intro _ _ tt).
Qed.

Lemma validated_iff_clean spec caps_root :
  validated spec caps_root <-> clean (main_checks spec caps_root) tt.
Proof.
  split; [apply validated_checks |].
  unfold validated, main, clean, bind, get_errs, ret. by intros ->.
Qed.

Lemma forallb_has_Forall {V} (d : gmap string V) (l : list string) :
  forallb (has d) l = true <-> Forall (fun a => is_Some (d !! a)) l.
Proof.
  rewrite forallb_forall, List.Forall_forall.
  split; intros H a Ha; specialize (H a Ha).
  - by apply bool_decide_eq_true in H.
  - by apply bool_decide_eq_true.
Qed.

Lemma validate_device_clean cd dm0 d dm1 :
  clean (validate_device cd dm0 d) dm1 <->
  exists did dtype,
    d_id d = Some did /\ d_type d = Some dtype /\
    device_well_formed cd d /\ dm0 !! did = None /\
    dm1 = <[did := dtype]> dm0.
Proof.
  unfold validate_device, device_well_formed, clean.
  destruct (d_id d) as [did |];
    [| split; [discriminate | by intros (? & ? & [=] & _)]].
  destruct (d_type d) as [dtype |];
    [| split; [discriminate | by intros (? & ? & _ & [=] & _)]].
  assert (Hbody : forall (x : section_ string), x <> Absent ->
    (if negb (has cd dtype) then err (UnknownDeviceType dtype) ;; ret dm0
     else
       err_if (has dm0 did) (DuplicateDeviceId did) ;;
       ct <- getitem cd dtype ;;
       got_attrs <- iterate x ;;
       err_if (negb (forallb (has (attributes ct)) got_attrs))
         (DeviceAttributesInvalid did
            (Py.sorted_set
               (List.filter (fun a => negb (has (attributes ct) a))
                  got_attrs))) ;;
       ret (<[did := dtype]> dm0))%M [] = (Ret dm1, []) <->
    exists did0 dtype0,
      Some did = Some did0 /\ Some dtype = Some dtype0 /\
      (exists did1 dtype1 attrs ct,
         Some did = Some did1 /\ Some dtype = Some dtype1 /\
         x <> Absent /\ items_of x = Some attrs /\
         cd !! dtype1 = Some ct /\
         Forall (fun a => is_Some (attributes ct !! a)) attrs) /\
      dm0 !! did0 = None /\ dm1 = <[did0 := dtype0]> dm0).
  { intros x Hx. rewrite !has_lookup.
    destruct (cd !! dtype) as [ct |] eqn:Hct; cbn [negb]; cycle 1.
    { unfold bind, err, ret. split; [discriminate |].
      intros (? & ? & _ & _ & (? & ? & ? & ? & _ & [= <-] & _ & _ & Hc & _)
              & _).
      congruence. }
    rewrite bind_err_if, (bind_getitem _ _ _ _ _ Hct).
    destruct (items_of x) as [attrs |] eqn:Hit; cycle 1.
    { rewrite bind_iterate_raise by exact Hit. split; [discriminate |].
      by intros (? & ? & _ & _ & (? & ? & ? & ? & _ & _ & _ & [=] & _) & _). }
    rewrite (bind_iterate _ attrs) by exact Hit. rewrite bind_err_if.
    unfold ret.
    destruct (dm0 !! did) as [t |] eqn:Hdm.
    + split.
      * destruct (negb (forallb (has (attributes ct)) attrs)); discriminate.
      * intros (? & ? & [= <-] & _ & _ & Hn & _). congruence.
    + destruct (forallb (has (attributes ct)) attrs) eqn:Hall; cbn [negb].
      * apply forallb_has_Forall in Hall. split.
        -- intros [= <-]. exists did, dtype. repeat split; try done.
           by exists did, dtype, attrs, ct.
        -- by intros (? & ? & [= <-] & [= <-] & _ & _ & ->).
      * split; [discriminate |].
        intros (? & ? & _ & _ &
                (? & ? & a & c & _ & [= <-] & _ & [= <-] & Hc & Ha) & _).
        rewrite Hct in Hc. injection Hc as <-.
        apply forallb_has_Forall in Ha. congruence. }
  destruct (d_attributes d) as [| items | attrs0] eqn:Hat.
  - split; [discriminate |].
    by intros (? & ? & _ & _ & (? & ? & ? & ? & _ & _ & Hne & _) & _).
  - by apply Hbody.
  - by apply Hbody.
Qed.

Lemma add_device_some dm d did dtype :
  d_id d = Some did -> d_type d = Some dtype ->
  add_device dm d = <[did := dtype]> dm.
Proof. intros Hid Hty. unfold add_device. by rewrite Hid, Hty. Qed.

Lemma device_loop_clean cd (ds : list Device) (dm0 dm : gmap string string) :
  clean (for_fold ds dm0 (validate_device cd)) dm <->
  Forall (device_well_formed cd) ds /\ NoDup (omap d_id ds) /\
  (forall k, k ∈ omap d_id ds -> dm0 !! k = None) /\
  dm = fold_left add_device ds dm0.
Proof.
  revert dm0 dm. induction ds as [| d ds IH]; intros dm0 dm.
  - cbn [for_fold]. rewrite clean_ret_iff. split.
    + intros <-. repeat split; [constructor | constructor |].
      intros k Hk. by apply elem_of_nil in Hk.
    + by intros (_ & _ & _ & ->).
  - cbn [for_fold]. rewrite clean_bind_iff
      by (intros; apply writes_for_fold; intros;
          eapply writes_any, validate_device_writes).
    split.
    + intros (dm1 & Hd & Hrest).
      apply validate_device_clean in Hd
        as (did & dtype & Hid & Hty & Hwf & Hnone & ->).
      apply IH in Hrest as (Hall & Hnd & Hdisj & ->).
      cbn [omap list_omap]. rewrite Hid. repeat split.
      * by constructor.
      * apply NoDup_cons. split; [| exact Hnd].
        intros Hin. apply Hdisj in Hin. by rewrite lookup_insert_eq in Hin.
      * intros k Hk. apply elem_of_cons in Hk as [-> | Hk]; [done |].
        apply Hdisj in Hk. by apply lookup_insert_None in Hk as [? _].
      * cbn [fold_left]. by rewrite (add_device_some dm0 d did dtype Hid Hty).
    + intros (Hall & Hnd & Hdisj & ->).
      inversion Hall as [| ? ? Hwf Hall']; subst.
      pose proof Hwf as (did & dtype & attrs & ct & Hid & Hty & _).
      cbn [omap list_omap] in Hnd, Hdisj. rewrite Hid in Hnd, Hdisj.
      apply NoDup_cons in Hnd as [Hnin Hnd].
      exists (<[did := dtype]> dm0). split.
      * apply validate_device_clean. exists did, dtype.
        repeat split; try done. apply Hdisj. by left.
      * apply IH. repeat split; try done.
        -- intros k Hk. apply lookup_insert_None. split.
           ++ apply Hdisj. by right.
           ++ by intros ->.
        -- cbn [fold_left]. by rewrite (add_device_some dm0 d did dtype Hid Hty).
Qed.

Lemma validate_devices_clean spec caps_root dm cd' :
  clean (validate_devices spec caps_root) (dm, cd') <->
  exists ds,
    devices spec = Items ds /\
    Forall (device_well_formed (default ∅ (caps_devices caps_root))) ds /\
    NoDup (omap d_id ds) /\
    Forall (fun must => is_Some (device_types ds !! must)) required_devices /\
    dm = device_types ds /\ cd' = default ∅ (caps_devices caps_root).
Proof.
  unfold validate_devices.
  destruct (devices spec) as [| | ds].
  - split; [discriminate | by intros (? & [=] & _)].
  - split; [discriminate | by intros (? & [=] & _)].
  - set (cd := default ∅ (caps_devices caps_root)).
    assert (Hw : forall dm1 : gmap string string, writes (fun _ => True)
              (for_each required_devices (required_check dm1) ;;
               ret (dm1, cd))%M).
    { intros. apply writes_bind; [| intros; apply writes_ret].
      apply writes_for_each. intros.
      eapply writes_any, required_check_writes. }
    rewrite clean_bind_iff by exact Hw. split.
    + intros (dm1 & Hloop & Hreq).
      apply device_loop_clean in Hloop as (Hall & Hnd & _ & ->).
      apply clean_bind in Hreq as ([] & Hreq & Hret);
        [| intros; apply writes_ret].
      apply clean_ret in Hret. injection Hret as <- <-.
      apply clean_for_each in Hreq;
        [| intros; eapply writes_any, required_check_writes].
      exists ds. repeat split; try done.
      eapply List.Forall_impl; [| exact Hreq]. intros m Hm.
      apply clean_err_if, negb_false_iff in Hm.
      by apply bool_decide_eq_true in Hm.
    + intros (ds' & [= <-] & Hall & Hnd & Hreq & -> & ->).
      exists (device_types ds). split.
      * apply device_loop_clean. repeat split; try done.
      * apply (clean_bind_intro _ _ tt); [| reflexivity].
        apply clean_for_each_iff;
          [intros; eapply writes_any, required_check_writes |].
        eapply List.Forall_impl; [| exact Hreq]. intros m Hm.
        apply clean_err_if_iff, negb_false_iff. by apply bool_decide_eq_true.
Qed.

Lemma check_keys_clean spec :
  clean (check_keys spec) tt <->
  is_Some (bundle_name spec) /\ devices spec <> Absent /\
  states spec <> Absent /\ transitions spec <> Absent /\
  is_Some (notes spec).
Proof.
  unfold check_keys. rewrite clean_for_each_iff
    by (intros; by apply writes_err_if).
  unfold top_level_keys. rewrite !Forall_cons, Forall_nil.
  rewrite !clean_err_if_iff, !negb_false_iff. unfold has_key. simpl.
  rewrite !bool_decide_eq_true.
  destruct (devices spec), (states spec), (transitions spec); naive_solver.
Qed.

Lemma check_state_clean_iff dm cd ops ids st ids' :
  clean (check_state dm cd ops ids st) ids' <->
  exists sid,
    st_id st = Some sid /\ (sid ∉ ids) /\ ids' = {[sid]} ∪ ids /\
    state_well_formed dm cd ops st.
Proof.
  unfold check_state, state_well_formed.
  destruct (st_id st) as [sid |].
  - assert (Hw : writes (fun _ => True)
              match st_invariants st with
              | Absent => ret ({[sid]} ∪ ids)
              | NotAList _ =>
                  (err (InvariantsMustBeList sid) ;; ret ({[sid]} ∪ ids))%M
              | Items invs =>
                  (for_each invs (check_invariant dm cd ops sid) ;;
                   ret ({[sid]} ∪ ids))%M
              end).
    { destruct (st_invariants st); writes_auto.
      eapply writes_any, check_invariant_writes. }
    rewrite clean_bind_iff by (intros; exact Hw). split.
    + intros ([] & Hdup & H).
      apply clean_err_if, bool_decide_eq_false in Hdup.
      exists sid. split; [done |]. split; [done |].
      destruct (st_invariants st) as [| | invs].
      * apply clean_ret in H. by eauto.
      * exfalso. revert H. apply clean_err. apply writes_ret.
      * apply clean_bind in H as ([] & Hinv & Hret);
          [| intros; apply writes_ret].
        apply clean_ret in Hret. split; [done |]. split; [by eauto |].
        apply clean_for_each in Hinv;
          [| intros; eapply writes_any, check_invariant_writes].
        eapply List.Forall_impl; [| exact Hinv].
        intros iv. apply check_invariant_clean.
    + intros (sid' & [= <-] & Hnin & -> & _ & Hinv).
      exists tt. split.
      * apply clean_err_if_iff. by apply bool_decide_eq_false.
      * destruct (st_invariants st) as [| | invs]; [reflexivity | done |].
        apply (clean_bind_intro _ _ tt); [| reflexivity].
        apply clean_for_each_iff;
          [intros; eapply writes_any, check_invariant_writes |].
        eapply List.Forall_impl; [| exact Hinv].
        intros iv. apply check_invariant_clean.
  - split.
    + intros H. exfalso. revert H. apply clean_err. apply writes_ret.
    + by intros (? & [=] & _).
Qed.

Lemma declared_ids_cons (st : State) (sts : list State) (sid : string) :
  st_id st = Some sid ->
  declared_ids (st :: sts) = {[sid]} ∪ declared_ids sts.
Proof. intros H. unfold declared_ids. cbn [omap list_omap]. by rewrite H. Qed.

Lemma state_loop_clean dm cd ops (sts : list State) (ids0 ids : gset string) :
  clean (for_fold sts ids0 (check_state dm cd ops)) ids <->
  Forall (state_well_formed dm cd ops) sts /\ NoDup (omap st_id sts) /\
  (forall k, k ∈ omap st_id sts -> k ∉ ids0) /\
  ids = declared_ids sts ∪ ids0.
Proof.
  revert ids0 ids. induction sts as [| st sts IH]; intros ids0 ids.
  - cbn [for_fold]. rewrite clean_ret_iff. split.
    + intros <-. repeat split; [constructor | constructor | |].
      * intros k Hk. by apply elem_of_nil in Hk.
      * unfold declared_ids. cbn. set_solver.
    + intros (_ & _ & _ & ->). unfold declared_ids. cbn. set_solver.
  - cbn [for_fold]. rewrite clean_bind_iff
      by (intros; apply writes_for_fold; intros;
          eapply writes_any, check_state_writes).
    split.
    + intros (ids1 & Hs & Hrest).
      apply check_state_clean_iff in Hs as (sid & Hid & Hnin & -> & Hwf).
      apply IH in Hrest as (Hall & Hnd & Hdisj & ->).
      rewrite (declared_ids_cons st sts sid Hid).
      cbn [omap list_omap]. rewrite Hid. repeat split.
      * by constructor.
      * apply NoDup_cons. split; [| exact Hnd].
        intros Hin. apply Hdisj in Hin. set_solver.
      * intros k Hk. apply elem_of_cons in Hk as [-> | Hk]; [done |].
        apply Hdisj in Hk. set_solver.
      * set_solver.
    + intros (Hall & Hnd & Hdisj & ->).
      inversion Hall as [| ? ? Hwf Hall']; subst.
      pose proof Hwf as [[sid Hid] _].
      rewrite (declared_ids_cons st sts sid Hid).
      cbn [omap list_omap] in Hnd, Hdisj. rewrite Hid in Hnd, Hdisj.
      apply NoDup_cons in Hnd as [Hnin Hnd].
      exists ({[sid]} ∪ ids0). split.
      * apply check_state_clean_iff. exists sid.
        repeat split; try done; try apply Hwf. apply Hdisj. by left.
      * apply IH. repeat split; try done.
        -- intros k Hk Hin. apply elem_of_union in Hin as [Hin | Hin].
           ++ apply elem_of_singleton in Hin as ->. contradiction.
           ++ revert Hin. apply Hdisj. by right.
        -- set_solver.
Qed.

Lemma check_states_clean_iff spec dm cd ops ids :
  clean (check_states spec dm cd ops) ids <->
  match states spec with
  | Items sts =>
      Forall (state_well_formed dm cd ops) sts /\ NoDup (omap st_id sts) /\
      ids = declared_ids sts
  | _ => ids = ∅
  end.
Proof.
  unfold check_states. destruct (states spec) as [| | sts].
  - rewrite clean_ret_iff. by split.
  - rewrite clean_ret_iff. by split.
  - rewrite state_loop_clean. split.
    + intros (Hall & Hnd & _ & ->). repeat split; try done. set_solver.
    + intros (Hall & Hnd & ->). repeat split; try done; set_solver.
Qed.

Lemma validate_action_clean act dev_map cd :
  clean (validate_action act dev_map cd) tt <->
  action_accepted dev_map cd act = true.
Proof.
  unfold validate_action, action_accepted, clean.
  destruct (Re.ACTION_RE_match act) as [[dev cmd] |]; [| by split].
  rewrite has_lookup.
  destruct (dev_map !! dev) as [dtype |] eqn:Hdt; cbn [negb]; [| by split].
  rewrite (bind_getitem _ _ _ _ _ Hdt).
  destruct (cd !! dtype) as [ct |] eqn:Hct.
  - rewrite (bind_getitem _ _ _ _ _ Hct).
    destruct (Py.mem cmd (actions ct)); by split.
  - unfold bind, getitem. rewrite Hct. by split.
Qed.

Lemma check_transition_clean_iff dm cd bool_ops ops ids i tr :
  clean (check_transition dm cd bool_ops ops ids (i, tr)) tt <->
  transition_accepted dm cd bool_ops ops ids tr.
Proof.
  unfold check_transition, transition_accepted.
  assert (Hw3 : writes (fun _ => True)
            (validate_trigger (default EmptyString (tr_trigger tr))
               dm cd bool_ops ops ;;
             validate_action (default EmptyString (tr_action tr)) dm cd)%M).
  { apply writes_bind; [eapply writes_any, validate_trigger_writes |].
    intros. eapply writes_any, validate_action_writes. }
  assert (Hw2 : forall c e, writes (fun _ => True)
            (err_if c e ;;
             validate_trigger (default EmptyString (tr_trigger tr))
               dm cd bool_ops ops ;;
             validate_action (default EmptyString (tr_action tr)) dm cd)%M).
  { intros. apply writes_bind; [by apply writes_err_if | intros; exact Hw3]. }
  rewrite clean_bind_iff
    by (intros; apply writes_bind; [by apply writes_err_if | intros; apply Hw2]).
  split.
  - intros ([] & Hkeys & H).
    apply clean_bind in H as ([] & Hsrc & H); [| intros; apply Hw2].
    apply clean_bind in H as ([] & Htgt & H); [| intros; exact Hw3].
    apply clean_bind in H as ([] & Htrig & Hact);
      [| intros; eapply writes_any, validate_action_writes].
    apply clean_for_each in Hkeys; [| intros; by apply writes_err_if].
    unfold transition_keys in Hkeys.
    inversion Hkeys as [| ? ? K1 Hk1]; subst.
    inversion Hk1 as [| ? ? K2 Hk2]; subst.
    inversion Hk2 as [| ? ? K3 Hk3]; subst.
    inversion Hk3 as [| ? ? K4 _]; subst.
    apply clean_err_if, negb_false_iff, tr_has_key_source in K1 as [src Es].
    apply clean_err_if, negb_false_iff, tr_has_key_target in K2 as [tgt Et].
    apply clean_err_if, negb_false_iff, tr_has_key_trigger in K3 as [trig Eg].
    apply clean_err_if, negb_false_iff, tr_has_key_action in K4 as [act Ea].
    apply clean_err_if, negb_false_iff in Hsrc.
    apply clean_err_if, negb_false_iff in Htgt.
    rewrite Es in Hsrc. rewrite Et in Htgt. cbn [known_state] in Hsrc, Htgt.
    apply bool_decide_eq_true in Hsrc, Htgt.
    rewrite Eg in Htrig. rewrite Ea in Hact. cbn [default] in Htrig, Hact.
    apply validate_trigger_clean in Htrig.
    apply validate_action_clean in Hact.
    by exists src, tgt, trig, act.
  - intros (src & tgt & trig & act & Es & Et & Eg & Ea & Hs & Ht & Htrig & Hact).
    exists tt. split.
    + apply clean_for_each_iff; [intros; by apply writes_err_if |].
      unfold transition_keys, tr_has_key. rewrite Es, Et, Eg, Ea.
      repeat constructor.
    + rewrite Es, Et, Eg, Ea. cbn [default known_state].
      apply (clean_bind_intro _ _ tt);
        [apply clean_err_if_iff, negb_false_iff; by apply bool_decide_eq_true |].
      apply (clean_bind_intro _ _ tt);
        [apply clean_err_if_iff, negb_false_iff; by apply bool_decide_eq_true |].
      apply (clean_bind_intro _ _ tt);
        [by apply validate_trigger_clean | by apply validate_action_clean].
Qed.

Lemma Forall_enumerate {A} (P : A -> Prop) (n : nat) (xs : list A) :
  Forall (fun ix => P ix.2) (enumerate n xs) <-> Forall P xs.
Proof.
  revert n. induction xs as [| x xs IH]; intros n; cbn [enumerate].
  - by split; constructor.
  - rewrite !Forall_cons, IH. done.
Qed.

Lemma check_transitions_clean_iff spec dm cd bool_ops ops ids :
  clean (check_transitions spec dm cd bool_ops ops ids) tt <->
  match transitions spec with
  | Items trs => Forall (transition_accepted dm cd bool_ops ops ids) trs
  | _ => True
  end.
Proof.
  unfold check_transitions. destruct (transitions spec) as [| | trs];
    [by split | by split |].
  rewrite clean_for_each_iff
    by (intros; eapply writes_any, check_transition_writes).
  rewrite <- (Forall_enumerate _ 1 trs).
  apply Forall_proper; [| done]. intros [i tr].
  apply check_transition_clean_iff.
Qed.

(** X21: the validator accepts a document (reports [OK], status 0, nothing
    recorded, no exception) exactly when: the five top-level keys are
    present; the devices are a list of devices with their three keys, a type
    of the schema, attributes of that type and pairwise different ids, among
    them the three required ids; the states, when they are a list, have
    pairwise different ids and invariants that are accepted atoms; the
    transitions, when they are a list, have their four keys, a source and a
    target among the state ids, a trigger whose tokens follow the pattern of
    atoms and operators and an accepted action.  States or transitions that
    are present but not a list are passed over without a message. *)
Theorem accepted_iff_well_formed (spec : Spec) (caps_root : Caps) :
  validated spec caps_root <-> well_formed_bundle spec caps_root.
Proof.
  rewrite validated_iff_clean. unfold main_checks, well_formed_bundle.
  set (cd := default ∅ (caps_devices caps_root)).
  set (ops := default [] (caps_ops caps_root)).
  set (bool_ops := default ["&&"; "||"] (caps_bool_ops caps_root)).
  assert (Hw2 : forall dm cd, writes (fun _ => True)
            (state_ids <- check_states spec dm cd ops ;;
             check_transitions spec dm cd bool_ops ops state_ids)%M).
  { intros. apply writes_bind; [eapply writes_any, check_states_writes |].
    intros. eapply writes_any, check_transitions_writes. }
  rewrite clean_bind_iff
    by (intros; apply writes_bind;
        [eapply writes_any, validate_devices_writes | intros [? ?]; apply Hw2]).
  split.
  - intros ([] & Hkeys & H).
    apply check_keys_clean in Hkeys as (Hb & _ & Hst & Htr & Hn).
    apply clean_bind in H as ([dm cd'] & Hdev & H);
      [| intros [? ?]; apply Hw2].
    apply validate_devices_clean in Hdev
      as (ds & Hds & Hall & Hnd & Hreq & -> & ->).
    apply clean_bind in H as (ids & Hstates & Htrans);
      [| intros; eapply writes_any, check_transitions_writes].
    apply check_states_clean_iff in Hstates.
    apply check_transitions_clean_iff in Htrans.
    split; [done |]. split; [done |]. exists ds.
    repeat split; try done.
    + destruct (states spec) as [| | sts]; [done | done |].
      by destruct Hstates as (? & ? & _).
    + destruct (transitions spec) as [| | trs]; [done | done |].
      destruct (states spec) as [| | sts]; [by subst ids.. |].
      by destruct Hstates as (_ & _ & ->).
  - intros (Hb & Hn & ds & Hds & Hall & Hnd & Hreq & Hstates & Htrans).
    exists tt. split.
    + apply check_keys_clean. rewrite Hds. repeat split; try done.
      * by destruct (states spec).
      * by destruct (transitions spec).
    + apply (clean_bind_intro _ _ (device_types ds, cd)).
      * apply validate_devices_clean. by exists ds.
      * apply (clean_bind_intro _ _
                 match states spec with
                 | Items sts => declared_ids sts
                 | _ => ∅
                 end).
        -- apply check_states_clean_iff.
           destruct (states spec) as [| | sts]; [done | done |].
           by destruct Hstates.
        -- apply check_transitions_clean_iff.
           by destruct (transitions spec).
Qed.

(** The document without lists of states and transitions is accepted. *)
Example no_lists_is_accepted : validated spec_no_lists caps_A.
Proof. reflexivity. Qed.

(** ** When the validator raises *)

Lemma main_run spec caps_root :
  outcome (main spec caps_root) =
    match outcome (main_checks spec caps_root) with
    | Ret _ => Ret (report (emitted (main_checks spec caps_root)))
    | Raise e => Raise e
    end /\
  emitted (main spec caps_root) = emitted (main_checks spec caps_root).
Proof.
  unfold main, outcome, emitted, bind, get_errs, ret.
  by destruct (main_checks spec caps_root []) as [[[] | e] errs].
Qed.

Lemma for_fold_raises {A S} (R : A -> Prop) (xs : list A) (s : S)
    (body : S -> A -> M S) :
  (forall s x, writes (fun _ => True) (body s x)) ->
  (forall s x, (exists e, outcome (body s x) = Raise e) <-> R x) ->
  (exists e, outcome (for_fold xs s body) = Raise e) <-> Exists R xs.
Proof.
  intros Hw HR. revert s. induction xs as [| x xs IH]; intros s.
  - split; [by intros [e [=]] | by intros H; inversion H].
  - cbn [for_fold]. rewrite outcome_bind;
      [| apply Hw | intros; by apply writes_for_fold].
    rewrite Exists_cons, <- (HR s x).
    destruct (outcome (body s x)) as [s' | e0].
    + rewrite IH. split; [by right | intros [[e [=]] | H]; exact H].
    + split; [left | ]; by exists e0.
Qed.

Lemma check_invariant_raises dm cd ops sid iv :
  (exists e, outcome (check_invariant dm cd ops sid iv) = Raise e) <->
  raising_invariant dm cd iv = true.
Proof.
  unfold check_invariant, raising_invariant, outcome.
  destruct (Re.TRIG_ATOM_RE_match iv) as [[[[dev attr] op] val] |];
    [| split; [by intros [e [=]] | discriminate]].
  rewrite (has_lookup dm).
  destruct (dm !! dev) as [dtype |] eqn:Hdt; cbn [negb];
    [| split; [by intros [e [=]] | discriminate]].
  rewrite (bind_getitem _ _ _ _ _ Hdt).
  destruct (cd !! dtype) as [ct |] eqn:Hct.
  - rewrite (bind_getitem _ _ _ _ _ Hct), !bind_err_if,
      (bind_getitem _ _ _ _ _ Hct), (has_lookup (attributes ct)).
    destruct (attributes ct !! attr) as [vals |] eqn:Hv; cbn [negb].
    + rewrite (bind_getitem _ _ _ _ _ Hv).
      split; [| discriminate].
      intros [e He]. by destruct (negb (Py.mem val vals)).
    + unfold bind, getitem. rewrite Hv. split; [done | by eexists].
  - unfold bind, getitem. rewrite Hct. split; [done | by eexists].
Qed.

Lemma check_state_raises dm cd ops ids st :
  (exists e, outcome (check_state dm cd ops ids st) = Raise e) <->
  is_Some (st_id st) /\
  exists invs, st_invariants st = Items invs /\
               Exists (fun iv => raising_invariant dm cd iv = true) invs.
Proof.
  unfold check_state. destruct (st_id st) as [sid |].
  - rewrite outcome_bind;
      [| by apply writes_err_if
       | intros _; destruct (st_invariants st); writes_auto;
         eapply writes_any, check_invariant_writes].
    rewrite outcome_err_if.
    destruct (st_invariants st) as [| | invs].
    + split; [by intros [e [=]] | by intros [_ (? & [=] & _)]].
    + split; [by intros [e [=]] | by intros [_ (? & [=] & _)]].
    + rewrite outcome_bind;
        [| apply writes_for_each; intros;
           eapply writes_any, check_invariant_writes
         | intros; apply writes_ret].
      assert (Hinv : (exists e, outcome (for_each invs
                                  (check_invariant dm cd ops sid)) = Raise e)
                     <-> Exists (fun iv => raising_invariant dm cd iv = true)
                           invs).
      { unfold for_each. apply for_fold_raises.
        - intros. eapply writes_any, check_invariant_writes.
        - intros. apply check_invariant_raises. }
      split.
      * intros [e He]. split; [by eauto |]. exists invs. split; [done |].
        apply Hinv.
        destruct (outcome (for_each invs _)); [discriminate | by eauto].
      * intros [_ (invs' & [= <-] & Hex)]. apply Hinv in Hex as [e He].
        exists e. by rewrite He.
  - split; [by intros [e [=]] | by intros [[? [=]] _]].
Qed.

Lemma main_raises_iff spec caps_root :
  (exists e, outcome (main spec caps_root) = Raise e) <->
  outcome (validate_devices spec caps_root) = Raise TypeError \/
  exists dev_map cd sts st invs iv,
    outcome (validate_devices spec caps_root) = Ret (dev_map, cd) /\
    states spec = Items sts /\ In st sts /\ is_Some (st_id st) /\
    st_invariants st = Items invs /\ In iv invs /\
    raising_invariant dev_map cd iv = true.
Proof.
  destruct (main_run spec caps_root) as [Hout Hem].
  assert (Hmain : (exists e, outcome (main spec caps_root) = Raise e) <->
                  exists e, outcome (main_checks spec caps_root) = Raise e).
  { rewrite Hout. destruct (outcome (main_checks spec caps_root));
      split; intros [e' [=]]; by eauto. }
  rewrite Hmain. clear Hout Hem Hmain. unfold main_checks.
  set (ops := default [] (caps_ops caps_root)).
  set (bool_ops := default ["&&"; "||"] (caps_bool_ops caps_root)).
  assert (Hw2 : forall dm cd, writes (fun _ => True)
            (state_ids <- check_states spec dm cd ops ;;
             check_transitions spec dm cd bool_ops ops state_ids)%M).
  { intros. apply writes_bind; [eapply writes_any, check_states_writes |].
    intros. eapply writes_any, check_transitions_writes. }
  rewrite outcome_bind;
    [| eapply writes_any, check_keys_writes
     | intros; apply writes_bind;
       [eapply writes_any, validate_devices_writes
       | intros [? ?]; apply Hw2]].
  unfold check_keys at 1. rewrite outcome_for_each;
    [| intros; by apply writes_err_if | intros; apply outcome_err_if].
  rewrite outcome_bind;
    [| eapply writes_any, validate_devices_writes | intros [? ?]; apply Hw2].
  destruct (outcome (validate_devices spec caps_root)) as [[dm cd] | e0]
    eqn:Hdev; cycle 1.
  { destruct (validate_devices_raises _ _ _ Hdev) as [-> _].
    split; [by left | by exists TypeError]. }
  pose proof (validate_devices_consistent _ _ _ _ Hdev) as Hcons.
  rewrite outcome_bind;
    [| eapply writes_any, check_states_writes
     | intros; eapply writes_any, check_transitions_writes].
  assert (Hst : (exists e, outcome (check_states spec dm cd ops) = Raise e)
                <-> exists sts, states spec = Items sts /\
                      Exists (fun st =>
                        is_Some (st_id st) /\
                        exists invs, st_invariants st = Items invs /\
                          Exists (fun iv => raising_invariant dm cd iv = true)
                            invs) sts).
  { unfold check_states. destruct (states spec) as [| | sts].
    - split; [by intros [e [=]] | by intros (? & [=] & _)].
    - split; [by intros [e [=]] | by intros (? & [=] & _)].
    - rewrite (for_fold_raises
                 (fun st =>
                    is_Some (st_id st) /\
                    exists invs, st_invariants st = Items invs /\
                      Exists (fun iv => raising_invariant dm cd iv = true)
                        invs) sts ∅ (check_state dm cd ops));
        [| intros; eapply writes_any, check_state_writes
         | intros; apply check_state_raises].
      split; [by eauto | by intros (? & [= <-] & H)]. }
  split.
  + intros [e He]. right.
    destruct (outcome (check_states spec dm cd ops)) as [ids |] eqn:Hs.
    * by rewrite check_transitions_returns in He.
    * destruct (proj1 Hst (ex_intro _ _ eq_refl)) as (sts & Hsts & Hex).
      apply List.Exists_exists in Hex as (st & Hin & Hid & invs & Hinv & Hex).
      apply List.Exists_exists in Hex as (iv & Hin' & Hr).
      by exists dm, cd, sts, st, invs, iv.
  + intros [[=] | (dm' & cd' & sts & st & invs & iv & [= <- <-] & Hsts & Hin
                   & Hid & Hinv & Hin' & Hr)].
    destruct (proj2 Hst) as [e He].
    * exists sts. split; [done |]. apply List.Exists_exists. exists st.
      split; [done |]. split; [done |]. exists invs. split; [done |].
      apply List.Exists_exists. by exists iv.
    * exists e. by rewrite He.
Qed.

(** X22: the validator raises in two cases and in no other.  The first:
    the devices are a list that holds a device with its three keys and a
    type of the schema whose attributes cannot be iterated ([null], a number
    or a boolean); the exception is the [TypeError] of the device check.
    The second: the device check returns, and some state that has an id and
    a list of invariants has an invariant that the atom pattern matches,
    with a declared device and an attribute that the type of the device
    does not have; the exception is the [KeyError] of the attribute, raised
    after the message of the unknown attribute was recorded.  Every other
    defect of a document ends in a report; when the run raises it prints
    nothing.  A document is one of the model: the elements of the three
    lists are objects, and the ids, the types, the sources, the targets, the
    triggers, the actions and the items of the invariants are strings. *)
Theorem validator_raises_iff (spec : Spec) (caps_root : Caps) :
  ((exists e, outcome (main spec caps_root) = Raise e) <->
   (exists ds,
      devices spec = Items ds /\
      existsb (raising_device (default ∅ (caps_devices caps_root))) ds
        = true) \/
   exists dev_map cd sts st invs iv,
     outcome (validate_devices spec caps_root) = Ret (dev_map, cd) /\
     states spec = Items sts /\ In st sts /\ is_Some (st_id st) /\
     st_invariants st = Items invs /\ In iv invs /\
     raising_invariant dev_map cd iv = true) /\
  (forall e, outcome (main spec caps_root) = Raise e ->
     (e = TypeError /\
      exists ds,
        devices spec = Items ds /\
        existsb (raising_device (default ∅ (caps_devices caps_root))) ds
          = true) \/
     exists dev attr,
       e = KeyError attr /\
       In (UnknownAttributeInv dev attr) (emitted (main spec caps_root))).
Proof.
  assert (Hdev : outcome (validate_devices spec caps_root) = Raise TypeError
                 <-> exists ds,
                       devices spec = Items ds /\
                       existsb (raising_device
                                  (default ∅ (caps_devices caps_root))) ds
                         = true).
  { split; [intros H; by apply validate_devices_raises in H as [_ H] |].
    intros (ds & Hds & Hex). rewrite validate_devices_outcome, Hds.
    cbn zeta. by rewrite Hex. }
  split; [rewrite <- Hdev; apply main_raises_iff |].
  destruct (main_run spec caps_root) as [Hout Hem].
  intros e He. rewrite Hem, <- Hdev. apply main_checks_raises_only.
  rewrite Hout in He.
  destruct (outcome (main_checks spec caps_root)); [discriminate |].
  by injection He as ->.
Qed.

(** The document with the invariant on [switch1.colour], and scenario A
    with [null] for the attributes of its device. *)
Lemma validator_raises_iff_witness :
  (exists dev attr,
     In (UnknownAttributeInv dev attr)
       (emitted (main spec_unknown_attribute caps_A))) /\
  (exists e, outcome (main spec_null_attributes caps_A) = Raise e).
Proof.
  split.
  - destruct (validator_raises_iff spec_unknown_attribute caps_A) as [_ H].
    destruct (H (KeyError "colour") eq_refl)
      as [[[=] _] | (dev & attr & _ & Hin)].
    by exists dev, attr.
  - apply (validator_raises_iff spec_null_attributes caps_A).
    left. by exists [switch1_null].
Defined.

(** ** What the tokenizer keeps *)

Lemma squash_app (a b : string) : squash (a +:+ b) = squash a +:+ squash b.
Proof.
  induction a as [| c a IH]; [reflexivity |].
  rewrite append_cons. cbn [squash]. rewrite IH.
  by destruct (Py.is_space c).
Qed.

Lemma squash_lstrip (s : string) : squash (Py.lstrip s) = squash s.
Proof.
  induction s as [| c s IH]; [reflexivity |].
  cbn [Py.lstrip]. destruct (Py.is_space c) eqn:Hc; [| reflexivity].
  cbn [squash]. by rewrite Hc.
Qed.

Lemma squash_rstrip (s : string) : squash (Py.rstrip s) = squash s.
Proof.
  induction s as [| c s IH]; [reflexivity |].
  cbn [Py.rstrip squash]. rewrite <- IH.
  destruct (Py.rstrip s) as [| d r].
  - destruct (Py.is_space c) eqn:Hc; [reflexivity |].
    cbn [squash]. by rewrite Hc.
  - reflexivity.
Qed.

Lemma squash_strip (s : string) : squash (Py.strip s) = squash s.
Proof. unfold Py.strip. by rewrite squash_rstrip, squash_lstrip. Qed.

Lemma glue_app (a b : list string) : glue (a ++ b) = glue a +:+ glue b.
Proof.
  induction a as [| x a IH]; [reflexivity |].
  cbn [app glue fold_right]. fold (glue (a ++ b)). fold (glue a).
  by rewrite IH, append_assoc.
Qed.

Lemma rstrip_idem (s : string) : Py.rstrip (Py.rstrip s) = Py.rstrip s.
Proof.
  induction s as [| c s IH]; [reflexivity |].
  cbn [Py.rstrip]. destruct (Py.rstrip s) as [| d r] eqn:Hr.
  - destruct (Py.is_space c) eqn:Hc; [reflexivity |].
    cbn [Py.rstrip]. by rewrite Hc.
  - cbn [Py.rstrip]. cbn [Py.rstrip] in IH.
    destruct (Py.rstrip r) as [| d' r'].
    + destruct (Py.is_space d); [discriminate IH | by rewrite IH].
    + by rewrite IH.
Qed.

Lemma lstrip_stops (s : string) : stops Py.is_space (Py.lstrip s) = true.
Proof.
  induction s as [| c s IH]; [reflexivity |].
  cbn [Py.lstrip]. destruct (Py.is_space c) eqn:Hc; [exact IH |].
  cbn [stops]. by rewrite Hc.
Qed.

Lemma rstrip_stops (s : string) :
  stops Py.is_space s = true -> stops Py.is_space (Py.rstrip s) = true.
Proof.
  destruct s as [| c s]; [done |]. cbn [stops]. intros Hc.
  apply negb_true_iff in Hc. rewrite rstrip_cons by exact Hc.
  cbn [stops]. by rewrite Hc.
Qed.

Lemma lstrip_id (s : string) :
  stops Py.is_space s = true -> Py.lstrip s = s.
Proof.
  destruct s as [| c s]; [done |]. cbn [stops Py.lstrip]. intros Hc.
  apply negb_true_iff in Hc. by rewrite Hc.
Qed.

Lemma strip_idem (s : string) : Py.strip (Py.strip s) = Py.strip s.
Proof.
  unfold Py.strip.
  rewrite (lstrip_id (Py.rstrip (Py.lstrip s)))
    by apply rstrip_stops, lstrip_stops.
  apply rstrip_idem.
Qed.

Lemma split_loop_keeps (expr buf : string) (toks : list string) :
  squash (glue (split_loop expr buf toks).1 +:+ (split_loop expr buf toks).2) =
    squash (glue toks +:+ buf +:+ expr) /\
  (Forall (fun t => Py.strip t = t) toks ->
   Forall (fun t => Py.strip t = t) (split_loop expr buf toks).1).
Proof.
  remember (String.length expr) as n eqn:Hn.
  revert expr Hn buf toks.
  induction n as [n IH] using lt_wf_ind.
  intros expr Hn buf toks.
  destruct expr as [| c rest].
  - cbn [split_loop fst snd]. by rewrite append_nil_r.
  - destruct (starts_conn (String c rest)) eqn:Hc.
    + destruct (split_loop_conn c rest buf toks Hc) as (c2 & r2 & -> & ->).
      destruct (IH (String.length r2)
                  ltac:(subst n; simpl; lia) r2 eq_refl EmptyString
                  (toks ++ [Py.strip buf; String c (String c2 EmptyString)]))
        as [Hs Hf].
      split.
      * rewrite Hs, glue_app, append_nil_l. cbn [glue fold_right].
        rewrite append_nil_r, !squash_app, squash_strip.
        by rewrite <- !squash_app, !append_assoc.
      * intros Htoks. apply Hf, Forall_app. split; [exact Htoks |].
        constructor; [apply strip_idem |]. constructor; [| constructor].
        by destruct (conn_of_starts c c2 r2 Hc) as [-> | ->].
    + rewrite split_loop_step by exact Hc.
      destruct (IH (String.length rest)
                  ltac:(subst n; simpl; lia) rest eq_refl
                  (buf +:+ String c EmptyString) toks) as [Hs Hf].
      split; [| exact Hf].
      rewrite Hs. by rewrite !append_assoc.
Qed.

(** X23: the tokenizer loses nothing but white space: the tokens of an
    expression written one after the other have the same characters other
    than white space, in the same order, as the expression; and every token
    is trimmed, the texts between connectives as well as the connectives. *)
Theorem split_bool_keeps_text (expr : string) (bool_ops : list string) :
  squash (glue (split_bool expr bool_ops)) = squash expr /\
  Forall (fun t => Py.strip t = t) (split_bool expr bool_ops).
Proof.
  unfold split_bool.
  destruct (split_loop_keeps expr EmptyString []) as [Hs Hf].
  destruct (split_loop expr EmptyString []) as [toks buf].
  cbn [fst snd glue fold_right] in Hs, Hf. rewrite !append_nil_l in Hs.
  specialize (Hf (List.Forall_nil _)).
  destruct (Py.truthy (Py.strip buf)) eqn:Ht.
  - split.
    + rewrite glue_app. cbn [glue fold_right].
      rewrite append_nil_r, squash_app, squash_strip, <- squash_app.
      exact Hs.
    + apply Forall_app. split; [exact Hf |].
      constructor; [apply strip_idem | constructor].
  - split; [| exact Hf].
    rewrite <- Hs, squash_app, <- (squash_strip buf).
    destruct (Py.strip buf); [| discriminate Ht].
    by rewrite append_nil_r.
Qed.

(** ** The ids of the generated model are pairwise different *)

Lemma digit_char_value (k : nat) :
  k < 10 -> nat_of_ascii (Py.digit_char k) - 48 = k.
Proof.
  intros Hk. do 10 (destruct k as [| k]; [reflexivity |]). lia.
Qed.

Lemma dec_str_nat_aux (fuel n : nat) (acc : string) :
  n < fuel -> dec 0 (Py.str_nat_aux fuel n acc) = dec n acc.
Proof.
  revert n acc. induction fuel as [| fuel IH]; intros n acc Hn; [lia |].
  cbn [Py.str_nat_aux].
  pose proof (Nat.div_mod_eq n 10) as Hdm.
  pose proof (Nat.mod_upper_bound n 10 ltac:(lia)) as Hm.
  destruct (n / 10) as [| q] eqn:Hq.
  - cbn [dec]. rewrite digit_char_value by exact Hm. f_equal. lia.
  - rewrite IH by lia. cbn [dec].
    rewrite digit_char_value by exact Hm. f_equal. lia.
Qed.

Lemma str_nat_inj (n m : nat) : Py.str_nat n = Py.str_nat m -> n = m.
Proof.
  intros H. apply (f_equal (dec 0)) in H. unfold Py.str_nat in H.
  by rewrite !dec_str_nat_aux in H by lia.
Qed.

Lemma append_inj_l (p a b : string) : p +:+ a = p +:+ b -> a = b.
Proof.
  induction p as [| c p IH]; [done |].
  rewrite !append_cons. intros [= H]. by apply IH.
Qed.

Lemma NoDup_imap_inj {A B} (f : nat -> A -> B) (l : list A) :
  (forall i j x y, f i x = f j y -> i = j) -> NoDup (imap f l).
Proof.
  intros Hf. apply NoDup_alt. intros i j b Hi Hj.
  rewrite list_lookup_imap in Hi, Hj.
  destruct (l !! i) as [x |]; [| discriminate].
  destruct (l !! j) as [y |]; [| discriminate].
  injection Hi as <-. injection Hj as Hj. symmetry in Hj. by eapply Hf.
Qed.

Lemma omap_map_some {A B C} (f : B -> option C) (g : A -> B) (h : A -> C)
    (l : list A) :
  (forall x, f (g x) = Some (h x)) -> omap f (map g l) = map h l.
Proof.
  intros H. induction l as [| x l IH]; [reflexivity |].
  cbn [map omap list_omap]. rewrite H. f_equal. exact IH.
Qed.

Lemma omap_map_none {A B C} (f : B -> option C) (g : A -> B) (l : list A) :
  (forall x, f (g x) = None) -> omap f (map g l) = [].
Proof.
  intros H. induction l as [| x l IH]; [reflexivity |].
  cbn [map omap list_omap]. by rewrite H.
Qed.

Lemma omap_imap_some {A B C} (f : B -> option C) (g : nat -> A -> B)
    (h : nat -> A -> C) (l : list A) :
  (forall n x, f (g n x) = Some (h n x)) -> omap f (imap g l) = imap h l.
Proof.
  revert g h. induction l as [| x l IH]; intros g h H; [reflexivity |].
  rewrite !imap_cons. cbn [omap list_omap]. rewrite H. f_equal.
  apply IH. intros n y. apply H.
Qed.

Lemma omap_concat_imap {A B C} (f : B -> option C) (g : nat -> A -> list B)
    (h : nat -> A -> list C) (l : list A) :
  (forall n x, omap f (g n x) = h n x) ->
  omap f (List.concat (imap g l)) = List.concat (imap h l).
Proof.
  revert g h. induction l as [| x l IH]; intros g h H; [reflexivity |].
  rewrite !imap_cons. cbn [List.concat]. rewrite omap_app, H. f_equal.
  apply IH. intros n y. apply H.
Qed.

Lemma concat_imap_pairs {A B} (a b : nat -> A -> B) (l : list A) :
  List.concat (imap (fun n x => [a n x; b n x]) l) ≡ₚ imap a l ++ imap b l.
Proof.
  revert a b. induction l as [| x l IH]; intros a b; [reflexivity |].
  rewrite !imap_cons. cbn [List.concat app].
  rewrite (IH (a ∘ S) (b ∘ S)). constructor.
  by rewrite <- Permutation_middle.
Qed.

Lemma omap_sid_of (sts : list State) :
  Forall (fun s => is_Some (st_id s)) sts ->
  omap st_id sts = map Scheme.sid_of sts.
Proof.
  induction 1 as [| s sts [sid Hs] _ IH]; [reflexivity |].
  cbn [omap list_omap map]. unfold Scheme.sid_of at 1. rewrite Hs.
  cbn [default]. by rewrite IH.
Qed.

(** The ids of the scheme, group by group. *)
Lemma scheme_ids (s0 : State) (sts : list State) (trs : list Transition) :
  omap line_id
    (Scheme.state_nodes sts ++ Scheme.transition_lines s0 trs ++
     Scheme.annotations sts trs) =
    ["init_1"] ++
    map (fun s => Scheme.state_ext_id (Scheme.sid_of s)) sts ++
    ["final_1"] ++
    ("t_init" :: imap (fun n _ => Scheme.transition_id (S n)) trs) ++
    imap (fun k _ => Scheme.invariant_block_id (S k)) sts ++
    List.concat
      (imap (fun n _ => [Scheme.trigger_annotation_id (S n);
                         Scheme.action_annotation_id (S n)]) trs).
Proof.
  unfold Scheme.state_nodes, Scheme.transition_lines, Scheme.annotations.
  rewrite !omap_app. cbn [omap list_omap line_id app].
  rewrite (omap_map_some line_id _
             (fun s => Scheme.state_ext_id (Scheme.sid_of s))) by done.
  rewrite (omap_imap_some line_id _
             (fun n _ => Scheme.transition_id (S n))) by done.
  rewrite (omap_concat_imap line_id Scheme.invariant_block
             (fun k _ => [Scheme.invariant_block_id (S k)])).
  - rewrite (omap_concat_imap line_id Scheme.transition_annotations
               (fun n _ => [Scheme.trigger_annotation_id (S n);
                            Scheme.action_annotation_id (S n)])) by done.
    rewrite (concat_imap_singleton
               (fun k (_ : State) => Scheme.invariant_block_id (S k))).
    by rewrite <- app_assoc.
  - intros k s. unfold Scheme.invariant_block.
    rewrite !omap_app. cbn [omap list_omap line_id app].
    by rewrite omap_map_none.
Qed.

Lemma until_quote_app (a r : string) :
  quote_free a = true -> until_quote (a +:+ String Py.dquote r) = Some a.
Proof.
  unfold quote_free, all_in. induction a as [| c a IH]; [reflexivity |].
  rewrite append_cons. cbn [list_ascii_of_string forallb until_quote].
  intros H. apply andb_true_iff in H as [Hc Ha].
  apply negb_true_iff in Hc. by rewrite Hc, (IH Ha).
Qed.

(** A text without a double quote has no attribute. *)
Lemma written_id_none (s : string) :
  quote_free s = true -> written_id s = None.
Proof.
  induction s as [| c s IH]; [reflexivity |]. intros Hq.
  cbn [written_id].
  destruct (Re.lit (Py.dq " xmi:id='") (String c s)) as [rest |] eqn:Hl.
  - apply lit_app in Hl. rewrite Hl in Hq. unfold quote_free in Hq.
    rewrite all_in_app in Hq. discriminate Hq.
  - apply IH. unfold quote_free, all_in in *.
    cbn [list_ascii_of_string forallb] in Hq.
    by apply andb_true_iff in Hq as [_ Hq].
Qed.

Lemma h_no_markup (a : string) :
  all_in (fun c => negb (is_markup_char c)) (Uml.h a) = true.
Proof.
  induction a as [| c a IH]; [reflexivity |].
  cbn [Uml.h]. by rewrite all_in_app, escape_char_no_markup, IH.
Qed.

Lemma h_quote_free (a : string) : quote_free (Uml.h a) = true.
Proof.
  unfold quote_free. eapply all_in_impl; [| apply h_no_markup].
  intros c Hc. apply negb_true_iff in Hc. apply negb_true_iff.
  unfold is_markup_char in Hc. unfold Py.is_quote.
  destruct (Py.code c =? 34)%N; [| reflexivity].
  by rewrite orb_true_r in Hc.
Qed.

Lemma str_nat_quote_free (n : nat) : quote_free (Py.str_nat n) = true.
Proof.
  unfold quote_free. eapply all_in_impl; [| apply str_nat_digits].
  intros c. destruct c as [[] [] [] [] [] [] [] []]; vm_compute; congruence.
Qed.

Ltac written_norm :=
  cbn;
  unfold Scheme.state_ext_id, Scheme.transition_id,
    Scheme.invariant_block_id, Scheme.trigger_annotation_id,
    Scheme.action_annotation_id;
  rewrite ?append_cons, ?append_nil_l; cbn.

Lemma written_id_state (sid : string) :
  quote_free sid = true ->
  written_id (Uml.line_text
                (Uml.Subvertex "uml:State" (Scheme.state_ext_id sid)
                   (Some (Uml.h sid)))) =
    Some (Scheme.state_ext_id sid).
Proof.
  intros Hq. written_norm. rewrite until_quote_app by exact Hq. reflexivity.
Qed.

Lemma written_id_transition (n : nat) (src tgt : string) :
  written_id (Uml.line_text
                (Uml.TransitionEl (Scheme.transition_id n) src tgt)) =
    Some (Scheme.transition_id n).
Proof.
  written_norm. rewrite until_quote_app by apply str_nat_quote_free.
  reflexivity.
Qed.

Lemma written_id_block (k : nat) (base : string) :
  written_id (Uml.line_text
                (Uml.StereoOpen "MDSSED:states" (Scheme.invariant_block_id k)
                   "base_State" base)) =
    Some (Scheme.invariant_block_id k).
Proof.
  written_norm. rewrite until_quote_app by apply str_nat_quote_free.
  reflexivity.
Qed.

Lemma written_id_trigger (n : nat) (base : string) :
  written_id (Uml.line_text
                (Uml.StereoOpen "MDSSED:triggers"
                   (Scheme.trigger_annotation_id n) "base_Transition" base)) =
    Some (Scheme.trigger_annotation_id n).
Proof.
  written_norm. rewrite until_quote_app by apply str_nat_quote_free.
  reflexivity.
Qed.

Lemma written_id_action (n : nat) (base : string) :
  written_id (Uml.line_text
                (Uml.StereoOpen "MDSSED:actions"
                   (Scheme.action_annotation_id n) "base_Transition" base)) =
    Some (Scheme.action_annotation_id n).
Proof.
  written_norm. rewrite until_quote_app by apply str_nat_quote_free.
  reflexivity.
Qed.

Lemma written_id_child (tag text : string) :
  quote_free tag = true ->
  written_id (Uml.line_text (Uml.StereoChild tag (Uml.h text))) = None.
Proof.
  intros Ht. apply written_id_none. cbn [Uml.line_text].
  pose proof (h_quote_free text) as Hh.
  unfold quote_free in *. by rewrite !all_in_app, Ht, Hh.
Qed.

(** In the lines of the scheme a reader finds the ids that were
    interpolated, when no state id holds a double quote. *)
Lemma scheme_written_ids (s0 : State) (sts : list State)
    (trs : list Transition) :
  Forall (fun s => quote_free (Scheme.sid_of s) = true) sts ->
  Forall (fun l => written_id (Uml.line_text l) = line_id l)
    (Scheme.state_nodes sts ++ Scheme.transition_lines s0 trs ++
     Scheme.annotations sts trs).
Proof.
  intros Hq.
  unfold Scheme.state_nodes, Scheme.transition_lines, Scheme.annotations.
  rewrite !Forall_app. repeat split.
  - by repeat constructor.
  - apply Forall_fmap. eapply Forall_impl; [exact Hq |].
    intros s Hs. by apply written_id_state.
  - by repeat constructor.
  - constructor.
    + unfold Scheme.init_transition_id, Scheme.init_id. written_norm.
      reflexivity.
    + apply List.Forall_forall. intros x Hx.
      apply list_elem_of_In, elem_of_lookup_imap in Hx as (i & y & -> & _).
      apply written_id_transition.
  - apply Forall_concat_imap. intros k s. unfold Scheme.invariant_block.
    rewrite !Forall_app. repeat split.
    + constructor; [apply written_id_block | constructor].
    + apply Forall_fmap, Forall_forall. intros iv _.
      by apply written_id_child.
    + by repeat constructor.
  - apply Forall_concat_imap. intros n tr.
    unfold Scheme.transition_annotations.
    repeat (apply List.Forall_cons); try apply List.Forall_nil;
      first [ apply written_id_trigger | apply written_id_action
            | by apply written_id_child | reflexivity ].
Qed.

Lemma head2_disjoint (l k : list string) (t : ascii * ascii) :
  Forall (fun x => head2 x = Some t) l ->
  Forall (fun y => head2 y <> Some t) k ->
  forall x, x ∈ l -> x ∉ k.
Proof.
  intros Hl Hk x Hx Hx'.
  rewrite Forall_forall in Hl, Hk. by apply (Hk x Hx'), Hl.
Qed.

(** X24: when the generator returns, the states have pairwise different
    ids and no state id holds a double quote, every line that the generator
    writes shows to a reader the [xmi:id] that was interpolated in it (and
    none in the lines of the invariants, triggers and actions and in the
    closing lines), and all these [xmi:id] values (the initial and the final
    node, the states, the initial transition, the transitions, the invariant
    blocks and the trigger and action annotations) are pairwise different.
    The ids are written without escaping, so a double quote in a state id
    ends the attribute early. *)
Theorem xmi_ids_are_unique (sts : list State) (trs : list Transition)
    (secs : Uml.Sections) :
  Uml.sections sts trs = Ret secs ->
  NoDup (omap st_id sts) ->
  Forall (fun sid => quote_free sid = true) (omap st_id sts) ->
  Forall (fun l => written_id (Uml.line_text l) = line_id l)
    (Uml.state_xml secs ++ Uml.trans_xml secs ++ Uml.stereo_xml secs) /\
  NoDup (xmi_ids secs).
Proof.
  intros Hsec Hnd Hq.
  destruct (sections_inv _ _ _ Hsec) as (Hne & Hall & Hinvs & Hwf).
  destruct sts as [| s0 rest]; [done |].
  rewrite (sections_ok s0 rest trs Hall Hinvs Hwf) in Hsec.
  injection Hsec as <-. unfold xmi_ids. cbn [Uml.state_xml Uml.trans_xml
                                               Uml.stereo_xml].
  rewrite (omap_sid_of _ Hall) in Hnd, Hq.
  split; [apply scheme_written_ids; by apply Forall_fmap in Hq |].
  clear Hq. rewrite scheme_ids, concat_imap_pairs.
  set (sts := s0 :: rest) in *.
  assert (Hg2 : Forall (fun x => head2 x = Some ("s", "_")%char)
                  (map (fun s => Scheme.state_ext_id (Scheme.sid_of s)) sts))
    by (apply Forall_fmap, List.Forall_forall; by intros).
  assert (Hg5 : Forall (fun x => head2 x = Some ("t", "_")%char)
                  ("t_init" ::
                   imap (fun n (_ : Transition) => Scheme.transition_id (S n))
                     trs)).
  { constructor; [reflexivity |]. apply List.Forall_forall. intros x Hx.
    apply list_elem_of_In, elem_of_lookup_imap in Hx as (i & y & -> & _).
    reflexivity. }
  assert (Hg6 : Forall (fun x => head2 x = Some ("s", "t")%char)
                  (imap (fun k (_ : State) => Scheme.invariant_block_id (S k))
                     sts)).
  { apply List.Forall_forall. intros x Hx.
    apply list_elem_of_In, elem_of_lookup_imap in Hx as (i & y & -> & _).
    reflexivity. }
  assert (Hg7 : Forall (fun x => head2 x = Some ("t", "r")%char)
                  (imap (fun n (_ : Transition) =>
                           Scheme.trigger_annotation_id (S n)) trs)).
  { apply List.Forall_forall. intros x Hx.
    apply list_elem_of_In, elem_of_lookup_imap in Hx as (i & y & -> & _).
    reflexivity. }
  assert (Hg8 : Forall (fun x => head2 x = Some ("a", "c")%char)
                  (imap (fun n (_ : Transition) =>
                           Scheme.action_annotation_id (S n)) trs)).
  { apply List.Forall_forall. intros x Hx.
    apply list_elem_of_In, elem_of_lookup_imap in Hx as (i & y & -> & _).
    reflexivity. }
  assert (Hother : forall (t t' : ascii * ascii) (l : list string),
            t <> t' -> Forall (fun x => head2 x = Some t) l ->
            Forall (fun x => head2 x <> Some t') l).
  { intros t t' l Hne' Hl. eapply List.Forall_impl; [| exact Hl].
    intros x -> [= E]. by apply Hne'. }
  apply NoDup_app. split; [apply NoDup_singleton |]. split.
  { apply (head2_disjoint _ _ ("i", "n")%char); [by repeat constructor |].
    rewrite !Forall_app. repeat split;
      first [ by repeat constructor
            | by eapply Hother; [| eassumption] ]. }
  apply NoDup_app. split.
  { rewrite <- (map_map Scheme.sid_of Scheme.state_ext_id).
    apply NoDup_fmap_2_strong; [| exact Hnd].
    intros x y _ _ H. by apply append_inj_l in H. }
  split.
  { apply (head2_disjoint _ _ ("s", "_")%char); [exact Hg2 |].
    rewrite !Forall_app. repeat split;
      first [ by repeat constructor
            | by eapply Hother; [| eassumption] ]. }
  apply NoDup_app. split; [apply NoDup_singleton |]. split.
  { apply (head2_disjoint _ _ ("f", "i")%char); [by repeat constructor |].
    rewrite !Forall_app. repeat split;
      first [ by repeat constructor
            | by eapply Hother; [| eassumption] ]. }
  apply NoDup_app. split.
  { apply NoDup_cons. split.
    - intros Hx. apply elem_of_lookup_imap in Hx as (i & y & Hx & _).
      symmetry in Hx. by apply transition_id_not_init in Hx.
    - apply NoDup_imap_inj. intros i j _ _ H.
      apply append_inj_l, str_nat_inj in H. lia. }
  split.
  { apply (head2_disjoint _ _ ("t", "_")%char); [exact Hg5 |].
    rewrite !Forall_app. repeat split;
      by eapply Hother; [| eassumption]. }
  apply NoDup_app. split.
  { apply NoDup_imap_inj. intros i j _ _ H.
    apply append_inj_l, str_nat_inj in H. lia. }
  split.
  { apply (head2_disjoint _ _ ("s", "t")%char); [exact Hg6 |].
    rewrite !Forall_app. repeat split;
      by eapply Hother; [| eassumption]. }
  apply NoDup_app. split.
  { apply NoDup_imap_inj. intros i j _ _ H.
    apply append_inj_l, str_nat_inj in H. lia. }
  split.
  { apply (head2_disjoint _ _ ("t", "r")%char); [exact Hg7 |].
    by eapply Hother; [| eassumption]. }
  apply NoDup_imap_inj. intros i j _ _ H.
  apply append_inj_l, str_nat_inj in H. lia.
Qed.

(** The states and the transition of scenario A. *)
Lemma xmi_ids_are_unique_witness :
  exists secs,
    Uml.sections
      (match states spec_A with Items sts => sts | _ => [] end)
      (match transitions spec_A with Items trs => trs | _ => [] end) =
      Ret secs /\
    NoDup (xmi_ids secs).
Proof.
  eexists. split; [reflexivity |].
  apply (xmi_ids_are_unique
           (match states spec_A with Items sts => sts | _ => [] end)
           (match transitions spec_A with Items trs => trs | _ => [] end));
    [reflexivity | | by repeat constructor].
  apply NoDup_cons. split; [| apply NoDup_singleton].
  intros H. apply list_elem_of_singleton in H. discriminate H.
Defined.

(** Two state ids that differ after a double quote only: the generator
    returns, and a reader finds the same [xmi:id] in the lines of the two
    states. *)
Example quoted_ids_clash :
  exists secs,
    Uml.sections quoted_states [] = Ret secs /\
    omap (fun l => written_id (Uml.line_text l)) (Uml.state_xml secs) =
      ["init_1"; "s_a"; "s_a"; "final_1"].
Proof. eexists. split; vm_compute; reflexivity. Qed.

(** ** The report of a run *)

Lemma main_returns spec caps_root r :
  outcome (main spec caps_root) = Ret r ->
  outcome (main_checks spec caps_root) = Ret tt /\
  r = report (emitted (main spec caps_root)).
Proof.
  destruct (main_run spec caps_root) as [Hout Hem]. rewrite Hout, Hem.
  destruct (outcome (main_checks spec caps_root)) as [[] |];
    [| discriminate].
  by intros [= <-].
Qed.

(** X26: for a document whose [devices] are missing or not a list, the
    device check records the one message [Missing devices[]] (the three
    required devices are not reported) and returns empty maps; the run then
    never raises, whatever the invariants are, and ends with status 1. *)
Theorem no_device_list (spec : Spec) (caps_root : Caps) :
  (forall ds, devices spec <> Items ds) ->
  validate_devices spec caps_root [] = (Ret (∅, ∅), [MissingDevices]) /\
  exists r, outcome (main spec caps_root) = Ret r /\ status r = 1 /\
            In "- Missing devices[]" (stdout r).
Proof.
  intros Hds.
  assert (Hvd : validate_devices spec caps_root [] =
                  (Ret (∅, ∅), [MissingDevices])).
  { unfold validate_devices. destruct (devices spec) as [| | ds];
      [reflexivity | reflexivity | by destruct (Hds ds)]. }
  split; [exact Hvd |].
  assert (Hin : In MissingDevices (emitted (main spec caps_root))).
  { destruct (main_run spec caps_root) as [_ ->]. unfold main_checks.
    assert (Hw2 : forall dm cd, writes (fun _ => True)
              (state_ids <- check_states spec dm cd
                              (default [] (caps_ops caps_root)) ;;
               check_transitions spec dm cd
                 (default ["&&"; "||"] (caps_bool_ops caps_root))
                 (default [] (caps_ops caps_root)) state_ids)%M).
    { intros. apply writes_bind; [eapply writes_any, check_states_writes |].
      intros. eapply writes_any, check_transitions_writes. }
    assert (Hk : outcome (check_keys spec) = Ret tt).
    { apply outcome_for_each;
        [intros; by apply writes_err_if | intros; apply outcome_err_if]. }
    rewrite emitted_bind;
      [| eapply writes_any, check_keys_writes
       | intros; apply writes_bind;
         [eapply writes_any, validate_devices_writes
         | intros [? ?]; apply Hw2]].
    rewrite Hk.
    rewrite emitted_bind;
      [| eapply writes_any, validate_devices_writes
       | intros [? ?]; apply Hw2].
    apply in_or_app. right. apply in_or_app. left.
    unfold emitted. rewrite Hvd. by left. }
  destruct (outcome (main spec caps_root)) as [r | e] eqn:Hout.
  - exists r. split; [reflexivity |].
    destruct (main_returns _ _ _ Hout) as [_ ->].
    destruct (emitted (main spec caps_root)) as [| e0 l] eqn:HE; [done |].
    cbn [report status stdout]. split; [reflexivity |].
    rewrite <- HE in Hin |- *.
    apply (in_map (fun e => "- " +:+ message e)) in Hin. exact Hin.
  - exfalso.
    destruct (proj1 (main_raises_iff spec caps_root) (ex_intro _ e Hout))
      as [Hdev
         | (dm & cd & sts & st & invs & iv & Hdev & _ & _ & _ & _ & _ & Hr)];
      unfold outcome in Hdev; rewrite Hvd in Hdev; [discriminate Hdev |].
    injection Hdev as <- <-.
    unfold raising_invariant in Hr.
    destruct (Re.TRIG_ATOM_RE_match iv) as [[[[dev attr] op] val] |];
      [| discriminate].
    by rewrite lookup_empty in Hr.
Qed.

(** Scenario A with [devices] that is not a list. *)
Lemma no_device_list_witness :
  exists r,
    outcome (main spec_devices_not_a_list caps_A) = Ret r /\ status r = 1.
Proof.
  destruct (no_device_list spec_devices_not_a_list caps_A)
    as [_ (r & Hr & Hs & _)]; [intros ds; discriminate | by exists r].
Defined.
